(** * Tactical map server: session state, visibility filtering and broadcast

    A shallow embedding of [server/app/server.py].  Python objects become
    records, [Dict] values become finite maps ([gmap]) except
    [Session.teams], whose insertion order decides the team assignment
    and which is therefore kept as an ordered association list, [Set[str]]
    becomes [gset string], and the coroutines become functions in a small
    state / output / exception monad: a handler runs to completion on the
    state it is given, returns the messages it sent and either a value or
    the exception it raised, the state keeping whatever was mutated before.
    The coordinates of a position are IEEE 754 doubles, as in Python, and
    [Position.distance_to] computes on them with the arithmetic of the
    kernel's primitive floats; the functions of the C library that it calls
    are a parameter of the development.  Time stamps are read as real
    numbers; [uuid.uuid4()] and [time.time()] are inputs of every
    handler.  The iteration order of the player, marker and session
    dictionaries only orders sends that the code gathers concurrently and
    is not modelled. *)

From Stdlib Require Import Reals Lra ZArith Lia Floats.
From stdpp Require Import gmap strings list fin_maps.

#[local] Open Scope string_scope.

(** ** Constants *)

Definition POSITION_UPDATE_THRESHOLD : float := 2%float.
Definition INACTIVE_TIMEOUT : R := 300%R.

(** ** Enums *)

Inductive ConnectionStatus := CONNECTED | DISCONNECTED | INACTIVE.
Inductive Visibility := TEAM | ALL.
Inductive AlertType := CONTACT | DANGER | RALLY | HELP.
Inductive MarkerType := PIN | AREA | LINE.

#[global] Instance ConnectionStatus_eq_dec : EqDecision ConnectionStatus.
Proof. solve_decision. Defined.
#[global] Instance Visibility_eq_dec : EqDecision Visibility.
Proof. solve_decision. Defined.

Definition AlertType_value (a : AlertType) : string :=
  match a with
  | CONTACT => "contact" | DANGER => "danger" | RALLY => "rally" | HELP => "help"
  end.

(** A connection handle ([WebSocketServerProtocol]); only its identity matters. *)
Definition WebSocket := nat.

(** Values of type [Any] stored in property dictionaries (scalar JSON values). *)
Inductive Any :=
| ANone
| ABool (b : bool)
| AInt (z : Z)
| AFloat (r : R)
| AStr (s : string).

(** ** Python helpers *)

(** Truthiness of an [Optional[str]]: [None] and the empty string are false. *)
Definition truthy (o : option string) : option string :=
  match o with
  | Some s => if decide (s = "") then None else Some s
  | None => None
  end.

(** [s[:n]] on strings. *)
Definition str_prefix (n : nat) (s : string) : string := String.substring 0 n s.

(** [l[-n:]] on lists, for [n > 0]. *)
Definition last_n {A} (n : nat) (l : list A) : list A := drop (length l - n) l.

Definition ascii_upper (c : Ascii.ascii) : Ascii.ascii :=
  let n := Ascii.nat_of_ascii c in
  if (97 <=? n)%nat && (n <=? 122)%nat then Ascii.ascii_of_nat (n - 32) else c.

Fixpoint upper (s : string) : string :=
  match s with
  | EmptyString => EmptyString
  | String c s' => String (ascii_upper c) (upper s')
  end.

Definition is_space (c : Ascii.ascii) : bool :=
  let n := Ascii.nat_of_ascii c in
  (n =? 32)%nat || ((9 <=? n)%nat && (n <=? 13)%nat) || ((28 <=? n)%nat && (n <=? 31)%nat).

Fixpoint lstrip (s : string) : string :=
  match s with
  | EmptyString => EmptyString
  | String c s' => if is_space c then lstrip s' else s
  end.

Fixpoint rstrip (s : string) : string :=
  match s with
  | EmptyString => EmptyString
  | String c s' =>
      match rstrip s' with
      | EmptyString => if is_space c then EmptyString else String c EmptyString
      | r => String c r
      end
  end.

Definition strip (s : string) : string := rstrip (lstrip s).

(** [min(keys, key=f)]: the first key whose measure is minimal. *)
Fixpoint min_from {A} (f : A → nat) (best : A) (l : list A) : A :=
  match l with
  | [] => best
  | x :: l' => if (f x <? f best)%nat then min_from f x l' else min_from f best l'
  end.

Definition py_min {A} (f : A → nat) (l : list A) : option A :=
  match l with
  | [] => None
  | x :: l' => Some (min_from f x l')
  end.

(** ** Insertion-ordered dictionaries (used for [Session.teams]) *)

Module odict.
Section odict.
Context {V : Type}.

Fixpoint get (k : string) (d : list (string * V)) : option V :=
  match d with
  | [] => None
  | (k', v) :: d' => if decide (k = k') then Some v else get k d'
  end.

(** [d[k] = v]: replaces in place, or appends a new key at the end. *)
Fixpoint set (k : string) (v : V) (d : list (string * V)) : list (string * V) :=
  match d with
  | [] => [(k, v)]
  | (k', v') :: d' =>
      if decide (k = k') then (k, v) :: d' else (k', v') :: set k v d'
  end.

(** Mutation of the object stored under [k]; the key order is untouched. *)
Fixpoint alter (f : V → V) (k : string) (d : list (string * V)) : list (string * V) :=
  match d with
  | [] => []
  | (k', v) :: d' =>
      if decide (k = k') then (k', f v) :: d' else (k', v) :: alter f k d'
  end.

Definition keys (d : list (string * V)) : list string := d.*1.
End odict.
End odict.

(** ** Exceptions *)

Inductive Exn :=
| KeyError (key : option string)
| ValueError (message : string)
| OverflowError (message : string).

(** Sequencing of computations that may raise. *)
Definition and_then {A B} (x : Exn + A) (f : A → Exn + B) : Exn + B :=
  match x with
  | inl e => inl e
  | inr a => f a
  end.

(** ** Floating point

    A Python [float] is an IEEE 754 double.  Its arithmetic operators and
    [math.sqrt] are correctly rounded and are those of the kernel's
    primitive floats.  The results of [math.sin], [math.cos], [math.atan2]
    and of the power operator come from the C library and are not fixed by
    the standard; they are a parameter, and each of them may raise. *)

Record Math := mk_math {
  math_sin : float → Exn + float;
  math_cos : float → Exn + float;
  math_atan2 : float → float → Exn + float;
  float_pow : float → float → Exn + float
}.

(** [math.radians]: the argument times the double nearest to [pi / 180]. *)
Definition math_radians (x : float) : float := (x * 0x1.1df46a2529d39p-6)%float.

(** [math.sqrt]: [ValueError] when the result is not a number although the
    argument is one, which is the case for every negative argument. *)
Definition math_sqrt (x : float) : Exn + float :=
  let r := PrimFloat.sqrt x in
  if is_nan r && negb (is_nan x) then inl (ValueError "math domain error") else inr r.

(** What CPython 3.11 on x86-64 Linux returns for the calls that
    [distance_to] makes between (0, 0) and (0, 1.798643211837461e-05); any
    other call is answered with an exception that says so. *)
Definition recorded_math : Math :=
  let unrecorded := inl (ValueError "not recorded") in
  let same := PrimFloat.Leibniz.eqb in
  mk_math
    (λ x, if same x 0%float then inr 0%float
          else if same x 0x1.5112595c456efp-23%float then inr 0x1.5112595c456d7p-23%float
          else unrecorded)
    (λ x, if same x 0%float then inr 1%float else unrecorded)
    (λ y x, if same y 0x1.5112595c456d7p-23%float && same x 0x1.fffffffffff91p-1%float
            then inr 0x1.5112595c456efp-23%float
            else unrecorded)
    (λ x y, if same y 2%float
            then if same x 0%float then inr 0%float
                 else if same x 0x1.5112595c456d7p-23%float
                      then inr 0x1.bbd150959ef53p-46%float
                      else unrecorded
            else unrecorded).

(** ** Data classes *)

Module Position.
Record t := mk {
  latitude : float;
  longitude : float;
  heading : float;
  accuracy : float;
  elevation : float;
  updated_at : R
}.

(** A location dictionary unpacked into the [Position] constructor: the two
    coordinates are required, every other field has a default. *)
Record kwargs := mk_kwargs {
  kw_latitude : float;
  kw_longitude : float;
  kw_heading : option float;
  kw_accuracy : option float;
  kw_elevation : option float;
  kw_updated_at : option R
}.

Definition of_kwargs (now : R) (d : kwargs) : t :=
  mk (kw_latitude d) (kw_longitude d)
     (default 0%float (kw_heading d)) (default 0%float (kw_accuracy d))
     (default 0%float (kw_elevation d)) (default now (kw_updated_at d)).

(** Haversine formula, operation by operation in Python's order of
    evaluation. *)
Definition distance_to (math : Math) (self other : t) : Exn + float :=
  let R_ := 6371000%float in
  let lat1 := math_radians (latitude self) in
  let lon1 := math_radians (longitude self) in
  let lat2 := math_radians (latitude other) in
  let lon2 := math_radians (longitude other) in
  let dlat := (lat2 - lat1)%float in
  let dlon := (lon2 - lon1)%float in
  and_then (math_sin math (dlat / 2)%float) (λ sin_dlat,
  and_then (float_pow math sin_dlat 2%float) (λ sin_dlat2,
  and_then (math_cos math lat1) (λ cos_lat1,
  and_then (math_cos math lat2) (λ cos_lat2,
  and_then (math_sin math (dlon / 2)%float) (λ sin_dlon,
  and_then (float_pow math sin_dlon 2%float) (λ sin_dlon2,
  let a := (sin_dlat2 + cos_lat1 * cos_lat2 * sin_dlon2)%float in
  and_then (math_sqrt a) (λ sqrt_a,
  and_then (math_sqrt (1 - a)%float) (λ sqrt_1a,
  and_then (math_atan2 math sqrt_a sqrt_1a) (λ atan,
  let c := (2 * atan)%float in
  inr (R_ * c)%float))))))))).
End Position.

Module Player.
Record t := mk {
  player_id : string;
  callsign : string;
  team_id : option string;
  connection_status : ConnectionStatus;
  last_active : R;
  position : option Position.t;
  device_info : gmap string string;
  websocket : option WebSocket
}.

Definition set_team_id (v : option string) (p : t) : t :=
  mk (player_id p) (callsign p) v (connection_status p) (last_active p)
     (position p) (device_info p) (websocket p).
Definition set_connection_status (v : ConnectionStatus) (p : t) : t :=
  mk (player_id p) (callsign p) (team_id p) v (last_active p)
     (position p) (device_info p) (websocket p).
Definition set_last_active (v : R) (p : t) : t :=
  mk (player_id p) (callsign p) (team_id p) (connection_status p) v
     (position p) (device_info p) (websocket p).
Definition set_position (v : option Position.t) (p : t) : t :=
  mk (player_id p) (callsign p) (team_id p) (connection_status p) (last_active p)
     v (device_info p) (websocket p).
Definition set_websocket (v : option WebSocket) (p : t) : t :=
  mk (player_id p) (callsign p) (team_id p) (connection_status p) (last_active p)
     (position p) (device_info p) v.
End Player.

Module Team.
Record t := mk {
  team_id : string;
  name : string;
  color : string;
  players : gset string;
  markers : gset string
}.

Definition set_players (v : gset string) (x : t) : t :=
  mk (team_id x) (name x) (color x) v (markers x).
Definition set_markers (v : gset string) (x : t) : t :=
  mk (team_id x) (name x) (color x) (players x) v.
End Team.

Module Marker.
Record t := mk {
  marker_id : string;
  type : MarkerType;
  created_by : string;
  team_id : option string;
  visibility : Visibility;
  position : Position.t;
  properties : gmap string Any;
  created_at : R;
  expires_at : option R
}.

Definition set_properties (v : gmap string Any) (m : t) : t :=
  mk (marker_id m) (type m) (created_by m) (team_id m) (visibility m)
     (position m) v (created_at m) (expires_at m).
End Marker.

Module Message.
Record t := mk {
  message_id : string;
  sender_id : string;
  team_id : option string;
  visibility : Visibility;
  type : string;
  content : string;
  sent_at : R;
  location : option Position.t
}.
End Message.

Module Session.
Record t := mk {
  session_id : string;
  created_at : R;
  last_active : R;
  host_id : option string;
  teams : list (string * Team.t);
  settings : gmap string Any;
  players : gmap string Player.t;
  markers : gmap string Marker.t;
  messages : list Message.t;
  sequence_number : Z
}.

(** [Session(session_id=...)] at time [now]. *)
Definition new (sid : string) (now : R) : t :=
  mk sid now now None [] ∅ ∅ ∅ [] 0%Z.

Definition set_host_id (v : option string) (s : t) : t :=
  mk (session_id s) (created_at s) (last_active s) v (teams s) (settings s)
     (players s) (markers s) (messages s) (sequence_number s).
Definition set_teams (v : list (string * Team.t)) (s : t) : t :=
  mk (session_id s) (created_at s) (last_active s) (host_id s) v (settings s)
     (players s) (markers s) (messages s) (sequence_number s).
Definition set_players (v : gmap string Player.t) (s : t) : t :=
  mk (session_id s) (created_at s) (last_active s) (host_id s) (teams s) (settings s)
     v (markers s) (messages s) (sequence_number s).
Definition set_markers (v : gmap string Marker.t) (s : t) : t :=
  mk (session_id s) (created_at s) (last_active s) (host_id s) (teams s) (settings s)
     (players s) v (messages s) (sequence_number s).
Definition set_messages (v : list Message.t) (s : t) : t :=
  mk (session_id s) (created_at s) (last_active s) (host_id s) (teams s) (settings s)
     (players s) (markers s) v (sequence_number s).
Definition set_sequence_number (v : Z) (s : t) : t :=
  mk (session_id s) (created_at s) (last_active s) (host_id s) (teams s) (settings s)
     (players s) (markers s) (messages s) v.
End Session.

(** ** Deltas, snapshots and wire messages *)

(** The public player dictionary; [pd_position] is [None] when the
    [position] key is absent. *)
Record PlayerData := mk_player_data {
  pd_player_id : string;
  pd_callsign : string;
  pd_team_id : option string;
  pd_connection_status : ConnectionStatus;
  pd_position : option Position.t
}.

Record TeamData := mk_team_data {
  td_team_id : string;
  td_name : string;
  td_color : string;
  td_players : list string
}.

(** The [data] payload of a change record. *)
Inductive ChangeData :=
| DPosition (p : Position.t)
| DMessage (m : Message.t)
| DMarker (m : Marker.t)
| DProperties (props : gmap string Any)
| DEmpty
| DTeamId (tid : string)
| DPlayer (d : PlayerData).

Module StateDelta.
Record change := mk_change {
  type : string;
  entity_type : string;
  entity_id : string;
  data : ChangeData;
  timestamp : R;
  path : option string
}.

(** [self.changes] *)
Definition t := list change.

Definition new : t := [].

Definition add_change (now : R) (change_type entity_type entity_id : string)
    (data : ChangeData) (path : option string) (self : t) : t :=
  (self ++ [mk_change change_type entity_type entity_id data now (truthy path)])%list.

Record dict := mk_dict {
  delta_id : string;
  session_id : string;
  dict_timestamp : R;
  sequence_number : Z;
  changes : list change
}.

Definition to_dict (uuid : string) (now : R) (self : t)
    (session_id : string) (sequence_number : Z) : dict :=
  mk_dict uuid session_id now sequence_number self.
End StateDelta.

(** The dictionary built by [get_filtered_state]. *)
Record State := mk_state {
  st_session_id : string;
  st_sequence_number : Z;
  st_teams : list (string * TeamData);
  st_players : gmap string PlayerData;
  st_markers : gmap string Marker.t;
  st_messages : list Message.t
}.

Inductive WireMsg :=
| STATE_DELTA (delta : StateDelta.dict)
| AUTH_RESPONSE (success : bool) (player_id : string) (team_id : option string)
    (session_state : State)
| ERROR (error : string)
| PONG.

(** One call of [websocket.send]. *)
Record Send := mk_send { to : WebSocket; payload : WireMsg }.

(** ** The handler monad: mutable state, messages sent, exceptions *)

Record Outcome (S A : Type) := mk_outcome {
  state : S;
  sent : list Send;
  result : Exn + A
}.
Arguments mk_outcome {S A} _ _ _.
Arguments state {S A} _.
Arguments sent {S A} _.
Arguments result {S A} _.

Definition M (S A : Type) : Type := S → Outcome S A.

#[global] Instance M_ret {S} : MRet (M S) :=
  λ A a s, mk_outcome s [] (inr a).

#[global] Instance M_bind {S} : MBind (M S) :=
  λ A B f m s,
    let r := m s in
    match result r with
    | inl e => mk_outcome (state r) (sent r) (inl e)
    | inr a =>
        let r' := f a (state r) in
        mk_outcome (state r') (sent r ++ sent r')%list (result r')
    end.

Definition get_state {S} : M S S := λ s, mk_outcome s [] (inr s).
Definition modify {S} (f : S → S) : M S () := λ s, mk_outcome (f s) [] (inr ()).
Definition send_all {S} (l : list Send) : M S () := λ s, mk_outcome s l (inr ()).
Definition raise {S A} (e : Exn) : M S A := λ s, mk_outcome s [] (inl e).

(** A handler returned normally. *)
Definition returned {S A} (r : Outcome S A) : Prop := ∃ a, result r = inr a.

(** ** Broadcast router *)

(** The target players of a broadcast, or [None] when the function returns
    before sending because the team is unknown. *)
Definition target_players (session : Session.t) (team_id : option string)
    : option (list Player.t) :=
  match truthy team_id with
  | Some tid =>
      match odict.get tid (Session.teams session) with
      | None => None
      | Some team =>
          Some (omap (λ pid, Session.players session !! pid)
                     (elements (Team.players team)))
      end
  | None => Some (map_to_list (Session.players session)).*2
  end.

Definition live (p : Player.t) : bool :=
  bool_decide (is_Some (Player.websocket p))
  && bool_decide (Player.connection_status p = CONNECTED).

(** The players a broadcast is sent to. *)
Definition recipients (session : Session.t) (team_id : option string) : list Player.t :=
  filter (λ p, live p = true) (default [] (target_players session team_id)).

Definition deliver (message : WireMsg) (p : Player.t) : list Send :=
  match Player.websocket p with
  | Some ws => [mk_send ws message]
  | None => []
  end.

Definition broadcast_delta (uuid : string) (now : R) (delta : StateDelta.t)
    (team_id : option string) : M Session.t () :=
  modify (λ s, Session.set_sequence_number (Session.sequence_number s + 1)%Z s) ;;
  session ← get_state;
  let delta_dict :=
    StateDelta.to_dict uuid now delta
      (Session.session_id session) (Session.sequence_number session) in
  let message := STATE_DELTA delta_dict in
  send_all (recipients session team_id ≫= deliver message).

Definition player_data (player : Player.t) : PlayerData :=
  mk_player_data (Player.player_id player) (Player.callsign player)
    (Player.team_id player) (Player.connection_status player) None.

Definition broadcast_player_update (uuid : string) (now : R) (player : Player.t)
    (change_type : string) : M Session.t () :=
  let delta :=
    StateDelta.add_change now change_type "player" (Player.player_id player)
      (DPlayer (player_data player)) None StateDelta.new in
  broadcast_delta uuid now delta None.

(** ** Snapshot engine *)

Definition visible_to {A} (visibility : A → Visibility) (owner : A → option string)
    (team_id : option string) (x : A) : bool :=
  bool_decide (visibility x = ALL) || bool_decide (owner x = team_id).

Definition get_filtered_state (session : Session.t) (team_id : option string) : State :=
  mk_state
    (Session.session_id session)
    (Session.sequence_number session)
    ((λ '(tid, team),
       (tid, mk_team_data (Team.team_id team) (Team.name team) (Team.color team)
               (elements (Team.players team)))) <$> Session.teams session)
    ((λ player,
       mk_player_data (Player.player_id player) (Player.callsign player)
         (Player.team_id player) (Player.connection_status player)
         (if bool_decide (Player.team_id player = team_id)
          then Player.position player else None)) <$> Session.players session)
    (filter (λ kv, visible_to Marker.visibility Marker.team_id team_id kv.2 = true)
       (Session.markers session))
    (filter (λ m, visible_to Message.visibility Message.team_id team_id m = true)
       (last_n 50 (Session.messages session))).

(** ** Inbound messages, parsed *)

Record AuthData := mk_auth {
  auth_callsign : string;
  auth_session_id : string;
  auth_is_host : bool;
  auth_device_info : gmap string string
}.

Record ChatData := mk_chat {
  chat_content : string;
  chat_visibility : option Visibility;
  chat_location : option Position.kwargs
}.

(** [alert_visibility] is a field a client may send; the handler never reads it. *)
Record AlertData := mk_alert {
  alert_type : AlertType;
  alert_location : option Position.kwargs;
  alert_visibility : option Visibility
}.

Record MarkerData := mk_marker_data {
  md_type : MarkerType;
  md_visibility : option Visibility;
  md_position : Position.kwargs;
  md_properties : option (gmap string Any)
}.

(** The [marker] message by [action]; for an update, [marker_data] may be
    missing and may or may not hold [properties]. *)
Inductive MarkerRequest :=
| MarkerCreate (marker_data : MarkerData)
| MarkerUpdate (marker_id : string) (marker_data : option (option (gmap string Any)))
| MarkerDelete (marker_id : string)
| MarkerOther.

Inductive TeamUpdateData :=
| AssignPlayer (player_id team_id : string)
| TeamUpdateOther.

Inductive Request :=
| POSITION_UPDATE (data : Position.kwargs)
| CHAT (data : ChatData)
| ALERT (data : AlertData)
| MARKER (data : MarkerRequest)
| TEAM_UPDATE (data : TeamUpdateData)
| OTHER.

(** ** Mutation handlers on one session

    A handler receives the player object by reference: [pid] is the key under
    which it is stored in [session.players] and [player] its value when the
    handler starts. *)

Definition update_player (pid : string) (f : Player.t → Player.t) : M Session.t () :=
  modify (λ s, Session.set_players (alter f pid (Session.players s)) s).

(** [session.teams[tid]] followed by a mutation of that team. *)
Definition update_team (tid : option string) (f : Team.t → Team.t) : M Session.t () :=
  session ← get_state;
  match tid with
  | Some t =>
      match odict.get t (Session.teams session) with
      | Some _ => modify (Session.set_teams (odict.alter f t (Session.teams session)))
      | None => raise (KeyError tid)
      end
  | None => raise (KeyError tid)
  end.

(** ** Handlers

    From here on the platform's [Math] is fixed. *)

Section server.
Context (math : Math).

(** The guard of [handle_position_update]: no stored position, or a distance
    above the threshold; the distance computation may raise. *)
Definition accepts_position (player : Player.t) (new_position : Position.t)
    : Exn + bool :=
  match Player.position player with
  | None => inr true
  | Some old =>
      and_then (Position.distance_to math old new_position)
        (λ d, inr (POSITION_UPDATE_THRESHOLD <? d)%float)
  end.

Definition handle_position_update (uuid : string) (now : R) (pid : string)
    (player : Player.t) (data : Position.kwargs) : M Session.t () :=
  let new_position :=
    Position.mk (Position.kw_latitude data) (Position.kw_longitude data)
      (default 0%float (Position.kw_heading data))
      (default 0%float (Position.kw_accuracy data))
      (default 0%float (Position.kw_elevation data)) now in
  match accepts_position player new_position with
  | inl e => raise e
  | inr true =>
      update_player pid
        (λ p, Player.set_last_active now (Player.set_position (Some new_position) p)) ;;
      let delta :=
        StateDelta.add_change now "update" "player" (Player.player_id player)
          (DPosition new_position) None StateDelta.new in
      broadcast_delta uuid now delta (Player.team_id player)
  | inr false => mret ()
  end.

Definition broadcast_by_visibility (uuid : string) (now : R) (delta : StateDelta.t)
    (visibility : Visibility) (player : Player.t) : M Session.t () :=
  if decide (visibility = TEAM)
  then broadcast_delta uuid now delta (Player.team_id player)
  else broadcast_delta uuid now delta None.

Definition handle_chat (uuid_message uuid_delta : string) (now : R)
    (player : Player.t) (data : ChatData) : M Session.t () :=
  let message :=
    Message.mk uuid_message (Player.player_id player) (Player.team_id player)
      (default TEAM (chat_visibility data)) "chat"
      (str_prefix 500 (chat_content data)) now
      (Position.of_kwargs now <$> chat_location data) in
  modify (λ s, Session.set_messages (Session.messages s ++ [message])%list s) ;;
  modify (λ s, if (100 <? length (Session.messages s))%nat
               then Session.set_messages (last_n 100 (Session.messages s)) s
               else s) ;;
  let delta :=
    StateDelta.add_change now "add" "message" (Message.message_id message)
      (DMessage message) None StateDelta.new in
  broadcast_by_visibility uuid_delta now delta (Message.visibility message) player.

Definition handle_alert (uuid_message uuid_delta : string) (now : R)
    (player : Player.t) (data : AlertData) : M Session.t () :=
  let message :=
    Message.mk uuid_message (Player.player_id player) (Player.team_id player)
      TEAM "alert"
      (upper (AlertType_value (alert_type data)) +:+ " - " +:+ Player.callsign player)
      now
      (match alert_location data with
       | Some location_data => Some (Position.of_kwargs now location_data)
       | None => Player.position player
       end) in
  modify (λ s, Session.set_messages (Session.messages s ++ [message])%list s) ;;
  let delta :=
    StateDelta.add_change now "add" "message" (Message.message_id message)
      (DMessage message) None StateDelta.new in
  broadcast_delta uuid_delta now delta (Player.team_id player).

Definition handle_marker (uuid_marker uuid_delta : string) (now : R)
    (player : Player.t) (data : MarkerRequest) : M Session.t () :=
  match data with
  | MarkerCreate marker_data =>
      let marker :=
        Marker.mk uuid_marker (md_type marker_data) (Player.player_id player)
          (Player.team_id player) (default TEAM (md_visibility marker_data))
          (Position.of_kwargs now (md_position marker_data))
          (default ∅ (md_properties marker_data)) now None in
      modify (λ s, Session.set_markers
                     (<[Marker.marker_id marker := marker]> (Session.markers s)) s) ;;
      update_team (Player.team_id player)
        (λ t, Team.set_markers (Team.markers t ∪ {[Marker.marker_id marker]}) t) ;;
      let delta :=
        StateDelta.add_change now "add" "marker" (Marker.marker_id marker)
          (DMarker marker) None StateDelta.new in
      broadcast_by_visibility uuid_delta now delta (Marker.visibility marker) player
  | MarkerUpdate marker_id marker_data =>
      session ← get_state;
      match Session.markers session !! marker_id with
      | Some marker =>
          if decide (Marker.created_by marker = Player.player_id player) then
            match marker_data with
            | None => raise (KeyError (Some "marker_data"))
            | Some properties =>
                let marker' :=
                  match properties with
                  | Some new => Marker.set_properties (new ∪ Marker.properties marker) marker
                  | None => marker
                  end in
                modify (λ s, Session.set_markers
                               (<[marker_id := marker']> (Session.markers s)) s) ;;
                let delta :=
                  StateDelta.add_change now "update" "marker" marker_id
                    (DProperties (Marker.properties marker')) None StateDelta.new in
                broadcast_by_visibility uuid_delta now delta (Marker.visibility marker) player
            end
          else mret ()
      | None => mret ()
      end
  | MarkerDelete marker_id =>
      session ← get_state;
      match Session.markers session !! marker_id with
      | Some marker =>
          if decide (Marker.created_by marker = Player.player_id player) then
            modify (λ s, Session.set_markers (delete marker_id (Session.markers s)) s) ;;
            update_team (Marker.team_id marker)
              (λ t, Team.set_markers (Team.markers t ∖ {[marker_id]}) t) ;;
            let delta :=
              StateDelta.add_change now "remove" "marker" marker_id DEmpty None
                StateDelta.new in
            broadcast_by_visibility uuid_delta now delta (Marker.visibility marker) player
          else mret ()
      | None => mret ()
      end
  | MarkerOther => mret ()
  end.

Definition handle_team_update (uuid : string) (now : R) (data : TeamUpdateData)
    : M Session.t () :=
  match data with
  | AssignPlayer player_id new_team_id =>
      session ← get_state;
      match Session.players session !! player_id,
            odict.get new_team_id (Session.teams session) with
      | Some player, Some _ =>
          match truthy (Player.team_id player) with
          | Some old =>
              update_team (Some old)
                (λ t, Team.set_players (Team.players t ∖ {[player_id]}) t)
          | None => mret ()
          end ;;
          update_player player_id (Player.set_team_id (Some new_team_id)) ;;
          update_team (Some new_team_id)
            (λ t, Team.set_players (Team.players t ∪ {[player_id]}) t) ;;
          let delta :=
            StateDelta.add_change now "update" "player" player_id
              (DTeamId new_team_id) None StateDelta.new in
          broadcast_delta uuid now delta None
      | _, _ => mret ()
      end
  | TeamUpdateOther => mret ()
  end.

(** ** The server *)

Record TacticalServer := mk_server {
  sessions : gmap string Session.t;
  player_connections : gmap string WebSocket
}.

Definition set_sessions (v : gmap string Session.t) (sv : TacticalServer) :=
  mk_server v (player_connections sv).
Definition set_player_connections (v : gmap string WebSocket) (sv : TacticalServer) :=
  mk_server (sessions sv) v.

Definition empty_server : TacticalServer := mk_server ∅ ∅.

(** Runs a handler on the session object registered under [sid].  Callers
    hold a reference obtained from [self.sessions], so the lookup succeeds. *)
Definition on_session {A} (sid : string) (m : M Session.t A) : M TacticalServer A :=
  λ sv,
    match sessions sv !! sid with
    | Some session =>
        let r := m session in
        mk_outcome (set_sessions (<[sid := state r]> (sessions sv)) sv) (sent r) (result r)
    | None => mk_outcome sv [] (inl (KeyError (Some sid)))
    end.

Definition send_error {S} (websocket : WebSocket) (error : string) : M S () :=
  send_all [mk_send websocket (ERROR error)].

Definition handle_message (uuid1 uuid2 : string) (now : R)
    (player_id session_id : string) (data : Request) : M TacticalServer () :=
  sv ← get_state;
  match sessions sv !! session_id with
  | None => mret ()
  | Some session =>
      match Session.players session !! player_id with
      | None => mret ()
      | Some player =>
          match data with
          | POSITION_UPDATE d =>
              on_session session_id (handle_position_update uuid1 now player_id player d)
          | CHAT d => on_session session_id (handle_chat uuid1 uuid2 now player d)
          | ALERT d => on_session session_id (handle_alert uuid1 uuid2 now player d)
          | MARKER d => on_session session_id (handle_marker uuid1 uuid2 now player d)
          | TEAM_UPDATE d =>
              if decide (Some player_id = Session.host_id session)
              then on_session session_id (handle_team_update uuid1 now d)
              else mret ()
          | OTHER => mret ()
          end
      end
  end.

(** The session a host creates, with its two default teams. *)
Definition create_session (uuid_session uuid_alpha uuid_bravo : string) (now : R)
    : Session.t :=
  let session := Session.new uuid_session now in
  let alpha_team := Team.mk uuid_alpha "Alpha" "#00FF00" ∅ ∅ in
  let bravo_team := Team.mk uuid_bravo "Bravo" "#FF0000" ∅ ∅ in
  Session.set_teams
    (odict.set (Team.team_id bravo_team) bravo_team
       (odict.set (Team.team_id alpha_team) alpha_team (Session.teams session)))
    session.

(** [len(session.teams[tid].players)] *)
Definition team_count (session : Session.t) (tid : string) : nat :=
  from_option (λ t, size (Team.players t)) 0%nat (odict.get tid (Session.teams session)).

(** The team a new player is assigned to. *)
Definition choose_team (session : Session.t) : option string :=
  py_min (team_count session) (odict.keys (Session.teams session)).

Definition send_auth_response (player : Player.t) : M Session.t () :=
  session ← get_state;
  let state := get_filtered_state session (Player.team_id player) in
  match Player.websocket player with
  | Some ws =>
      send_all [mk_send ws
        (AUTH_RESPONSE true (Player.player_id player) (Player.team_id player) state)]
  | None => mret ()
  end.

(** The part of [handle_auth] that runs on the session once it is known. *)
Definition join_session (websocket : WebSocket) (player_id : string) (now : R)
    (callsign : string) (is_host : bool) (device_info : gmap string string)
    : M Session.t Player.t :=
  session ← get_state;
  let player :=
    Player.mk player_id callsign (choose_team session) CONNECTED now None device_info
      (Some websocket) in
  match Player.team_id player with
  | Some tid =>
      update_team (Some tid) (λ t, Team.set_players (Team.players t ∪ {[player_id]}) t)
  | None => mret ()
  end ;;
  (if is_host then modify (Session.set_host_id (Some player_id)) else mret ()) ;;
  modify (λ s, Session.set_players (<[player_id := player]> (Session.players s)) s) ;;
  mret player.

Definition handle_auth (websocket : WebSocket)
    (uuid_session uuid_alpha uuid_bravo uuid_player uuid_delta : string) (now : R)
    (data : AuthData) : M TacticalServer (option string * option string) :=
  let callsign := strip (auth_callsign data) in
  let session_id := strip (auth_session_id data) in
  let is_host := auth_is_host data in
  let device_info := auth_device_info data in
  if decide (callsign = "") then
    send_error websocket "Callsign required" ;; mret (None, None)
  else
    sv ← get_state;
    let session_id := if is_host then uuid_session else session_id in
    if negb is_host && bool_decide (sessions sv !! session_id = None) then
      send_error websocket "Session not found" ;; mret (None, None)
    else
      (if is_host then
         modify (λ sv, set_sessions
           (<[session_id := create_session uuid_session uuid_alpha uuid_bravo now]>
              (sessions sv)) sv)
       else mret ()) ;;
      player ← on_session session_id
        (join_session websocket uuid_player now callsign is_host device_info) ;
      modify (λ sv, set_player_connections
                      (<[uuid_player := websocket]> (player_connections sv)) sv) ;;
      on_session session_id
        (send_auth_response player ;;
         broadcast_player_update uuid_delta now player "add") ;;
      mret (Some uuid_player, Some session_id).

Definition handle_disconnect (uuid : string) (now : R) (player_id session_id : string)
    : M TacticalServer () :=
  sv ← get_state;
  match sessions sv !! session_id with
  | None => mret ()
  | Some session =>
      match Session.players session !! player_id with
      | None => mret ()
      | Some player =>
          let gone p := Player.set_websocket None (Player.set_connection_status DISCONNECTED p) in
          on_session session_id (update_player player_id gone) ;;
          (if bool_decide (is_Some (player_connections sv !! player_id)) then
             modify (λ sv, set_player_connections
                             (delete player_id (player_connections sv)) sv)
           else raise (KeyError (Some player_id))) ;;
          on_session session_id (broadcast_player_update uuid now (gone player) "update")
      end
  end.

(** ** Maintenance loop: one iteration of [update_loop] *)

Fixpoint for_each {S A} (f : A → M S ()) (l : list A) : M S () :=
  match l with
  | [] => mret ()
  | x :: l' => f x ;; for_each f l'
  end.

Definition is_inactive (current_time : R) (player : Player.t) : bool :=
  bool_decide (Player.connection_status player = CONNECTED)
  && (if Rgt_dec (current_time - Player.last_active player) INACTIVE_TIMEOUT
      then true else false).

(** [uuid_of pid] is the identifier drawn for the delta about player [pid]. *)
Definition sweep_session (uuid_of : string → string) (current_time : R)
    : M Session.t () :=
  session ← get_state;
  for_each
    (λ '(pid, player),
       if is_inactive current_time player then
         update_player pid (Player.set_connection_status INACTIVE) ;;
         broadcast_player_update (uuid_of pid) current_time
           (Player.set_connection_status INACTIVE player) "update"
       else mret ())
    (map_to_list (Session.players session)).

Definition remove_empty_sessions : M TacticalServer () :=
  modify (λ sv, set_sessions
    (filter (λ kv, Session.players kv.2 ≠ ∅) (sessions sv)) sv).

Definition update_tick (uuid_of : string → string → string) (current_time : R)
    : M TacticalServer () :=
  sv ← get_state;
  for_each (λ '(sid, _), on_session sid (sweep_session (uuid_of sid) current_time))
    (map_to_list (sessions sv)) ;;
  remove_empty_sessions.

(** The player record [handle_auth] creates for a player assigned to team [tid]. *)
Definition joined (ws : WebSocket) (pid : string) (now : R) (callsign : string)
    (device_info : gmap string string) (tid : string) : Player.t :=
  Player.mk pid callsign (Some tid) CONNECTED now None device_info (Some ws).

(** ** Server runs *)

(** One atomic step of the server: a handler run to completion, together
    with the identifiers and the clock value it draws. *)
Inductive Event :=
| EvAuth (websocket : WebSocket)
    (uuid_session uuid_alpha uuid_bravo uuid_player uuid_delta : string)
    (now : R) (data : AuthData)
| EvMessage (uuid1 uuid2 : string) (now : R) (player_id session_id : string)
    (data : Request)
| EvDisconnect (uuid : string) (now : R) (player_id session_id : string)
| EvTick (uuid_of : string → string → string) (now : R).

Definition step (e : Event) : M TacticalServer () :=
  match e with
  | EvAuth ws us ua ub up ud now data =>
      handle_auth ws us ua ub up ud now data ;; mret ()
  | EvMessage u1 u2 now pid sid data => handle_message u1 u2 now pid sid data
  | EvDisconnect u now pid sid => handle_disconnect u now pid sid
  | EvTick uuid_of now => update_tick uuid_of now
  end.

(** No session of the server has a player registered under [pid]. *)
Definition unknown_player (sv : TacticalServer) (pid : string) : Prop :=
  map_Forall (λ _ s, Session.players s !! pid = None) (sessions sv).

(** What [uuid4] guarantees: the identifiers drawn by an authentication are
    new, non-empty and distinct. *)
Definition fresh_ids (sv : TacticalServer) (e : Event) : Prop :=
  match e with
  | EvAuth _ us ua ub up _ _ data =>
      unknown_player sv up
      ∧ (auth_is_host data = true →
         sessions sv !! us = None ∧ ua ≠ ub ∧ ua ≠ "" ∧ ub ≠ "")
  | _ => True
  end.

Inductive reachable : TacticalServer → Prop :=
| reachable_init : reachable empty_server
| reachable_step sv e : reachable sv → fresh_ids sv e → reachable (state (step e sv)).

(** ** Broadcast sequences *)

(** The sequence number a sent message carries, if it is a state delta. *)
Definition carried (m : Send) : option Z :=
  match payload m with
  | STATE_DELTA d => Some (StateDelta.sequence_number d)
  | _ => None
  end.

(** ** Relations between the states before and after a handler *)

Definition preserves {S A} (Rel : relation S) (m : M S A) : Prop :=
  ∀ s, Rel s (state (m s)).

Definition seq_le : relation Session.t :=
  λ s s', (Session.sequence_number s ≤ Session.sequence_number s')%Z.

(** Every registered session stays registered and its counter does not decrease. *)
Definition sessions_seq_le : relation TacticalServer :=
  λ sv sv', ∀ sid s, sessions sv !! sid = Some s →
    ∃ s', sessions sv' !! sid = Some s' ∧ seq_le s s'.


(** Two sessions with the same registered player ids. *)
Definition same_roster : relation Session.t :=
  λ s s', dom (Session.players s') = dom (Session.players s).

(** The same sessions are registered, each with the same player ids. *)
Definition same_rosters : relation TacticalServer :=
  λ sv sv', ∀ sid,
    (λ s, dom (Session.players s)) <$> sessions sv' !! sid =
    (λ s, dom (Session.players s)) <$> sessions sv !! sid.

(** ** Team membership *)

(** Membership is recorded on both sides: a player's [team_id] names a team
    of the session that lists the player, every id a team lists is a player
    of the session whose [team_id] is that team, and no team is stored under
    the empty id. *)
Definition membership_consistent (s : Session.t) : Prop :=
  odict.get "" (Session.teams s) = None
  ∧ (∀ pid p t,
       Session.players s !! pid = Some p → Player.team_id p = Some t →
       ∃ team, odict.get t (Session.teams s) = Some team ∧ pid ∈ Team.players team)
  ∧ (∀ t team pid,
       odict.get t (Session.teams s) = Some team → pid ∈ Team.players team →
       ∃ p, Session.players s !! pid = Some p ∧ Player.team_id p = Some t).

Definition server_consistent (sv : TacticalServer) : Prop :=
  map_Forall (λ _ s, membership_consistent s) (sessions sv).

(** The invariant as the specification states it: a player with a team
    references an existing team that lists it, and no other team does. *)
Definition team_membership_ok (s : Session.t) : Prop :=
  ∀ pid p t,
    Session.players s !! pid = Some p → Player.team_id p = Some t →
    ∃ team, odict.get t (Session.teams s) = Some team
            ∧ pid ∈ Team.players team
            ∧ ∀ t' team', odict.get t' (Session.teams s) = Some team' →
                          pid ∈ Team.players team' → t' = t.

(** Two sessions with the same member sets and the same team references. *)
Definition same_membership : relation Session.t :=
  λ s s',
    (∀ t, Team.players <$> odict.get t (Session.teams s') =
          Team.players <$> odict.get t (Session.teams s))
    ∧ (∀ pid, Player.team_id <$> Session.players s' !! pid =
              Player.team_id <$> Session.players s !! pid).

(** A handler step under which a consistent server stays consistent. *)
Definition keeps_consistent : relation TacticalServer :=
  λ sv sv', server_consistent sv → server_consistent sv'.

(** ** A concrete run

    A host opens a session, a second player joins, the host places a
    team-visible marker, moves itself to the other team and then edits the
    marker. *)

Definition ex_host_auth : Event :=
  EvAuth 1 "s1" "alpha" "bravo" "p1" "d1" 0%R (mk_auth "Host" "" true ∅).

Definition ex_join_auth : Event :=
  EvAuth 2 "" "" "" "p2" "d2" 0%R (mk_auth " Joiner " "s1" false ∅).

Definition ex_marker_create : Event :=
  EvMessage "m1" "d3" 0%R "p1" "s1"
    (MARKER (MarkerCreate
       (mk_marker_data PIN (Some TEAM)
          (Position.mk_kwargs 0%float 0%float None None None None) None))).

Definition ex_reassign : Event :=
  EvMessage "d4" "" 0%R "p1" "s1" (TEAM_UPDATE (AssignPlayer "p1" "bravo")).

Definition ex_marker_update : Event :=
  EvMessage "" "d5" 0%R "p1" "s1"
    (MARKER (MarkerUpdate "m1" (Some (Some {["label" := AStr "ambush"]})))).

Definition run (events : list Event) (sv : TacticalServer) : TacticalServer :=
  foldl (λ sv e, state (step e sv)) sv events.

Definition ex_sv1 : TacticalServer := run [ex_host_auth] empty_server.
Definition ex_sv2 : TacticalServer := run [ex_join_auth] ex_sv1.
Definition ex_sv3 : TacticalServer := run [ex_marker_create] ex_sv2.
Definition ex_sv4 : TacticalServer := run [ex_reassign] ex_sv3.

(** The entities a sent message reports on: operation, kind and identifier
    of every change of a state delta. *)
Definition reported (m : Send) : list (string * string * string) :=
  match payload m with
  | STATE_DELTA d =>
      (λ c, (StateDelta.type c, StateDelta.entity_type c, StateDelta.entity_id c))
        <$> StateDelta.changes d
  | _ => []
  end.

(** The session of the run after each of its first two steps. *)
Definition ex_session1 : Session.t :=
  default (Session.new "" 0%R) (sessions ex_sv1 !! "s1").
Definition ex_session2 : Session.t :=
  default (Session.new "" 0%R) (sessions ex_sv2 !! "s1").

(** The host as stored after its authentication. *)
Definition ex_host : Player.t :=
  default (Player.mk "" "" None DISCONNECTED 0%R None ∅ None)
    (Session.players ex_session1 !! "p1").

(** *** Walking two metres

    From (0, 0) to (0, 1.798643211837461e-05): the distance computed in
    double arithmetic is exactly 2.0. *)

Definition boundary_longitude : float := 0x1.2dc32341a0960p-16%float.

Definition ex_first_fix : Event :=
  EvMessage "d3" "" 0%R "p1" "s1"
    (POSITION_UPDATE (Position.mk_kwargs 0%float 0%float None None None None)).

Definition ex_second_fix : Position.kwargs :=
  Position.mk_kwargs 0%float boundary_longitude None None None None.

Definition ex_sv_walk : TacticalServer := run [ex_first_fix] ex_sv1.

Definition ex_walk_session : Session.t :=
  default (Session.new "" 0%R) (sessions ex_sv_walk !! "s1").

Definition ex_walker : Player.t :=
  default (Player.mk "" "" None DISCONNECTED 0%R None ∅ None)
    (Session.players ex_walk_session !! "p1").

(** *** A busy chat

    The host says one thing to everybody, after which the second player,
    on team Bravo, posts fifty messages to its own team. *)

Definition ex_chat_all : Event :=
  EvMessage "c0" "e0" 0%R "p1" "s1" (CHAT (mk_chat "hello" (Some ALL) None)).

Definition ex_chat_bravo : Event :=
  EvMessage "c1" "e1" 0%R "p2" "s1" (CHAT (mk_chat "bravo only" None None)).

Definition ex_sv_chat : TacticalServer :=
  run (ex_chat_all :: replicate 50 ex_chat_bravo) ex_sv2.

Definition ex_chat_session : Session.t :=
  default (Session.new "" 0%R) (sessions ex_sv_chat !! "s1").

(** The message part of a snapshot as the specification words it: the [n]
    most recent of the events visible to the viewer's team. *)
Definition most_recent_visible (n : nat) (session : Session.t)
    (team_id : option string) : list Message.t :=
  last_n n
    (filter (λ m, visible_to Message.visibility Message.team_id team_id m = true)
       (Session.messages session)).

(** *** A burst of alerts: the host raises 101 alerts in a row. *)

Definition ex_alert : Event :=
  EvMessage "a" "e" 0%R "p1" "s1" (ALERT (mk_alert CONTACT None (Some ALL))).

Definition ex_sv_alerts : TacticalServer := run (replicate 101 ex_alert) ex_sv1.

Definition ex_alert_session : Session.t :=
  default (Session.new "" 0%R) (sessions ex_sv_alerts !! "s1").

(** The session and the second player once the host has placed its marker. *)
Definition ex_session3 : Session.t :=
  default (Session.new "" 0%R) (sessions ex_sv3 !! "s1").
Definition ex_joiner : Player.t :=
  default (Player.mk "" "" None DISCONNECTED 0%R None ∅ None)
    (Session.players ex_session3 !! "p2").

(** ** The per-connection protocol ([handle_connection]) *)

(** One inbound websocket message: an [auth] message, a [ping], any other
    well-formed message, or text that is not JSON. *)
Inductive Frame :=
| FrameAuth (data : AuthData)
| FramePing
| FrameRequest (data : Request)
| FrameInvalid.

(** The local variables [player_id] and [session_id] of [handle_connection]. *)
Record Connection := mk_connection {
  conn_player_id : option string;
  conn_session_id : option string
}.

Definition unauthenticated : Connection := mk_connection None None.


(** [str(e)] *)
Definition Exn_str (e : Exn) : string :=
  match e with
  | KeyError (Some key) => "'" +:+ key +:+ "'"
  | KeyError None => "None"
  | ValueError message => message
  | OverflowError message => message
  end.

(** [try: m  except Exception as e: handler e]; what [m] changed and sent
    before it raised stays. *)
Definition try_except {S A} (m : M S A) (handler : Exn → M S A) : M S A :=
  λ s,
    let r := m s in
    match result r with
    | inl e =>
        let r' := handler e (state r) in
        mk_outcome (state r') (sent r ++ sent r')%list (result r')
    | inr _ => r
    end.

(** The dispatch on the message type inside the [try] block; [uuid k] is the
    [k]-th identifier drawn while the message is handled.  The result is the
    new value of the local variables. *)
Definition dispatch (websocket : WebSocket) (uuid : nat → string) (now : R)
    (frame : Frame) (conn : Connection) : M TacticalServer Connection :=
  match frame with
  | FrameAuth data =>
      ids ← handle_auth websocket (uuid 0%nat) (uuid 1%nat) (uuid 2%nat)
              (uuid 3%nat) (uuid 4%nat) now data ;
      mret (mk_connection ids.1 ids.2)
  | FramePing => send_all [mk_send websocket PONG] ;; mret conn
  | FrameRequest data =>
      match truthy (conn_player_id conn), truthy (conn_session_id conn) with
      | Some player_id, Some session_id =>
          handle_message (uuid 0%nat) (uuid 1%nat) now player_id session_id data ;;
          mret conn
      | _, _ => send_error websocket "Not authenticated" ;; mret conn
      end
  | FrameInvalid => mret conn
  end.

(** The body of the receive loop for one message: text that does not parse
    is answered with an error, any exception of a handler is reported to the
    sender. *)
Definition handle_frame (websocket : WebSocket) (uuid : nat → string) (now : R)
    (frame : Frame) (conn : Connection) : M TacticalServer Connection :=
  match frame with
  | FrameInvalid => send_error websocket "Invalid JSON" ;; mret conn
  | _ =>
      try_except (dispatch websocket uuid now frame conn)
        (λ e, send_error websocket (Exn_str e) ;; mret conn)
  end.

(** The [finally] clause, run when the connection closes. *)
Definition handle_close (uuid : string) (now : R) (conn : Connection)
    : M TacticalServer () :=
  match truthy (conn_player_id conn), truthy (conn_session_id conn) with
  | Some player_id, Some session_id => handle_disconnect uuid now player_id session_id
  | _, _ => mret ()
  end.

(** The messages of a connection, each with the identifiers and the clock
    value drawn while it is handled. *)
Fixpoint receive (websocket : WebSocket) (frames : list (Frame * (nat → string) * R))
    (conn : Connection) : M TacticalServer Connection :=
  match frames with
  | [] => mret conn
  | (frame, uuid, now) :: frames' =>
      conn' ← handle_frame websocket uuid now frame conn ;
      receive websocket frames' conn'
  end.

Definition handle_connection (websocket : WebSocket)
    (frames : list (Frame * (nat → string) * R)) (uuid : string) (now : R)
    : M TacticalServer () :=
  conn ← receive websocket frames unauthenticated ;
  handle_close uuid now conn.

(** The identifiers drawn while the second player of the example run
    authenticates: the player's and the join delta's. *)
Definition ex_join_uuid (k : nat) : string :=
  match k with
  | 3%nat => "p2"
  | 4%nat => "d2"
  | _ => ""
  end.

Definition ex_join_data : AuthData := mk_auth " Joiner " "s1" false ∅.
Definition ex_blank_data : AuthData := mk_auth "   " "s1" false ∅.




(** ** What a run of the server never undoes *)

(** A later record of the same player: identity, callsign and device are
    the same, a player that is not connected has not become connected again
    and a closed connection has not been reopened. *)
Definition player_kept : relation Player.t :=
  λ p p',
    Player.player_id p' = Player.player_id p
    ∧ Player.callsign p' = Player.callsign p
    ∧ Player.device_info p' = Player.device_info p
    ∧ (Player.connection_status p ≠ CONNECTED →
       Player.connection_status p' ≠ CONNECTED)
    ∧ (Player.websocket p = None → Player.websocket p' = None).

(** A later state of the same session: same id, host and team ids, and
    every player still there. *)
Definition session_kept : relation Session.t :=
  λ s s',
    Session.session_id s' = Session.session_id s
    ∧ Session.host_id s' = Session.host_id s
    ∧ odict.keys (Session.teams s') = odict.keys (Session.teams s)
    ∧ ∀ pid p, Session.players s !! pid = Some p →
        ∃ p', Session.players s' !! pid = Some p' ∧ player_kept p p'.

(** Every session that has a player is still registered, as a later state
    of itself. *)
Definition sessions_kept : relation TacticalServer :=
  λ sv sv', ∀ sid s,
    sessions sv !! sid = Some s → Session.players s ≠ ∅ →
    ∃ s', sessions sv' !! sid = Some s' ∧ session_kept s s'.

(** A session is registered under its own id and its host is one of its
    players. *)
Definition hosted (sid : string) (s : Session.t) : Prop :=
  Session.session_id s = sid
  ∧ ∃ h, Session.host_id s = Some h ∧ is_Some (Session.players s !! h).

Definition well_hosted (sv : TacticalServer) : Prop :=
  map_Forall hosted (sessions sv).

Definition keeps_hosted : relation TacticalServer :=
  λ sv sv', well_hosted sv → well_hosted sv'.

(** The servers a run that starts in [sv] passes through. *)
Inductive reaches (sv : TacticalServer) : TacticalServer → Prop :=
| reaches_refl : reaches sv sv
| reaches_step sv' e :
    reaches sv sv' → fresh_ids sv' e → reaches sv (state (step e sv')).

(** Two sessions with the same player map. *)
Definition same_players : relation Session.t :=
  λ s s', Session.players s' = Session.players s.

(** ** Team sizes *)

(** No team of the session has two members more than another. *)
Definition balanced (s : Session.t) : Prop :=
  ∀ t t', t ∈ odict.keys (Session.teams s) → t' ∈ odict.keys (Session.teams s) →
    (team_count s t ≤ team_count s t' + 1)%nat.

Definition keeps_balanced : relation TacticalServer :=
  λ sv sv', map_Forall (λ _ s, balanced s) (sessions sv) →
            map_Forall (λ _ s, balanced s) (sessions sv').

(** The events other than a team update. *)
Definition no_reassignment (e : Event) : Prop :=
  match e with
  | EvMessage _ _ _ _ _ (TEAM_UPDATE _) => False
  | _ => True
  end.

(** The servers that runs of events satisfying [P] produce. *)
Inductive reachable_by (P : Event → Prop) : TacticalServer → Prop :=
| reachable_by_init : reachable_by P empty_server
| reachable_by_step sv e :
    reachable_by P sv → fresh_ids sv e → P e → reachable_by P (state (step e sv)).

(** ** Counting broadcasts *)

(** [delta_calls s out s' n]: from session [s] a handler reaches [s'] and
    sends [out] through exactly [n] calls of [broadcast_delta]; between the
    calls it may change anything but the counter and may send messages that
    are no state deltas. *)
Inductive delta_calls : Session.t → list Send → Session.t → nat → Prop :=
| delta_calls_done s : delta_calls s [] s 0
| delta_calls_update s s1 out s' n :
    Session.sequence_number s1 = Session.sequence_number s →
    delta_calls s1 out s' n →
    delta_calls s out s' n
| delta_calls_send s m out s' n :
    carried m = None →
    delta_calls s out s' n →
    delta_calls s (m :: out) s' n
| delta_calls_broadcast s uuid now delta team_id out s' n :
    delta_calls (state (broadcast_delta uuid now delta team_id s)) out s' n →
    delta_calls s (sent (broadcast_delta uuid now delta team_id s) ++ out) s' (S n).

(** [lens !! i] copies of [k + 1 + i], for [i = 0, 1, ...] in this order. *)
Fixpoint numbered_blocks (k : Z) (lens : list nat) : list Z :=
  match lens with
  | [] => []
  | len :: lens' => replicate len (k + 1)%Z ++ numbered_blocks (k + 1) lens'
  end.

(** [tid in session.teams] for an optional key. *)
Definition team_known (session : Session.t) (tid : option string) : bool :=
  match tid with
  | Some t => bool_decide (is_Some (odict.get t (Session.teams session)))
  | None => false
  end.

(** The number of times the handler of a request from [player], stored
    under [player_id], reaches its call of [broadcast_delta]. *)
Definition request_calls (now : R) (player_id : string) (player : Player.t)
    (session : Session.t) (data : Request) : nat :=
  match data with
  | POSITION_UPDATE d =>
      let new_position :=
        Position.mk (Position.kw_latitude d) (Position.kw_longitude d)
          (default 0%float (Position.kw_heading d))
          (default 0%float (Position.kw_accuracy d))
          (default 0%float (Position.kw_elevation d)) now in
      match accepts_position player new_position with
      | inr true => 1
      | _ => 0
      end
  | CHAT _ | ALERT _ => 1
  | MARKER (MarkerCreate _) =>
      if team_known session (Player.team_id player) then 1 else 0
  | MARKER (MarkerUpdate marker_id marker_data) =>
      match Session.markers session !! marker_id, marker_data with
      | Some marker, Some _ =>
          if decide (Marker.created_by marker = Player.player_id player) then 1 else 0
      | _, _ => 0
      end
  | MARKER (MarkerDelete marker_id) =>
      match Session.markers session !! marker_id with
      | Some marker =>
          if decide (Marker.created_by marker = Player.player_id player)
          then if team_known session (Marker.team_id marker) then 1 else 0
          else 0
      | None => 0
      end
  | TEAM_UPDATE (AssignPlayer target new_team_id) =>
      if decide (Some player_id = Session.host_id session) then
        match Session.players session !! target with
        | Some moved =>
            if team_known session (Some new_team_id) then
              match truthy (Player.team_id moved) with
              | Some old => if team_known session (Some old) then 1 else 0
              | None => 1
              end
            else 0
        | None => 0
        end
      else 0
  | _ => 0
  end.

(** The players a sweep at [current_time] flags as inactive. *)
Definition flagged (current_time : R) (session : Session.t) : list (string * Player.t) :=
  filter (λ kv, is_inactive current_time kv.2 = true) (map_to_list (Session.players session)).

(** *** The host leaves before the second player joins *)

Definition ex_host_leaves : Event := EvDisconnect "d2" 0%R "p1" "s1".

Definition ex_late_join : Event :=
  EvAuth 2 "" "" "" "p2" "d3" 0%R (mk_auth "Joiner" "s1" false ∅).

(** Everything a run sends, in order. *)
Fixpoint run_sent (events : list Event) (sv : TacticalServer) : list Send :=
  match events with
  | [] => []
  | e :: events' => sent (step e sv) ++ run_sent events' (state (step e sv))
  end.

Definition ex_gap_run : list Event := [ex_host_auth; ex_host_leaves; ex_late_join].
(* ================================================================= *)
(** * Verification *)

(** ** Reasoning about handlers *)

Section preserves.
Context {S : Type} (Rel : relation S) `{!PreOrder Rel}.

Lemma preserves_ret {A} (a : A) : preserves Rel (mret a).
Proof. intros s. reflexivity. Qed.

Lemma preserves_bind {A B} (m : M S A) (f : A → M S B) :
  preserves Rel m → (∀ a, preserves Rel (f a)) → preserves Rel (m ≫= f).
Proof.
  intros Hm Hf s. unfold mbind, M_bind. specialize (Hm s).
  destruct (result (m s)) as [e|a]; simpl; [done|].
  etrans; [exact Hm|apply Hf].
Qed.

Lemma preserves_get : preserves Rel get_state.
Proof. intros s. reflexivity. Qed.

Lemma preserves_modify (f : S → S) : (∀ s, Rel s (f s)) → preserves Rel (modify f).
Proof. intros Hf s. apply Hf. Qed.

Lemma preserves_send_all l : preserves Rel (send_all l).
Proof. intros s. reflexivity. Qed.

Lemma preserves_raise {A} e : preserves Rel (raise (A:=A) e).
Proof. intros s. reflexivity. Qed.

Lemma preserves_for_each {A} (f : A → M S ()) l :
  (∀ x, preserves Rel (f x)) → preserves Rel (for_each f l).
Proof.
  intros Hf. induction l as [|x l IH]; simpl.
  - apply preserves_ret.
  - apply preserves_bind; [apply Hf|intros _; exact IH].
Qed.
End preserves.

Ltac preserves_step :=
  lazymatch goal with
  | |- preserves _ (mret _) => solve [apply preserves_ret; tc_solve]
  | |- preserves _ get_state => solve [apply preserves_get; tc_solve]
  | |- preserves _ (send_all _) => solve [apply preserves_send_all; tc_solve]
  | |- preserves _ (send_error _ _) => solve [apply preserves_send_all; tc_solve]
  | |- preserves _ (raise _) => solve [apply preserves_raise; tc_solve]
  | |- preserves _ (_ ≫= _) => refine (preserves_bind _ _ _ _ _); [|intros ?]
  | |- preserves _ (for_each _ _) => refine (preserves_for_each _ _ _ _); intros ?
  | |- preserves _ (match ?x with _ => _ end) => destruct x eqn:?
  end.

#[local] Instance seq_le_preorder : PreOrder seq_le.
Proof. split; unfold seq_le; [intros ?; lia | intros ? ? ? ? ?; lia]. Qed.

#[local] Instance sessions_seq_le_preorder : PreOrder sessions_seq_le.
Proof.
  split.
  - intros sv sid s Hs. exists s. split; [done|reflexivity].
  - intros a b c Hab Hbc sid s Hs.
    destruct (Hab _ _ Hs) as (s1 & H1 & Hle1).
    destruct (Hbc _ _ H1) as (s2 & H2 & Hle2).
    exists s2. split; [done|]. by etrans.
Qed.

Ltac seq_le_modify :=
  apply preserves_modify; intros ?; unfold seq_le; try case_match; simpl; lia.

Lemma broadcast_delta_seq_le uuid now delta tid :
  preserves seq_le (broadcast_delta uuid now delta tid).
Proof. intros s. unfold seq_le. simpl. lia. Qed.

Lemma broadcast_player_update_seq_le uuid now p ct :
  preserves seq_le (broadcast_player_update uuid now p ct).
Proof. apply broadcast_delta_seq_le. Qed.

Lemma broadcast_by_visibility_seq_le uuid now delta v p :
  preserves seq_le (broadcast_by_visibility uuid now delta v p).
Proof. unfold broadcast_by_visibility. case_decide; apply broadcast_delta_seq_le. Qed.

Lemma update_player_seq_le pid f : preserves seq_le (update_player pid f).
Proof. intros s. unfold seq_le. simpl. lia. Qed.

Lemma update_team_seq_le tid f : preserves seq_le (update_team tid f).
Proof. unfold update_team. repeat preserves_step. seq_le_modify. Qed.

Ltac seq_le_step :=
  lazymatch goal with
  | |- preserves _ (broadcast_delta _ _ _ _) => apply broadcast_delta_seq_le
  | |- preserves _ (broadcast_player_update _ _ _ _) => apply broadcast_player_update_seq_le
  | |- preserves _ (broadcast_by_visibility _ _ _ _ _) => apply broadcast_by_visibility_seq_le
  | |- preserves _ (update_player _ _) => apply update_player_seq_le
  | |- preserves _ (update_team _ _) => apply update_team_seq_le
  | |- preserves _ (modify _) => seq_le_modify
  | |- preserves _ (let _ := _ in _) => cbv zeta
  | |- _ => preserves_step
  end.

Ltac seq_le_auto := repeat seq_le_step.

Lemma handle_position_update_seq_le u now pid p d :
  preserves seq_le (handle_position_update u now pid p d).
Proof. unfold handle_position_update. seq_le_auto. Qed.

Lemma handle_chat_seq_le u1 u2 now p d : preserves seq_le (handle_chat u1 u2 now p d).
Proof. unfold handle_chat. seq_le_auto. Qed.

Lemma handle_alert_seq_le u1 u2 now p d : preserves seq_le (handle_alert u1 u2 now p d).
Proof. unfold handle_alert. seq_le_auto. Qed.

Lemma handle_marker_seq_le u1 u2 now p d : preserves seq_le (handle_marker u1 u2 now p d).
Proof. unfold handle_marker. seq_le_auto. Qed.

Lemma handle_team_update_seq_le u now d : preserves seq_le (handle_team_update u now d).
Proof. unfold handle_team_update. seq_le_auto. Qed.

Lemma join_session_seq_le ws pid now c h d :
  preserves seq_le (join_session ws pid now c h d).
Proof. unfold join_session. seq_le_auto. Qed.

Lemma send_auth_response_seq_le p : preserves seq_le (send_auth_response p).
Proof. unfold send_auth_response. seq_le_auto. Qed.

Lemma sweep_session_seq_le uuid_of now : preserves seq_le (sweep_session uuid_of now).
Proof. unfold sweep_session. seq_le_auto. Qed.

(** *** The counter in server steps *)

Lemma on_session_seq_le {A} sid (m : M Session.t A) :
  preserves seq_le m → preserves sessions_seq_le (on_session sid m).
Proof.
  intros Hm sv. unfold on_session.
  destruct (sessions sv !! sid) as [session|] eqn:Hsid; simpl; [|reflexivity].
  intros sid' s Hs. destruct (decide (sid = sid')) as [<-|Hne].
  - exists (state (m session)). simpl. rewrite lookup_insert_eq. split; [done|].
    assert (s = session) as -> by congruence. apply Hm.
  - exists s. simpl. rewrite lookup_insert_ne by done. split; [done|reflexivity].
Qed.

Lemma set_player_connections_seq_le f :
  preserves sessions_seq_le (modify (λ sv, set_player_connections (f sv) sv)).
Proof. apply preserves_modify. intros sv sid s Hs. exists s. split; [done|reflexivity]. Qed.

Ltac server_seq_le_step :=
  lazymatch goal with
  | |- preserves _ (on_session _ _) => apply on_session_seq_le
  | |- preserves _ (modify (λ sv, set_player_connections _ sv)) =>
      apply set_player_connections_seq_le
  | |- preserves sessions_seq_le (if _ then _ else _) => case_match
  | |- preserves seq_le (handle_position_update _ _ _ _ _) =>
      apply handle_position_update_seq_le
  | |- preserves seq_le (handle_chat _ _ _ _ _) => apply handle_chat_seq_le
  | |- preserves seq_le (handle_alert _ _ _ _ _) => apply handle_alert_seq_le
  | |- preserves seq_le (handle_marker _ _ _ _ _) => apply handle_marker_seq_le
  | |- preserves seq_le (handle_team_update _ _ _) => apply handle_team_update_seq_le
  | |- preserves seq_le (join_session _ _ _ _ _ _) => apply join_session_seq_le
  | |- preserves seq_le (send_auth_response _) => apply send_auth_response_seq_le
  | |- preserves seq_le (sweep_session _ _) => apply sweep_session_seq_le
  | |- preserves (let _ := _ in _) => cbv zeta
  | |- preserves seq_le _ => seq_le_step
  | |- _ => preserves_step
  end.

Lemma handle_message_seq_le u1 u2 now pid sid d :
  preserves sessions_seq_le (handle_message u1 u2 now pid sid d).
Proof. unfold handle_message. repeat server_seq_le_step. Qed.

Lemma handle_disconnect_seq_le u now pid sid :
  preserves sessions_seq_le (handle_disconnect u now pid sid).
Proof. unfold handle_disconnect. repeat server_seq_le_step. Qed.

Lemma register_session_seq_le sid session sv :
  sessions sv !! sid = None →
  sessions_seq_le sv (set_sessions (<[sid := session]> (sessions sv)) sv).
Proof.
  intros Hnone sid' s Hs. exists s. split; [|reflexivity].
  simpl. rewrite lookup_insert_ne; [done|]. intros ->. congruence.
Qed.

Lemma run_get {S A} (k : S → M S A) s : (get_state ≫= k) s = k s s.
Proof. unfold mbind, M_bind, get_state. simpl. by destruct (k s s). Qed.

Lemma run_modify {S A} (f : S → S) (k : () → M S A) s : (modify f ≫= k) s = k () (f s).
Proof. unfold mbind, M_bind, modify. simpl. by destruct (k () (f s)). Qed.

Lemma preserves_apply {S A} (Rel : relation S) (m : M S A) s :
  preserves Rel m → Rel s (state (m s)).
Proof. intros H. apply H. Qed.

Lemma handle_auth_seq_le ws us ua ub up ud now data sv :
  fresh_ids sv (EvAuth ws us ua ub up ud now data) →
  sessions_seq_le sv (state (handle_auth ws us ua ub up ud now data sv)).
Proof.
  intros [_ Hfresh]. unfold handle_auth.
  case_decide; [reflexivity|].
  rewrite run_get.
  destruct (auth_is_host data) eqn:Hhost; cbn [negb andb].
  - destruct (Hfresh eq_refl) as (Hnone & _).
    rewrite run_modify.
    etrans; [apply (register_session_seq_le us), Hnone|].
    apply preserves_apply. repeat server_seq_le_step.
  - case_match; [reflexivity|].
    apply preserves_apply. repeat server_seq_le_step.
Qed.

Lemma state_bind_ret {S A} (m : M S A) s : state ((m ;; mret ()) s) = state (m s).
Proof. unfold mbind, M_bind. by destruct (result (m s)). Qed.

Lemma remove_empty_sessions_lookup {A} (m : M TacticalServer A) sv sid s' :
  sessions (state ((m ;; remove_empty_sessions) sv)) !! sid = Some s' →
  sessions (state (m sv)) !! sid = Some s'.
Proof.
  unfold mbind, M_bind. destruct (result (m sv)); simpl; [done|].
  intros H. by apply map_lookup_filter_Some in H as [H _].
Qed.

Lemma step_seq_le e sv sid s s' :
  fresh_ids sv e →
  sessions sv !! sid = Some s →
  sessions (state (step e sv)) !! sid = Some s' →
  seq_le s s'.
Proof.
  intros Hfresh Hs Hs'.
  assert (∀ sv', sessions_seq_le sv sv' → sessions sv' !! sid = Some s' → seq_le s s')
    as Hfin.
  { intros sv' Hle H'. destruct (Hle _ _ Hs) as (s1 & H1 & Hle1). congruence. }
  destruct e as [ws us ua ub up ud now data|u1 u2 now pid sid' d|u now pid sid'|uuid_of now];
    cbn [step] in Hs'.
  - rewrite state_bind_ret in Hs'. eapply Hfin; [|done]. by apply handle_auth_seq_le.
  - eapply Hfin; [|done]. apply handle_message_seq_le.
  - eapply Hfin; [|done]. apply handle_disconnect_seq_le.
  - unfold update_tick in Hs'. rewrite run_get in Hs'.
    apply remove_empty_sessions_lookup in Hs'.
    eapply Hfin; [|done]. apply preserves_apply.
    refine (preserves_for_each _ _ _ _). intros [sid0 ?].
    apply on_session_seq_le, sweep_session_seq_le.
Qed.

(** *** Consecutive broadcasts *)

Lemma broadcast_delta_run uuid now delta team_id s :
  broadcast_delta uuid now delta team_id s =
  mk_outcome (Session.set_sequence_number (Session.sequence_number s + 1)%Z s)
    (recipients s team_id ≫=
       deliver (STATE_DELTA (StateDelta.to_dict uuid now delta (Session.session_id s)
                               (Session.sequence_number s + 1)%Z)))
    (inr ()).
Proof. reflexivity. Qed.

Lemma broadcast_delta_carried uuid now delta team_id s m :
  m ∈ sent (broadcast_delta uuid now delta team_id s) →
  carried m = Some (Session.sequence_number s + 1)%Z.
Proof.
  rewrite broadcast_delta_run. simpl.
  intros (p & Hm & _)%list_elem_of_bind. unfold deliver in Hm.
  destruct (Player.websocket p); [|by apply elem_of_nil in Hm].
  by apply list_elem_of_singleton in Hm as ->.
Qed.

(** ** The example run is a run of the server *)

Lemma unknown_player_by_computation sv pid :
  bool_decide (unknown_player sv pid) = true → unknown_player sv pid.
Proof. apply bool_decide_eq_true_1. Qed.

Lemma ex_sv1_reachable : reachable ex_sv1.
Proof.
  apply (reachable_step empty_server ex_host_auth); [apply reachable_init|].
  split; [by apply unknown_player_by_computation|].
  intros _. by vm_compute.
Qed.

Lemma ex_sv2_reachable : reachable ex_sv2.
Proof.
  apply (reachable_step ex_sv1 ex_join_auth); [apply ex_sv1_reachable|].
  split; [by apply unknown_player_by_computation|].
  intros Hhost. discriminate Hhost.
Qed.

Lemma ex_sv3_reachable : reachable ex_sv3.
Proof. apply (reachable_step ex_sv2 ex_marker_create); [apply ex_sv2_reachable|exact I]. Qed.

Lemma ex_sv4_reachable : reachable ex_sv4.
Proof. apply (reachable_step ex_sv3 ex_reassign); [apply ex_sv3_reachable|exact I]. Qed.

Lemma ex_sv1_fresh_join : fresh_ids ex_sv1 ex_join_auth.
Proof.
  split; [by apply unknown_player_by_computation|].
  intros Hhost. discriminate Hhost.
Qed.

(** ** Recipients of a broadcast *)

Lemma live_spec p :
  live p = true ↔
  Player.connection_status p = CONNECTED ∧ is_Some (Player.websocket p).
Proof.
  unfold live. rewrite andb_true_iff, !bool_decide_eq_true. tauto.
Qed.

Lemma truthy_Some o t : truthy o = Some t ↔ o = Some t ∧ t ≠ "".
Proof.
  unfold truthy. destruct o as [s|]; [|by split; [|intros []]].
  case_decide; split; [done|intros [[= ->] ?]; done|by intros [= ->]|by intros [[= ->] _]].
Qed.

(** Scope "team [tid]": the connected members of the team that hold a live
    connection handle. *)
Lemma recipients_team session tid team p :
  tid ≠ "" →
  odict.get tid (Session.teams session) = Some team →
  p ∈ recipients session (Some tid) ↔
  ∃ pid, pid ∈ Team.players team
         ∧ Session.players session !! pid = Some p
         ∧ Player.connection_status p = CONNECTED
         ∧ is_Some (Player.websocket p).
Proof.
  intros Hne Hteam. unfold recipients, target_players.
  assert (truthy (Some tid) = Some tid) as -> by by apply truthy_Some.
  rewrite Hteam. simpl.
  rewrite list_elem_of_filter, live_spec, list_elem_of_omap.
  setoid_rewrite elem_of_elements.
  split.
  - intros (Hlive & pid & Hin & Hp). exists pid. tauto.
  - intros (pid & Hin & Hp & Hlive). split; [tauto|]. by exists pid.
Qed.

(** A team that does not exist has no recipients. *)
Lemma recipients_unknown_team session tid :
  odict.get tid (Session.teams session) = None →
  recipients session (Some tid) = [] ∨ tid = "".
Proof.
  intros Hteam. unfold recipients, target_players, truthy.
  case_decide; [by right|left]. by rewrite Hteam.
Qed.

(** Scope "all": the connected players of the session. *)
Lemma recipients_all session p :
  p ∈ recipients session None ↔
  ∃ pid, Session.players session !! pid = Some p
         ∧ Player.connection_status p = CONNECTED
         ∧ is_Some (Player.websocket p).
Proof.
  unfold recipients, target_players. simpl.
  rewrite list_elem_of_filter, live_spec, list_elem_of_fmap.
  split.
  - intros (Hlive & [pid p'] & -> & Hin). apply elem_of_map_to_list in Hin.
    exists pid. tauto.
  - intros (pid & Hp & Hlive). split; [tauto|].
    exists (pid, p). split; [done|]. by apply elem_of_map_to_list.
Qed.

(** What is sent: one message per recipient, on the recipient's connection. *)
Lemma broadcast_delta_sent uuid now delta team_id session m :
  m ∈ sent (broadcast_delta uuid now delta team_id session) ↔
  ∃ p, p ∈ recipients session team_id
       ∧ Player.websocket p = Some (to m)
       ∧ payload m =
           STATE_DELTA (StateDelta.to_dict uuid now delta (Session.session_id session)
                          (Session.sequence_number session + 1)%Z).
Proof.
  rewrite broadcast_delta_run. simpl. rewrite list_elem_of_bind.
  split.
  - intros (p & Hm & Hp). exists p. split; [done|]. unfold deliver in Hm.
    destruct (Player.websocket p); [|by apply elem_of_nil in Hm].
    by apply list_elem_of_singleton in Hm as ->.
  - intros (p & Hp & Hws & Hpay). exists p. split; [|done].
    unfold deliver. rewrite Hws. apply list_elem_of_singleton.
    destruct m as [w pl]. simpl in *. by subst.
Qed.

(** *** A run in which a team-private marker leaves its team *)

(** C2 (defect in [handle_marker]).  The recipient sets of [broadcast_delta]
    are as claimed ([recipients_team], [recipients_all]), but the update of a
    marker is broadcast to the editing player's current team, not to the
    team that owns the marker: after the host moved from Alpha to Bravo, the
    update of its team-visible Alpha marker is sent to connection 2, whose
    player is a member of Bravo only. *)
Theorem team_marker_update_reaches_other_team :
  let r := step ex_marker_update ex_sv4 in
  reachable ex_sv4
  ∧ returned r
  ∧ (sessions ex_sv4 !! "s1" ≫= λ s, Session.markers s !! "m1" ≫= λ m,
       Some (Marker.created_by m, Marker.visibility m, Marker.team_id m))
    = Some ("p1", TEAM, Some "alpha")
  ∧ (sessions ex_sv4 !! "s1" ≫= λ s, Session.players s !! "p2" ≫= λ p,
       Some (Player.team_id p, Player.websocket p, Player.connection_status p))
    = Some (Some "bravo", Some 2, CONNECTED)
  ∧ (sessions ex_sv4 !! "s1" ≫= λ s, odict.get "alpha" (Session.teams s) ≫= λ t,
       Some (elements (Team.players t)))
    = Some []
  ∧ (λ m, (to m, reported m)) <$> sent r
    = [(1, [("update", "marker", "m1")]); (2, [("update", "marker", "m1")])].
Proof.
  split; [apply ex_sv4_reachable|].
  vm_compute. repeat split. by exists ().
Qed.

(** ** Position updates and the movement threshold *)

Lemma alter_lookup_insert {A} (f : A → A) (m : gmap string A) k x :
  m !! k = Some x → alter f k m = <[k := f x]> m.
Proof.
  intros Hk. apply map_eq. intros k'. destruct (decide (k = k')) as [<-|Hne].
  - by rewrite lookup_alter_eq, lookup_insert_eq, Hk.
  - by rewrite lookup_alter_ne, lookup_insert_ne.
Qed.

Lemma ex_sv_walk_reachable : reachable ex_sv_walk.
Proof. apply (reachable_step ex_sv1 ex_first_fix); [apply ex_sv1_reachable|exact I]. Qed.

Lemma ex_walker_stored :
  sessions ex_sv_walk !! "s1" = Some ex_walk_session
  ∧ Session.players ex_walk_session !! "p1" = Some ex_walker
  ∧ Player.position ex_walker = Some (Position.mk 0 0 0 0 0 0).
Proof. vm_compute. done. Qed.

(** C3, amended.  A position update is stored and broadcast, once and with
    the sender's team as scope, exactly when the player has no stored
    position or [distance_to] returns a distance strictly above 2.0.  When
    it returns 2.0 or less nothing is sent and the session, stored position
    included, is unchanged.  When it raises (the rounded haversine term can
    leave [0, 1], and then [math.sqrt] raises [ValueError]) the handler
    raises the same exception, and again nothing is stored or sent. *)
Theorem position_update_threshold uuid now pid p data s :
  Session.players s !! pid = Some p →
  let new_position :=
    Position.mk (Position.kw_latitude data) (Position.kw_longitude data)
      (default 0%float (Position.kw_heading data))
      (default 0%float (Position.kw_accuracy data))
      (default 0%float (Position.kw_elevation data)) now in
  let moved := Player.set_last_active now (Player.set_position (Some new_position) p) in
  let s' := Session.set_players (<[pid := moved]> (Session.players s)) s in
  let delta :=
    [StateDelta.mk_change "update" "player" (Player.player_id p)
       (DPosition new_position) now None] in
  let far :=
    Player.position p = None
    ∨ ∃ old d, Player.position p = Some old
               ∧ Position.distance_to math old new_position = inr d
               ∧ (2 <? d)%float = true in
  let r := handle_position_update uuid now pid p data s in
  (far → r = broadcast_delta uuid now delta (Player.team_id p) s'
         ∧ returned r
         ∧ Session.players (state r) !! pid = Some moved
         ∧ Session.sequence_number (state r) = (Session.sequence_number s + 1)%Z)
  ∧ (∀ old d, Player.position p = Some old →
       Position.distance_to math old new_position = inr d →
       (2 <? d)%float = false →
       r = mk_outcome s [] (inr ()))
  ∧ (∀ old e, Player.position p = Some old →
       Position.distance_to math old new_position = inl e →
       r = mk_outcome s [] (inl e))
  ∧ (¬ far → state r = s ∧ sent r = [])
  ∧ (far ↔ state r ≠ s).
Proof.
  intros Hp new_position moved s' delta far r.
  assert (far → r = broadcast_delta uuid now delta (Player.team_id p) s') as Hfar.
  { intros Hf. subst r. unfold handle_position_update, accepts_position.
    fold new_position.
    assert (match Player.position p with
            | Some old =>
                and_then (Position.distance_to math old new_position)
                  (λ d, inr (POSITION_UPDATE_THRESHOLD <? d)%float)
            | None => inr true
            end = inr true) as ->.
    { destruct Hf as [->|(old & d & -> & -> & Hgt)]; [done|].
      unfold POSITION_UPDATE_THRESHOLD. cbn. by rewrite Hgt. }
    unfold update_player. rewrite run_modify.
    cbn [Session.players]. rewrite (alter_lookup_insert _ _ _ _ Hp). done. }
  assert (∀ old d, Player.position p = Some old →
            Position.distance_to math old new_position = inr d →
            (2 <? d)%float = false → r = mk_outcome s [] (inr ())) as Hnear.
  { intros old d Hpos Hd Hle. subst r. unfold handle_position_update, accepts_position.
    fold new_position. rewrite Hpos, Hd. unfold POSITION_UPDATE_THRESHOLD. cbn.
    by rewrite Hle. }
  assert (∀ old e, Player.position p = Some old →
            Position.distance_to math old new_position = inl e →
            r = mk_outcome s [] (inl e)) as Hraise.
  { intros old e Hpos Hd. subst r. unfold handle_position_update, accepts_position.
    fold new_position. by rewrite Hpos, Hd. }
  assert (far → Session.sequence_number (state r) = (Session.sequence_number s + 1)%Z)
    as Hseq by (intros Hf; by rewrite (Hfar Hf)).
  assert (¬ far → state r = s ∧ sent r = []) as Hnot.
  { intros Hn. destruct (Player.position p) as [old|] eqn:Hpos; [|destruct Hn; by left].
    destruct (Position.distance_to math old new_position) as [e|d] eqn:Hd.
    - by rewrite (Hraise old e).
    - destruct (2 <? d)%float eqn:Hgt; [|by rewrite (Hnear old d)].
      destruct Hn. right. by exists old, d. }
  assert (far ∨ ¬ far) as Hdec.
  { subst far. destruct (Player.position p) as [old|]; [|left; by left].
    destruct (Position.distance_to math old new_position) as [e|d] eqn:Hd.
    - right. intros [?|(old' & d' & [= <-] & ? & ?)]; [done|congruence].
    - destruct (2 <? d)%float eqn:Hgt.
      + left. right. by exists old, d.
      + right. intros [?|(old' & d' & [= <-] & Hd' & ?)]; [done|].
        rewrite Hd in Hd'. injection Hd' as <-. congruence. }
  split; [|split; [|split; [|split; [|split]]]].
  - intros Hf. split; [by apply Hfar|]. split; [rewrite (Hfar Hf); by exists ()|].
    split; [|by apply Hseq]. rewrite (Hfar Hf). cbn. apply lookup_insert_eq.
  - exact Hnear.
  - exact Hraise.
  - exact Hnot.
  - intros Hf Heq. apply Hseq in Hf. rewrite Heq in Hf. lia.
  - intros Hne. destruct Hdec as [Hf|Hn]; [done|]. destruct Hne. by apply Hnot.
Qed.

(** ** The snapshot sent at authentication *)

Lemma visible_to_spec {A} (vis : A → Visibility) (owner : A → option string) team_id x :
  visible_to vis owner team_id x = true ↔ vis x = ALL ∨ owner x = team_id.
Proof. unfold visible_to. by rewrite orb_true_iff, !bool_decide_eq_true. Qed.

Lemma reachable_run_messages events sv :
  reachable sv →
  Forall (λ e, match e with EvAuth _ _ _ _ _ _ _ _ => False | _ => True end) events →
  reachable (run events sv).
Proof.
  intros Hsv Hev. revert sv Hsv. induction Hev as [|e events He _ IH]; intros sv Hsv.
  - exact Hsv.
  - apply IH. apply reachable_step; [done|]. by destruct e.
Qed.

Lemma ex_sv_chat_reachable : reachable ex_sv_chat.
Proof.
  apply reachable_run_messages; [apply ex_sv2_reachable|].
  apply Forall_cons. split; [exact I|]. apply Forall_replicate. exact I.
Qed.

Lemma odict_get_fmap {A B} (f : A → B) (d : list (string * A)) k :
  odict.get k ((λ '(k', v), (k', f v)) <$> d) = f <$> odict.get k d.
Proof.
  induction d as [|[k' v] d IH]; [done|]. cbn. by case_decide.
Qed.

Lemma odict_keys_fmap {A B} (f : A → B) (d : list (string * A)) :
  odict.keys ((λ '(k', v), (k', f v)) <$> d) = odict.keys d.
Proof.
  unfold odict.keys. induction d as [|[k' v] d IH]; [done|]. cbn. by f_equal.
Qed.

Lemma length_last_n {A} n (l : list A) : (length (last_n n l) ≤ n)%nat.
Proof. unfold last_n. rewrite length_drop. lia. Qed.

(** C4, amended.  The snapshot holds every team, every player with its
    public fields and with its position exactly when the player is on the
    viewer's team and has one, exactly the markers that are visible to all
    or owned by the viewer's team, and, of the 50 most recent stored events,
    those that are visible to the viewer's team under the same rule. *)
Theorem snapshot_contents session team_id :
  let st := get_filtered_state session team_id in
  odict.keys (st_teams st) = odict.keys (Session.teams session)
  ∧ (∀ tid,
       odict.get tid (st_teams st) =
       (λ team, mk_team_data (Team.team_id team) (Team.name team) (Team.color team)
                  (elements (Team.players team)))
         <$> odict.get tid (Session.teams session))
  ∧ (∀ pid, st_players st !! pid = None ↔ Session.players session !! pid = None)
  ∧ (∀ pid p, Session.players session !! pid = Some p →
       ∃ d, st_players st !! pid = Some d
            ∧ pd_player_id d = Player.player_id p
            ∧ pd_callsign d = Player.callsign p
            ∧ pd_team_id d = Player.team_id p
            ∧ pd_connection_status d = Player.connection_status p
            ∧ ∀ pos, pd_position d = Some pos ↔
                     Player.team_id p = team_id ∧ Player.position p = Some pos)
  ∧ (∀ mid m, st_markers st !! mid = Some m ↔
       Session.markers session !! mid = Some m
       ∧ (Marker.visibility m = ALL ∨ Marker.team_id m = team_id))
  ∧ st_messages st =
      filter (λ m, Message.visibility m = ALL ∨ Message.team_id m = team_id)
        (last_n 50 (Session.messages session))
  ∧ (length (st_messages st) ≤ 50)%nat.
Proof.
  cbn [get_filtered_state st_teams st_players st_markers st_messages].
  split; [apply odict_keys_fmap|]. split; [intros; apply odict_get_fmap|].
  split; [intros pid; by rewrite lookup_fmap, fmap_None|].
  split.
  { intros pid p Hp. rewrite lookup_fmap, Hp. eexists. split; [done|].
    cbn. repeat split; try tauto.
    - case_bool_decide; [done|]. by intros.
    - by case_bool_decide.
    - intros [Ht Hpos]. by rewrite bool_decide_eq_true_2. }
  split.
  { intros mid m. rewrite map_lookup_filter_Some. cbn. by rewrite visible_to_spec. }
  split.
  { apply list_filter_iff. intros m. apply visible_to_spec. }
  etrans; [apply length_filter|apply length_last_n].
Qed.


(** ** The bounded message list *)

Lemma last_n_short {A} n (l : list A) : (length l ≤ n)%nat → last_n n l = l.
Proof. intros Hle. unfold last_n. by replace (length l - n)%nat with 0%nat by lia. Qed.

(** A chat appends its event and keeps the 100 most recent ones, dropping
    from the front. *)
Lemma handle_chat_messages u1 u2 now p d s :
  ∃ message,
    Message.type message = "chat"
    ∧ Session.messages (state (handle_chat u1 u2 now p d s)) =
      last_n 100 (Session.messages s ++ [message])%list
    ∧ (length (Session.messages (state (handle_chat u1 u2 now p d s))) ≤ 100)%nat.
Proof.
  eexists. split; [|split].
  2:{ unfold handle_chat, broadcast_by_visibility. rewrite !run_modify.
      cbn [Session.messages Session.set_messages].
      destruct (100 <? _)%nat eqn:Hlen.
      - by case_decide.
      - apply Nat.ltb_ge in Hlen. rewrite last_n_short by done. by case_decide. }
  - done.
  - unfold handle_chat, broadcast_by_visibility. rewrite !run_modify.
    cbn [Session.messages Session.set_messages].
    destruct (100 <? _)%nat eqn:Hlen.
    + case_decide; cbn; apply length_last_n.
    + apply Nat.ltb_ge in Hlen. by case_decide.
Qed.

(** An alert appends its event and drops nothing. *)
Lemma handle_alert_messages u1 u2 now p d s :
  ∃ message,
    Message.type message = "alert"
    ∧ Session.messages (state (handle_alert u1 u2 now p d s)) =
      (Session.messages s ++ [message])%list.
Proof. eexists. split; [|unfold handle_alert; by rewrite run_modify]. done. Qed.

Lemma ex_sv_alerts_reachable : reachable ex_sv_alerts.
Proof.
  apply reachable_run_messages; [apply ex_sv1_reachable|].
  apply Forall_replicate. exact I.
Qed.

(** C5 (defect in [handle_alert]).  [handle_chat] trims the list to its 100
    most recent events, [handle_alert] appends without trimming: after 101
    alerts on a new session the list holds 101 events. *)
Theorem alerts_exceed_message_bound :
  (∀ u1 u2 now p d s,
     length (Session.messages (state (handle_alert u1 u2 now p d s))) =
     S (length (Session.messages s)))
  ∧ reachable ex_sv_alerts
  ∧ sessions ex_sv_alerts !! "s1" = Some ex_alert_session
  ∧ length (Session.messages ex_alert_session) = 101%nat.
Proof.
  split.
  { intros. destruct (handle_alert_messages u1 u2 now p d s) as (m & _ & ->).
    rewrite length_app. simpl. lia. }
  split; [apply ex_sv_alerts_reachable|].
  split; vm_compute; reflexivity.
Qed.

(** ** Marker ownership *)

Lemma on_session_unchanged {A} sid (m : M Session.t A) sv s (a : A) :
  sessions sv !! sid = Some s →
  m s = mk_outcome s [] (inr a) →
  on_session sid m sv = mk_outcome sv [] (inr a).
Proof.
  intros Hs Hm. unfold on_session. rewrite Hs, Hm. cbn.
  rewrite insert_id by done. by destruct sv.
Qed.

(** C6.  An update or delete request for a marker that is unknown, or that
    was created by another player, returns without sending anything (so no
    error either) and leaves the session, hence the marker, its properties,
    the marker map, every team's marker set and the sequence number, as
    they were; so does the server as a whole. *)
Theorem foreign_marker_request_ignored u1 u2 now player marker_id s :
  (Session.markers s !! marker_id = None
   ∨ ∃ marker, Session.markers s !! marker_id = Some marker
               ∧ Marker.created_by marker ≠ Player.player_id player) →
  (∀ marker_data,
     handle_marker u1 u2 now player (MarkerUpdate marker_id marker_data) s =
     mk_outcome s [] (inr ()))
  ∧ handle_marker u1 u2 now player (MarkerDelete marker_id) s = mk_outcome s [] (inr ())
  ∧ (∀ sv sid pid request,
       sessions sv !! sid = Some s →
       Session.players s !! pid = Some player →
       (request = MarkerDelete marker_id
        ∨ ∃ marker_data, request = MarkerUpdate marker_id marker_data) →
       handle_message u1 u2 now pid sid (MARKER request) sv = mk_outcome sv [] (inr ())).
Proof.
  intros Hforeign.
  assert (∀ marker_data,
            handle_marker u1 u2 now player (MarkerUpdate marker_id marker_data) s =
            mk_outcome s [] (inr ())) as Hupdate.
  { intros marker_data. unfold handle_marker. rewrite run_get.
    destruct Hforeign as [->|(marker & -> & Hne)]; [done|]. by case_decide. }
  assert (handle_marker u1 u2 now player (MarkerDelete marker_id) s =
          mk_outcome s [] (inr ())) as Hdelete.
  { unfold handle_marker. rewrite run_get.
    destruct Hforeign as [->|(marker & -> & Hne)]; [done|]. by case_decide. }
  split; [exact Hupdate|]. split; [exact Hdelete|].
  intros sv sid pid request Hs Hp Hreq.
  unfold handle_message. rewrite run_get, Hs, Hp.
  destruct Hreq as [->|(marker_data & ->)]; by eapply on_session_unchanged.
Qed.


(** ** Authentication and team assignment *)

Lemma min_from_spec {A} (f : A → nat) pre best mid l :
  (∀ x, x ∈ pre → f best < f x)%nat →
  (∀ x, x ∈ mid → f best ≤ f x)%nat →
  ∃ l1 l2, (pre ++ best :: mid ++ l = l1 ++ min_from f best l :: l2)%list
           ∧ (∀ x, x ∈ l1 → f (min_from f best l) < f x)%nat
           ∧ (∀ x, x ∈ l2 → f (min_from f best l) ≤ f x)%nat.
Proof.
  revert pre best mid. induction l as [|x l IH]; intros pre best mid Hpre Hmid.
  - exists pre, mid. by rewrite app_nil_r.
  - cbn [min_from]. destruct (f x <? f best)%nat eqn:Hlt.
    + apply Nat.ltb_lt in Hlt.
      destruct (IH (pre ++ best :: mid)%list x []) as (l1 & l2 & Heq & H1 & H2).
      * intros y [Hy|Hy]%elem_of_app; [specialize (Hpre y Hy); lia|].
        apply elem_of_cons in Hy as [->|Hy]; [done|]. specialize (Hmid y Hy). lia.
      * intros y Hy. by apply elem_of_nil in Hy.
      * exists l1, l2. split; [|done]. rewrite <- Heq. by rewrite <- !app_assoc.
    + apply Nat.ltb_ge in Hlt.
      destruct (IH pre best (mid ++ [x])%list) as (l1 & l2 & Heq & H1 & H2); [done| |].
      * intros y [Hy|Hy]%elem_of_app; [by apply Hmid|].
        by apply list_elem_of_singleton in Hy as ->.
      * exists l1, l2. split; [|done]. rewrite <- Heq. by rewrite <- !app_assoc.
Qed.

Lemma py_min_spec {A} (f : A → nat) l :
  l ≠ [] →
  ∃ x l1 l2, py_min f l = Some x ∧ l = (l1 ++ x :: l2)%list
             ∧ (∀ y, y ∈ l1 → f x < f y)%nat
             ∧ (∀ y, y ∈ l2 → f x ≤ f y)%nat.
Proof.
  destruct l as [|best l]; [done|]. intros _.
  destruct (min_from_spec f [] best [] l) as (l1 & l2 & Heq & H1 & H2).
  - intros y Hy. by apply elem_of_nil in Hy.
  - intros y Hy. by apply elem_of_nil in Hy.
  - exists (min_from f best l), l1, l2. done.
Qed.

Lemma odict_get_is_Some {V} (d : list (string * V)) k :
  k ∈ odict.keys d ↔ is_Some (odict.get k d).
Proof.
  unfold odict.keys. induction d as [|[k' v] d IH]; cbn.
  - split; [by intros ?%elem_of_nil|by intros [? ?]].
  - rewrite elem_of_cons. case_decide; [split; eauto|]. rewrite IH.
    split; [by intros [?|?]|by right].
Qed.

Lemma odict_get_alter {V} (f : V → V) (d : list (string * V)) k k' :
  odict.get k' (odict.alter f k d) =
  if decide (k = k') then f <$> odict.get k' d else odict.get k' d.
Proof.
  induction d as [|[k0 v] d IH]; cbn; [by case_decide|].
  repeat (case_decide; simplify_eq; cbn); done.
Qed.

Lemma odict_keys_alter {V} (f : V → V) (d : list (string * V)) k :
  odict.keys (odict.alter f k d) = odict.keys d.
Proof.
  unfold odict.keys. induction d as [|[k0 v] d IH]; cbn; [done|].
  case_decide; cbn; [done|]. by f_equal.
Qed.

Lemma join_session_run ws pid now callsign is_host device_info s tid :
  choose_team s = Some tid →
  join_session ws pid now callsign is_host device_info s =
  let player := joined ws pid now callsign device_info tid in
  let add t := Team.set_players (Team.players t ∪ {[pid]}) t in
  let s1 := Session.set_teams (odict.alter add tid (Session.teams s)) s in
  let s2 := if is_host then Session.set_host_id (Some pid) s1 else s1 in
  mk_outcome (Session.set_players (<[pid := player]> (Session.players s2)) s2)
    [] (inr player).
Proof.
  intros Hchoose.
  assert (is_Some (odict.get tid (Session.teams s))) as [team Hteam].
  { apply odict_get_is_Some. unfold choose_team in Hchoose.
    destruct (odict.keys (Session.teams s)) as [|k ks] eqn:Hk; [done|].
    destruct (py_min_spec (team_count s) (k :: ks)) as (x & l1 & l2 & Hx & -> & _);
      [done|].
    rewrite Hchoose in Hx. injection Hx as ->. set_solver. }
  unfold join_session. rewrite run_get. cbn [Player.team_id]. rewrite Hchoose.
  unfold update_team, mbind, M_bind, get_state, modify, mret, M_ret. cbn.
  rewrite Hteam. cbn. by destruct is_host.
Qed.

Lemma run_bind {S A B} (m : M S A) (f : A → M S B) s s1 out a :
  m s = mk_outcome s1 out (inr a) →
  (m ≫= f) s =
  mk_outcome (state (f a s1)) (out ++ sent (f a s1))%list (result (f a s1)).
Proof. intros Hm. unfold mbind, M_bind. by rewrite Hm. Qed.

Lemma on_session_run {A} sid (m : M Session.t A) sv s :
  sessions sv !! sid = Some s →
  on_session sid m sv =
  mk_outcome (set_sessions (<[sid := state (m s)]> (sessions sv)) sv)
    (sent (m s)) (result (m s)).
Proof. intros Hs. unfold on_session. by rewrite Hs. Qed.

Lemma send_then_broadcast_returns player uuid now s :
  result ((send_auth_response player ;;
           broadcast_player_update uuid now player "add") s) = inr ().
Proof.
  unfold send_auth_response, mbind, M_bind, get_state. cbn.
  by destruct (Player.websocket player).
Qed.

Lemma authenticate_run ws up ud now callsign is_host device_info sid sv s0 s1 player :
  sessions sv !! sid = Some s0 →
  join_session ws up now callsign is_host device_info s0 = mk_outcome s1 [] (inr player) →
  let r2 :=
    (send_auth_response player ;; broadcast_player_update ud now player "add") s1 in
  (player ← on_session sid (join_session ws up now callsign is_host device_info) ;
   modify (λ sv, set_player_connections (<[up := ws]> (player_connections sv)) sv) ;;
   on_session sid
     (send_auth_response player ;; broadcast_player_update ud now player "add") ;;
   mret (Some up, Some sid)) sv =
  mk_outcome
    (mk_server (<[sid := state r2]> (sessions sv))
       (<[up := ws]> (player_connections sv)))
    (sent r2) (inr (Some up, Some sid)).
Proof.
  intros Hs0 Hr1. cbv zeta.
  remember ((send_auth_response player ;;
             broadcast_player_update ud now player "add") s1) as r2 eqn:Er2.
  assert (result r2 = inr ()) as Hret
    by (rewrite Er2; apply send_then_broadcast_returns).
  erewrite run_bind; last first.
  { rewrite (on_session_run _ _ _ _ Hs0), Hr1. reflexivity. }
  cbn [state sent result app].
  rewrite run_modify.
  erewrite run_bind; last first.
  { erewrite on_session_run; last by apply lookup_insert_eq.
    rewrite <- Er2. destruct r2 as [st2 out2 res2]. cbn in Hret. rewrite Hret.
    reflexivity. }
  cbn. by rewrite insert_insert_eq, app_nil_r.
Qed.


Lemma send_then_broadcast_state player uuid now s :
  state ((send_auth_response player ;;
          broadcast_player_update uuid now player "add") s) =
  Session.set_sequence_number (Session.sequence_number s + 1)%Z s.
Proof.
  unfold send_auth_response, mbind, M_bind, get_state. cbn.
  by destruct (Player.websocket player).
Qed.

Lemma create_session_teams us ua ub now :
  ua ≠ ub →
  Session.teams (create_session us ua ub now) =
  [(ua, Team.mk ua "Alpha" "#00FF00" ∅ ∅); (ub, Team.mk ub "Bravo" "#FF0000" ∅ ∅)].
Proof.
  intros Hne. unfold create_session. cbn. by rewrite decide_False by done.
Qed.




(** ** Disconnection and the reaping of sessions *)

#[local] Instance same_roster_preorder : PreOrder same_roster.
Proof. split; unfold same_roster; [done|intros ? ? ? H1 H2; by rewrite H2]. Qed.

#[local] Instance same_rosters_preorder : PreOrder same_rosters.
Proof.
  split; unfold same_rosters; [done|]. intros ? ? ? H1 H2 sid. by rewrite H2.
Qed.

Lemma broadcast_delta_same_roster uuid now delta tid :
  preserves same_roster (broadcast_delta uuid now delta tid).
Proof. by intros s. Qed.

Lemma update_player_same_roster pid f : preserves same_roster (update_player pid f).
Proof. intros s. unfold same_roster. cbn. apply dom_alter_L. Qed.

Lemma sweep_session_same_roster uuid_of now :
  preserves same_roster (sweep_session uuid_of now).
Proof.
  unfold sweep_session. preserves_step; [preserves_step|].
  preserves_step. destruct x as [pid player]. preserves_step; [|preserves_step].
  preserves_step; [apply update_player_same_roster|apply broadcast_delta_same_roster].
Qed.

Lemma for_each_returns {S A} (f : A → M S ()) l s :
  (∀ x s, returned (f x s)) → returned (for_each f l s).
Proof.
  intros Hf. revert s. induction l as [|x l IH]; intros s; [by exists ()|].
  cbn [for_each]. destruct (Hf x s) as [[] Hx].
  unfold mbind, M_bind. rewrite Hx. destruct (IH (state (f x s))) as [a Ha].
  exists a. exact Ha.
Qed.

Lemma sweep_session_returns uuid_of now s : returned (sweep_session uuid_of now s).
Proof.
  unfold sweep_session. rewrite run_get. apply for_each_returns.
  intros [pid player] s'. destruct (is_inactive now player); by exists ().
Qed.

Lemma on_session_same_rosters {A} sid (m : M Session.t A) :
  preserves same_roster m → preserves same_rosters (on_session sid m).
Proof.
  intros Hm sv sid'. unfold on_session.
  destruct (sessions sv !! sid) as [s|] eqn:Hs; [|done]. cbn.
  destruct (decide (sid = sid')) as [<-|Hne].
  - rewrite lookup_insert_eq, Hs. cbn. f_equal. apply Hm.
  - by rewrite lookup_insert_ne.
Qed.

(** The sweep over all sessions returns and keeps every roster. *)
Lemma sweep_sessions_run (m : string → M Session.t ()) l sv :
  (∀ sid, preserves same_roster (m sid)) →
  (∀ sid s, returned (m sid s)) →
  (∀ x, x ∈ l → is_Some (sessions sv !! x.1)) →
  let r := for_each (λ '(sid, _), on_session sid (m sid)) (l : list (string * Session.t)) sv in
  returned r ∧ same_rosters sv (state r).
Proof.
  intros Hm Hret. revert sv. induction l as [|[sid s0] l IH]; intros sv Hl; cbn zeta.
  - split; [by exists ()|reflexivity].
  - cbn [for_each]. destruct (Hl (sid, s0)) as [s Hs]; [by left|]. cbn in Hs.
    destruct (Hret sid s) as [[] Hres].
    rewrite (run_bind _ _ sv _ _ () (eq_trans (on_session_run sid (m sid) sv s Hs)
               (f_equal (mk_outcome _ _) Hres))).
    assert (same_rosters sv
              (set_sessions (<[sid := state (m sid s)]> (sessions sv)) sv)) as Hstep.
    { pose proof (on_session_same_rosters sid (m sid) (Hm sid) sv) as H.
      by rewrite (on_session_run _ _ _ _ Hs) in H. }
    destruct (IH (set_sessions (<[sid := state (m sid s)]> (sessions sv)) sv))
      as [[a Ha] Hrel].
    { intros x Hx. specialize (Hl x (list_elem_of_further _ _ _ Hx)).
      specialize (Hstep x.1). destruct Hl as [s1 Hs1]. rewrite Hs1 in Hstep.
      apply fmap_Some in Hstep as (s2 & Hs2 & _). by exists s2. }
    cbn [state result]. split; [by exists a|]. by etrans.
Qed.

(** One iteration of the maintenance loop removes exactly the sessions whose
    player map is empty. *)
Lemma update_tick_removes_empty uuid_of now sv sid :
  returned (update_tick uuid_of now sv)
  ∧ (sessions (state (update_tick uuid_of now sv)) !! sid = None ↔
     sessions sv !! sid = None
     ∨ ∃ s, sessions sv !! sid = Some s ∧ Session.players s = ∅).
Proof.
  unfold update_tick. rewrite run_get.
  pose proof (sweep_sessions_run (λ sid, sweep_session (uuid_of sid) now)
                (map_to_list (sessions sv)) sv) as Hsweep.
  cbv zeta in Hsweep.
  remember (for_each (λ '(sid, _), on_session sid (sweep_session (uuid_of sid) now))
              (map_to_list (sessions sv)) sv) as swept eqn:Eswept.
  destruct Hsweep as [[[] Hret] Hrel].
  { intros. apply sweep_session_same_roster. }
  { intros. apply sweep_session_returns. }
  { intros [sid' s'] Hx%elem_of_map_to_list. by exists s'. }
  rewrite (run_bind _ _ sv (state swept) (sent swept) ());
    [|rewrite <- Eswept; destruct swept; cbn in Hret; by subst].
  cbn [state result remove_empty_sessions modify]. split; [by exists ()|].
  cbn [sessions set_sessions]. rewrite map_lookup_filter_None.
  specialize (Hrel sid).
  destruct (sessions sv !! sid) as [s|], (sessions (state swept) !! sid) as [s'|];
    cbn in Hrel; try done.
  - injection Hrel as Hdom. split.
    + intros [?|Hempty]; [done|]. right. exists s. split; [done|].
      specialize (Hempty s' eq_refl). cbn in Hempty.
      apply dec_stable in Hempty. apply dom_empty_iff_L. rewrite <- Hdom.
      by apply dom_empty_iff_L.
    + intros [?|(s1 & [= <-] & Hempty)]; [done|]. right. intros s2 [= <-]. cbn.
      intros Hne. apply Hne. apply dom_empty_iff_L. rewrite Hdom.
      by apply dom_empty_iff_L.
  - split; [by left|by left].
Qed.

Lemma handle_disconnect_run uuid now pid sid sv s p :
  sessions sv !! sid = Some s →
  Session.players s !! pid = Some p →
  is_Some (player_connections sv !! pid) →
  let gone := Player.set_websocket None (Player.set_connection_status DISCONNECTED p) in
  let s1 := Session.set_players (<[pid := gone]> (Session.players s)) s in
  let rb := broadcast_player_update uuid now gone "update" s1 in
  handle_disconnect uuid now pid sid sv =
  mk_outcome
    (mk_server (<[sid := state rb]> (sessions sv)) (delete pid (player_connections sv)))
    (sent rb) (inr ()).
Proof.
  intros Hs Hp Hconn gone s1 rb.
  unfold handle_disconnect. rewrite run_get, Hs, Hp.
  rewrite bool_decide_eq_true_2 by done.
  erewrite run_bind; last first.
  { rewrite (on_session_run _ _ _ _ Hs). unfold update_player. cbn.
    rewrite (alter_lookup_insert _ _ _ _ Hp). reflexivity. }
  rewrite run_modify.
  erewrite on_session_run; last by apply lookup_insert_eq.
  cbn. by rewrite insert_insert_eq.
Qed.



(** ** Team membership *)

#[local] Instance same_membership_preorder : PreOrder same_membership.
Proof.
  split.
  - by intros s.
  - intros a b c [H1 H2] [H3 H4]. split; intros; [by rewrite H3|by rewrite H4].
Qed.

Lemma membership_consistent_same s s' :
  same_membership s s' → membership_consistent s → membership_consistent s'.
Proof.
  intros [Ht Hp] (Hc & Ha & Hb). split; [|split].
  - specialize (Ht ""). rewrite Hc in Ht. by destruct (odict.get "" _).
  - intros pid p t Hpid Hteam.
    specialize (Hp pid). rewrite Hpid in Hp. cbn in Hp. rewrite Hteam in Hp.
    symmetry in Hp. apply fmap_Some in Hp as (p0 & Hp0 & Ht0).
    destruct (Ha pid p0 t Hp0 (eq_sym Ht0)) as (team & Hget & Hin).
    specialize (Ht t). rewrite Hget in Ht. cbn in Ht.
    apply fmap_Some in Ht as (team' & Hget' & Hpl). exists team'. by rewrite <- Hpl.
  - intros t team pid Hget Hin.
    specialize (Ht t). rewrite Hget in Ht. cbn in Ht.
    symmetry in Ht. apply fmap_Some in Ht as (team0 & Hget0 & Hpl).
    destruct (Hb t team0 pid Hget0) as (p0 & Hp0 & Ht0); [by rewrite <- Hpl|].
    specialize (Hp pid). rewrite Hp0 in Hp. cbn in Hp.
    apply fmap_Some in Hp as (p' & Hp' & Hteam'). exists p'. split; [done|congruence].
Qed.

Lemma broadcast_delta_same_membership uuid now delta tid :
  preserves same_membership (broadcast_delta uuid now delta tid).
Proof. by intros s. Qed.

Lemma update_player_same_membership pid f :
  (∀ p, Player.team_id (f p) = Player.team_id p) →
  preserves same_membership (update_player pid f).
Proof.
  intros Hf s. split; [done|]. intros pid'. cbn.
  destruct (decide (pid = pid')) as [<-|Hne].
  - rewrite lookup_alter_eq. destruct (Session.players s !! pid); cbn; [|done].
    by rewrite Hf.
  - by rewrite lookup_alter_ne.
Qed.

Lemma update_team_same_membership tid f :
  (∀ t, Team.players (f t) = Team.players t) →
  preserves same_membership (update_team tid f).
Proof.
  intros Hf s. unfold update_team. rewrite run_get.
  destruct tid as [t|]; [|done].
  destruct (odict.get t (Session.teams s)) as [team|] eqn:Hteam; [|done].
  split; [|done]. intros t'. cbn. rewrite odict_get_alter.
  case_decide; [subst|done]. rewrite Hteam. cbn. by rewrite Hf.
Qed.

Ltac same_membership_step :=
  lazymatch goal with
  | |- preserves _ (broadcast_delta _ _ _ _) => apply broadcast_delta_same_membership
  | |- preserves _ (broadcast_player_update _ _ _ _) => apply broadcast_delta_same_membership
  | |- preserves _ (broadcast_by_visibility _ _ _ _ _) =>
      unfold broadcast_by_visibility; case_decide
  | |- preserves _ (update_player _ _) => apply update_player_same_membership; by intros []
  | |- preserves _ (update_team _ _) => apply update_team_same_membership; by intros []
  | |- preserves _ (modify _) => apply preserves_modify; intros ?; try case_match; done
  | |- preserves _ (let _ := _ in _) => cbv zeta
  | |- _ => preserves_step
  end.

Lemma handle_position_update_same_membership u now pid p d :
  preserves same_membership (handle_position_update u now pid p d).
Proof. unfold handle_position_update. repeat same_membership_step. Qed.

Lemma handle_chat_same_membership u1 u2 now p d :
  preserves same_membership (handle_chat u1 u2 now p d).
Proof. unfold handle_chat. repeat same_membership_step. Qed.

Lemma handle_alert_same_membership u1 u2 now p d :
  preserves same_membership (handle_alert u1 u2 now p d).
Proof. unfold handle_alert. repeat same_membership_step. Qed.

Lemma handle_marker_same_membership u1 u2 now p d :
  preserves same_membership (handle_marker u1 u2 now p d).
Proof. unfold handle_marker. repeat same_membership_step. Qed.

Lemma sweep_session_same_membership uuid_of now :
  preserves same_membership (sweep_session uuid_of now).
Proof.
  unfold sweep_session. same_membership_step; [same_membership_step|].
  same_membership_step. destruct x as [pid player]. repeat same_membership_step.
Qed.

Lemma update_team_run t f s team :
  odict.get t (Session.teams s) = Some team →
  update_team (Some t) f s =
  mk_outcome (Session.set_teams (odict.alter f t (Session.teams s)) s) [] (inr ()).
Proof. intros Hteam. unfold update_team. by rewrite run_get, Hteam. Qed.

Lemma join_session_returns ws pid now callsign is_host device_info s :
  ∃ s1 player,
    join_session ws pid now callsign is_host device_info s =
    mk_outcome s1 [] (inr player).
Proof.
  destruct (choose_team s) as [tid|] eqn:Hchoose.
  - rewrite (join_session_run _ _ _ _ _ _ _ _ Hchoose). by eexists _, _.
  - unfold join_session. rewrite run_get. cbn [Player.team_id]. rewrite Hchoose.
    destruct is_host; by eexists _, _.
Qed.

Lemma join_session_consistent ws pid now callsign is_host device_info s :
  membership_consistent s →
  Session.players s !! pid = None →
  membership_consistent (state (join_session ws pid now callsign is_host device_info s)).
Proof.
  intros (Hc & Ha & Hb) Hfresh.
  destruct (choose_team s) as [tid|] eqn:Hchoose.
  - rewrite (join_session_run _ _ _ _ _ _ _ _ Hchoose). cbv zeta. cbn [state].
    assert (∀ x, Session.teams (if is_host then Session.set_host_id (Some pid) x else x)
                 = Session.teams x) as Hh1 by (by destruct is_host).
    assert (∀ x, Session.players (if is_host then Session.set_host_id (Some pid) x else x)
                 = Session.players x) as Hh2 by (by destruct is_host).
    split; [|split]; cbn [Session.teams Session.players Session.set_players];
      rewrite ?Hh1, ?Hh2; cbn [Session.teams Session.players Session.set_teams].
    + rewrite odict_get_alter. case_decide; [|done]. by rewrite Hc.
    + intros pid0 p t Hp Ht. rewrite odict_get_alter.
      destruct (decide (pid = pid0)) as [<-|Hne].
      * rewrite lookup_insert_eq in Hp. injection Hp as <-. cbn in Ht.
        injection Ht as <-. rewrite decide_True by done.
        assert (is_Some (odict.get tid (Session.teams s))) as [team Hteam].
        { apply odict_get_is_Some. unfold choose_team in Hchoose.
          destruct (odict.keys (Session.teams s)) as [|k ks] eqn:Hk; [done|].
          destruct (py_min_spec (team_count s) (k :: ks))
            as (x & l1 & l2 & Hx & -> & _); [done|].
          rewrite Hchoose in Hx. injection Hx as ->. set_solver. }
        rewrite Hteam. eexists. split; [done|]. cbn. set_solver.
      * rewrite lookup_insert_ne in Hp by done.
        destruct (Ha pid0 p t Hp Ht) as (team & Hteam & Hin). rewrite Hteam.
        case_decide; eexists; (split; [done|]); cbn; set_solver.
    + intros t team pid0 Hteam Hin. rewrite odict_get_alter in Hteam.
      destruct (decide (pid = pid0)) as [<-|Hne].
      * rewrite lookup_insert_eq. eexists. split; [done|]. cbn. f_equal.
        case_decide as Htid; [done|]. exfalso.
        destruct (Hb t team pid Hteam Hin) as (p & Hp & _). congruence.
      * rewrite lookup_insert_ne by done. case_decide as Htid; [subst t|by eapply Hb].
        apply fmap_Some in Hteam as (team0 & Hteam0 & ->). cbn in Hin.
        apply (Hb tid team0 pid0 Hteam0). set_solver.
  - unfold join_session. rewrite run_get. cbn [Player.team_id]. rewrite Hchoose.
    assert (membership_consistent
              (Session.set_players
                 (<[pid := Player.mk pid callsign None CONNECTED now None device_info
                             (Some ws)]> (Session.players s)) s)) as Hplain.
    { split; [done|split]; cbn.
      - intros pid0 p t Hp Ht. destruct (decide (pid = pid0)) as [<-|Hne].
        + rewrite lookup_insert_eq in Hp. by injection Hp as <-.
        + rewrite lookup_insert_ne in Hp by done. by eapply Ha.
      - intros t team pid0 Hteam Hin. destruct (Hb t team pid0 Hteam Hin) as (p & Hp & Ht).
        exists p. split; [|done]. rewrite lookup_insert_ne; [done|]. congruence. }
    destruct is_host; [|exact Hplain].
    destruct Hplain as (H1 & H2 & H3). split; [done|split]; cbn in *; done.
Qed.

(** The teams once [pid] has left its current team, if it has one. *)
Lemma handle_team_update_run u now pid new_team_id s p :
  membership_consistent s →
  Session.players s !! pid = Some p →
  is_Some (odict.get new_team_id (Session.teams s)) →
  let left :=
    match Player.team_id p with
    | Some old =>
        odict.alter (λ t, Team.set_players (Team.players t ∖ {[pid]}) t) old
          (Session.teams s)
    | None => Session.teams s
    end in
  let teams' :=
    odict.alter (λ t, Team.set_players (Team.players t ∪ {[pid]}) t) new_team_id left in
  let players' := <[pid := Player.set_team_id (Some new_team_id) p]> (Session.players s) in
  let delta :=
    [StateDelta.mk_change "update" "player" pid (DTeamId new_team_id) now None] in
  handle_team_update u now (AssignPlayer pid new_team_id) s =
  broadcast_delta u now delta None
    (Session.set_teams teams' (Session.set_players players' s)).
Proof.
  intros (Hc & Ha & Hb) Hp [tn Hnew]. cbv zeta.
  unfold handle_team_update. rewrite run_get, Hp, Hnew.
  destruct (Player.team_id p) as [old|] eqn:Hold.
  - destruct (Ha pid p old Hp Hold) as (to & Hto & Hin).
    assert (old ≠ "") as Hne by (intros ->; congruence).
    assert (truthy (Some old) = Some old) as -> by (by apply truthy_Some).
    erewrite run_bind; [|by apply (update_team_run old _ s to)].
    unfold update_player. rewrite run_modify.
    cbn [Session.players Session.set_teams].
    assert (is_Some (odict.get new_team_id
                       (odict.alter (λ t, Team.set_players (Team.players t ∖ {[pid]}) t)
                          old (Session.teams s)))) as [tn' Htn'].
    { rewrite odict_get_alter, Hnew. case_decide; by eexists. }
    erewrite run_bind; [|by apply (update_team_run new_team_id _ _ tn')].
    cbn [Session.teams Session.set_players Session.set_teams Session.players].
    rewrite (alter_lookup_insert _ _ _ _ Hp). done.
  - cbn [truthy]. rewrite (run_bind (mret ()) _ s s [] ()) by done.
    unfold update_player. rewrite run_modify.
    erewrite run_bind; [|by apply (update_team_run new_team_id _ _ tn)].
    cbn [Session.teams Session.set_players Session.set_teams Session.players].
    rewrite (alter_lookup_insert _ _ _ _ Hp). done.
Qed.

Lemma handle_team_update_consistent u now data s :
  membership_consistent s →
  membership_consistent (state (handle_team_update u now data s)).
Proof.
  intros Hinv. destruct data as [pid new|]; [|done].
  destruct (Session.players s !! pid) as [p|] eqn:Hp; last first.
  { unfold handle_team_update. by rewrite run_get, Hp. }
  destruct (odict.get new (Session.teams s)) as [tn|] eqn:Hnew; last first.
  { unfold handle_team_update. by rewrite run_get, Hp, Hnew. }
  rewrite (handle_team_update_run _ _ _ _ _ _ Hinv Hp) by done. cbv zeta.
  eapply membership_consistent_same; [apply broadcast_delta_same_membership|].
  destruct Hinv as (Hc & Ha & Hb).
  set (discard := λ t, Team.set_players (Team.players t ∖ {[pid]}) t).
  set (add := λ t, Team.set_players (Team.players t ∪ {[pid]}) t).
  assert (new ≠ "") as Hnew_ne by (intros ->; congruence).
  (* the lookup of any team after the transfer *)
  assert (∀ t, odict.get t
                 (odict.alter add new
                    match Player.team_id p with
                    | Some old => odict.alter discard old (Session.teams s)
                    | None => Session.teams s
                    end) =
               (λ team,
                  let team1 :=
                    if decide (Player.team_id p = Some t) then discard team else team in
                  if decide (new = t) then add team1 else team1)
                 <$> odict.get t (Session.teams s)) as Hget.
  { intros t. rewrite odict_get_alter.
    destruct (Player.team_id p) as [old|] eqn:Hold.
    - rewrite odict_get_alter.
      destruct (decide (new = t)), (decide (old = t)), (odict.get t (Session.teams s));
        cbn; repeat case_decide; simplify_eq; done.
    - destruct (decide (new = t)), (odict.get t (Session.teams s));
        cbn; repeat case_decide; simplify_eq; done. }
  split; [|split]; cbn [Session.teams Session.players Session.set_teams Session.set_players].
  - by rewrite Hget, Hc.
  - intros pid0 p0 t Hp0 Ht. rewrite Hget.
    destruct (decide (pid = pid0)) as [<-|Hne].
    + rewrite lookup_insert_eq in Hp0. injection Hp0 as <-. cbn in Ht. injection Ht as <-.
      rewrite Hnew. eexists. split; [done|]. cbn. rewrite decide_True by done.
      cbn. set_solver.
    + rewrite lookup_insert_ne in Hp0 by done.
      destruct (Ha pid0 p0 t Hp0 Ht) as (team & Hteam & Hin). rewrite Hteam.
      eexists. split; [done|]. cbn. repeat case_decide; cbn; set_solver.
  - intros t team pid0 Hteam Hin. rewrite Hget in Hteam.
    apply fmap_Some in Hteam as (team0 & Hteam0 & ->). cbn in Hin.
    destruct (decide (pid = pid0)) as [<-|Hne].
    + rewrite lookup_insert_eq. eexists. split; [done|]. cbn. f_equal.
      destruct (decide (new = t)) as [|Hnt]; [done|]. exfalso.
      destruct (decide (Player.team_id p = Some t)) as [Hpt|Hpt]; cbn in Hin.
      * set_solver.
      * destruct (Hb t team0 pid Hteam0 Hin) as (p' & Hp' & Ht'). congruence.
    + rewrite lookup_insert_ne by done. apply (Hb t team0 pid0 Hteam0).
      repeat case_decide; cbn in Hin; set_solver.
Qed.

(** *** Server steps keep the membership consistent *)

#[local] Instance keeps_consistent_preorder : PreOrder keeps_consistent.
Proof.
  split; unfold keeps_consistent.
  - by intros sv Hsv.
  - intros a b c H1 H2 Ha. apply H2, H1, Ha.
Qed.

Lemma on_session_consistent {A} sid (m : M Session.t A) :
  (∀ s, membership_consistent s → membership_consistent (state (m s))) →
  preserves keeps_consistent (on_session sid m).
Proof.
  intros Hm sv Hsv. unfold on_session.
  destruct (sessions sv !! sid) as [s|] eqn:Hs; [|done]. cbn.
  apply map_Forall_insert_2; [|done]. apply Hm. by eapply Hsv.
Qed.

Lemma same_membership_consistent {A} (m : M Session.t A) :
  preserves same_membership m →
  ∀ s, membership_consistent s → membership_consistent (state (m s)).
Proof. intros Hm s. apply membership_consistent_same, Hm. Qed.

Lemma set_player_connections_consistent f :
  preserves keeps_consistent (modify (λ sv, set_player_connections (f sv) sv)).
Proof. apply preserves_modify. by intros sv Hsv. Qed.

Lemma remove_empty_sessions_consistent : preserves keeps_consistent remove_empty_sessions.
Proof.
  apply preserves_modify. intros sv Hsv sid s Hs. cbn in Hs.
  apply map_lookup_filter_Some in Hs as [Hs _]. by eapply Hsv.
Qed.

Ltac consistent_step :=
  lazymatch goal with
  | |- preserves keeps_consistent (on_session _ (handle_team_update _ _ _)) =>
      apply on_session_consistent; intros ?; apply handle_team_update_consistent
  | |- preserves keeps_consistent (on_session _ _) =>
      apply on_session_consistent, same_membership_consistent
  | |- preserves keeps_consistent (modify (λ sv, set_player_connections _ sv)) =>
      apply set_player_connections_consistent
  | |- preserves keeps_consistent remove_empty_sessions =>
      apply remove_empty_sessions_consistent
  | |- preserves keeps_consistent (if _ then _ else _) => case_match
  | |- preserves same_membership (handle_position_update _ _ _ _ _) =>
      apply handle_position_update_same_membership
  | |- preserves same_membership (handle_chat _ _ _ _ _) =>
      apply handle_chat_same_membership
  | |- preserves same_membership (handle_alert _ _ _ _ _) =>
      apply handle_alert_same_membership
  | |- preserves same_membership (handle_marker _ _ _ _ _) =>
      apply handle_marker_same_membership
  | |- preserves same_membership (sweep_session _ _) =>
      apply sweep_session_same_membership
  | |- preserves same_membership _ => same_membership_step
  | |- _ => preserves_step
  end.

Lemma handle_message_consistent u1 u2 now pid sid d :
  preserves keeps_consistent (handle_message u1 u2 now pid sid d).
Proof. unfold handle_message. repeat consistent_step. Qed.

Lemma handle_disconnect_consistent u now pid sid :
  preserves keeps_consistent (handle_disconnect u now pid sid).
Proof. unfold handle_disconnect. repeat consistent_step. Qed.

Lemma update_tick_consistent uuid_of now :
  preserves keeps_consistent (update_tick uuid_of now).
Proof.
  unfold update_tick. consistent_step; [consistent_step|].
  consistent_step; [|consistent_step]. consistent_step. destruct x as [sid ?].
  repeat consistent_step.
Qed.

Lemma create_session_consistent us ua ub now :
  ua ≠ ub → ua ≠ "" → ub ≠ "" →
  membership_consistent (create_session us ua ub now).
Proof.
  intros Hne Ha Hb. unfold membership_consistent.
  rewrite create_session_teams by done. cbn.
  split; [by rewrite !decide_False by done|]. split; [by intros|].
  intros t team pid Hteam Hin. repeat case_decide; simplify_eq; set_solver.
Qed.

Lemma handle_auth_consistent ws us ua ub up ud now data sv :
  server_consistent sv →
  fresh_ids sv (EvAuth ws us ua ub up ud now data) →
  server_consistent (state (handle_auth ws us ua ub up ud now data sv)).
Proof.
  intros Hsv [Hup Hhost]. unfold handle_auth.
  case_decide; [done|]. rewrite run_get.
  assert (∀ sv1 sid s0,
            server_consistent sv1 → sessions sv1 !! sid = Some s0 →
            Session.players s0 !! up = None →
            server_consistent
              (state
                 ((player ← on_session sid
                     (join_session ws up now (strip (auth_callsign data))
                        (auth_is_host data) (auth_device_info data)) ;
                   modify (λ sv, set_player_connections
                                   (<[up := ws]> (player_connections sv)) sv) ;;
                   on_session sid
                     (send_auth_response player ;;
                      broadcast_player_update ud now player "add") ;;
                   mret (Some up, Some sid)) sv1))) as Hjoin.
  { intros sv1 sid s0 Hsv1 Hs0 Hfresh.
    destruct (join_session_returns ws up now (strip (auth_callsign data))
                (auth_is_host data) (auth_device_info data) s0) as (s1 & player & Hr1).
    rewrite (authenticate_run _ _ _ _ _ _ _ _ _ _ _ _ Hs0 Hr1). cbn [state sessions].
    apply map_Forall_insert_2; [|done].
    rewrite send_then_broadcast_state.
    assert (membership_consistent s1) as Hs1.
    { replace s1 with (state (join_session ws up now (strip (auth_callsign data))
                                (auth_is_host data) (auth_device_info data) s0))
        by (by rewrite Hr1).
      apply join_session_consistent; [by eapply Hsv1|done]. }
    destruct Hs1 as (? & ? & ?). by split. }
  destruct (auth_is_host data) eqn:Hh; cbn [negb andb].
  - destruct (Hhost eq_refl) as (Hnone & Hne & Ha & Hb).
    rewrite run_modify. apply Hjoin with (s0 := create_session us ua ub now).
    + apply map_Forall_insert_2; [by apply create_session_consistent|done].
    + cbn. apply lookup_insert_eq.
    + apply lookup_empty.
  - case_bool_decide as Hlook; [done|].
    rewrite (run_bind (mret ()) _ sv sv [] ()) by done.
    destruct (sessions sv !! strip (auth_session_id data)) as [s0|] eqn:Hs0; [|done].
    apply Hjoin with (s0 := s0); [done|done|]. by eapply Hup.
Qed.

Lemma step_consistent e sv :
  server_consistent sv → fresh_ids sv e → server_consistent (state (step e sv)).
Proof.
  intros Hsv Hfresh. destruct e; cbn [step].
  - rewrite state_bind_ret. by apply handle_auth_consistent.
  - by apply handle_message_consistent.
  - by apply handle_disconnect_consistent.
  - by apply update_tick_consistent.
Qed.

Lemma reachable_consistent sv : reachable sv → server_consistent sv.
Proof.
  induction 1 as [|sv e _ IH Hfresh]; [|by apply step_consistent].
  apply map_Forall_empty.
Qed.

Lemma membership_consistent_ok s : membership_consistent s → team_membership_ok s.
Proof.
  intros (Hc & Ha & Hb) pid p t Hp Ht.
  destruct (Ha pid p t Hp Ht) as (team & Hteam & Hin).
  exists team. split; [done|]. split; [done|].
  intros t' team' Hteam' Hin'.
  destruct (Hb t' team' pid Hteam' Hin') as (p' & Hp' & Ht'). congruence.
Qed.

(** C7.  In every state the server can reach, and hence after every
    authentication, message, team reassignment, disconnect and maintenance
    tick applied to such a state, a player with a team references a team of
    its session whose member set holds the player's id, and no other team of
    the session lists that id.  A reassignment returns normally, takes the
    player out of the old team's member set and puts it into the new one's
    within the one handler run. *)
Theorem team_membership_invariant sv :
  reachable sv →
  (∀ sid s, sessions sv !! sid = Some s → team_membership_ok s)
  ∧ (∀ e sid s,
       fresh_ids sv e →
       sessions (state (step e sv)) !! sid = Some s → team_membership_ok s)
  ∧ (∀ u now sid s pid p old new tn,
       sessions sv !! sid = Some s →
       Session.players s !! pid = Some p →
       Player.team_id p = Some old →
       odict.get new (Session.teams s) = Some tn →
       let r := handle_team_update u now (AssignPlayer pid new) s in
       returned r
       ∧ (∃ p' team',
            Session.players (state r) !! pid = Some p'
            ∧ Player.team_id p' = Some new
            ∧ odict.get new (Session.teams (state r)) = Some team'
            ∧ pid ∈ Team.players team')
       ∧ (old ≠ new →
          ∃ team_old, odict.get old (Session.teams (state r)) = Some team_old
                      ∧ pid ∉ Team.players team_old)
       ∧ team_membership_ok (state r)).
Proof.
  intros Hreach. pose proof (reachable_consistent sv Hreach) as Hsv.
  split; [|split].
  - intros sid s Hs. apply membership_consistent_ok. by eapply Hsv.
  - intros e sid s Hfresh Hs. apply membership_consistent_ok.
    by eapply (step_consistent e sv Hsv Hfresh).
  - intros u now sid s pid p old new tn Hs Hp Hold Hnew r.
    assert (membership_consistent s) as Hinv by (by eapply Hsv).
    assert (membership_consistent (state r)) as Hinv'
      by (by apply handle_team_update_consistent).
    pose proof (handle_team_update_run u now pid new s p Hinv Hp (mk_is_Some _ _ Hnew))
      as Hrun.
    cbv zeta in Hrun. fold r in Hrun. rewrite Hold in Hrun.
    destruct Hinv as (Hc & Ha & Hb).
    destruct (Ha pid p old Hp Hold) as (to & Hto & Hin).
    split; [rewrite Hrun; by exists ()|].
    split; [|split; [|by apply membership_consistent_ok]].
    + rewrite Hrun, broadcast_delta_run.
      cbn [state Session.players Session.teams Session.set_teams Session.set_players
           Session.set_sequence_number].
      assert (is_Some (odict.get new
                (odict.alter (λ t, Team.set_players (Team.players t ∖ {[pid]}) t) old
                   (Session.teams s)))) as [tn' Htn'].
      { rewrite odict_get_alter, Hnew. case_decide; by eexists. }
      exists (Player.set_team_id (Some new) p).
      exists (Team.set_players (Team.players tn' ∪ {[pid]}) tn').
      split; [apply lookup_insert_eq|]. split; [done|].
      split; [by rewrite odict_get_alter, decide_True, Htn'|]. cbn. set_solver.
    + intros Hne. rewrite Hrun, broadcast_delta_run.
      cbn [state Session.players Session.teams Session.set_teams Session.set_players
           Session.set_sequence_number].
      exists (Team.set_players (Team.players to ∖ {[pid]}) to).
      split; [|cbn; set_solver].
      rewrite odict_get_alter, decide_False by done.
      by rewrite odict_get_alter, decide_True, Hto.
Qed.


(** ** Tactical alerts *)

(** C10.  An alert is stored as one event with visibility [TEAM], whatever
    visibility the request names, whose content is the upper-case alert type,
    [" - "] and the sender's callsign and whose location is the one sent or,
    when none is sent, the sender's stored position; the event is broadcast
    once, with the sender's team as scope. *)
Theorem alert_is_team_event u1 u2 now player data s :
  let location :=
    match alert_location data with
    | Some location_data => Some (Position.of_kwargs now location_data)
    | None => Player.position player
    end in
  let content :=
    match alert_type data with
    | CONTACT => "CONTACT" | DANGER => "DANGER" | RALLY => "RALLY" | HELP => "HELP"
    end +:+ " - " +:+ Player.callsign player in
  let message :=
    Message.mk u1 (Player.player_id player) (Player.team_id player) TEAM "alert"
      content now location in
  let delta := [StateDelta.mk_change "add" "message" u1 (DMessage message) now None] in
  handle_alert u1 u2 now player data s =
    broadcast_delta u2 now delta (Player.team_id player)
      (Session.set_messages (Session.messages s ++ [message])%list s)
  ∧ Message.visibility message = TEAM
  ∧ (alert_location data = None → Message.location message = Player.position player)
  ∧ (∀ visibility,
       handle_alert u1 u2 now player
         (mk_alert (alert_type data) (alert_location data) visibility) s =
       handle_alert u1 u2 now player data s).
Proof.
  cbv zeta. split; [|split; [done|split]].
  - unfold handle_alert. rewrite run_modify. by destruct (alert_type data).
  - by intros ->.
  - done.
Qed.


(* ================================================================= *)
(** * Further properties of the handlers *)

(** ** Authentication *)

Lemma join_session_outcome ws up now callsign is_host device_info s0 :
  let player :=
    Player.mk up callsign (choose_team s0) CONNECTED now None device_info (Some ws) in
  ∃ s1,
    join_session ws up now callsign is_host device_info s0 =
      mk_outcome s1 [] (inr player)
    ∧ Session.players s1 = <[up := player]> (Session.players s0)
    ∧ Session.sequence_number s1 = Session.sequence_number s0
    ∧ Session.session_id s1 = Session.session_id s0
    ∧ Session.host_id s1 = (if is_host then Some up else Session.host_id s0).
Proof.
  cbv zeta. destruct (choose_team s0) as [tid|] eqn:Hchoose.
  - rewrite (join_session_run _ _ _ _ _ _ _ _ Hchoose). cbv zeta.
    eexists. split; [reflexivity|]. by destruct is_host.
  - unfold join_session. rewrite run_get. cbn [Player.team_id]. rewrite Hchoose.
    destruct is_host; eexists; (split; [reflexivity|]); done.
Qed.

Lemma handle_auth_rejected ws us ua ub up ud now data sv :
  strip (auth_callsign data) = ""
  ∨ (auth_is_host data = false ∧ sessions sv !! strip (auth_session_id data) = None) →
  handle_auth ws us ua ub up ud now data sv =
  mk_outcome sv
    [mk_send ws (ERROR (if decide (strip (auth_callsign data) = "")
                        then "Callsign required" else "Session not found"))]
    (inr (None, None)).
Proof.
  intros Hbad. unfold handle_auth. case_decide as Hcall; [done|].
  destruct Hbad as [?|[Hhost Hnone]]; [done|].
  rewrite run_get, Hhost. cbn [negb andb].
  by rewrite bool_decide_eq_true_2.
Qed.

(** X1.  An authentication whose callsign is empty or blank, or that joins a
    session id the server does not know, is answered with exactly one error
    message on the requesting connection, changes nothing and leaves the
    connection without player and session. *)
Theorem auth_rejected ws us ua ub up ud now data sv :
  strip (auth_callsign data) = ""
  ∨ (auth_is_host data = false ∧ sessions sv !! strip (auth_session_id data) = None) →
  handle_auth ws us ua ub up ud now data sv =
  mk_outcome sv
    [mk_send ws (ERROR (if decide (strip (auth_callsign data) = "")
                        then "Callsign required" else "Session not found"))]
    (inr (None, None)).
Proof. apply handle_auth_rejected. Qed.

Lemma handle_auth_accepted ws us ua ub up ud now data sv s0 :
  strip (auth_callsign data) ≠ "" →
  (if auth_is_host data then s0 = create_session us ua ub now
   else sessions sv !! strip (auth_session_id data) = Some s0) →
  let sid := if auth_is_host data then us else strip (auth_session_id data) in
  let player :=
    Player.mk up (strip (auth_callsign data)) (choose_team s0) CONNECTED now None
      (auth_device_info data) (Some ws) in
  let r := handle_auth ws us ua ub up ud now data sv in
  ∃ s1 snapshot,
    Session.players s1 = <[up := player]> (Session.players s0)
    ∧ result r = inr (Some up, Some sid)
    ∧ sessions (state r) =
      <[sid := Session.set_sequence_number (Session.sequence_number s0 + 1)%Z s1]>
        (sessions sv)
    ∧ player_connections (state r) = <[up := ws]> (player_connections sv)
    ∧ sent r =
      mk_send ws (AUTH_RESPONSE true up (choose_team s0) snapshot)
      :: sent (broadcast_player_update ud now player "add" s1)
    ∧ st_sequence_number snapshot = Session.sequence_number s0
    ∧ is_Some (st_players snapshot !! up)
    ∧ ∃ m, m ∈ sent (broadcast_player_update ud now player "add" s1)
           ∧ to m = ws
           ∧ carried m = Some (Session.sequence_number s0 + 1)%Z.
Proof.
  intros Hcall Hs0 sid player r.
  destruct (join_session_outcome ws up now (strip (auth_callsign data))
              (auth_is_host data) (auth_device_info data) s0)
    as (s1 & Hjoin & Hplayers & Hseq & Hsid & _).
  fold player in Hjoin, Hplayers.
  assert (r = mk_outcome
            (mk_server
               (<[sid := state ((send_auth_response player ;;
                                 broadcast_player_update ud now player "add") s1)]>
                  (sessions sv))
               (<[up := ws]> (player_connections sv)))
            (sent ((send_auth_response player ;;
                    broadcast_player_update ud now player "add") s1))
            (inr (Some up, Some sid))) as Hr.
  { subst r sid. unfold handle_auth. rewrite decide_False by done. rewrite run_get.
    destruct (auth_is_host data) eqn:Hhost; cbn [negb andb].
    - subst s0. rewrite run_modify.
      erewrite authenticate_run; [|cbn; apply lookup_insert_eq|exact Hjoin].
      cbn. by rewrite insert_insert_eq.
    - rewrite bool_decide_eq_false_2 by (rewrite Hs0; done).
      rewrite (run_bind (mret ()) _ sv sv [] ()) by done.
      erewrite authenticate_run; [|exact Hs0|exact Hjoin]. done. }
  rewrite send_then_broadcast_state in Hr.
  assert (sent ((send_auth_response player ;;
                 broadcast_player_update ud now player "add") s1) =
          mk_send ws (AUTH_RESPONSE true up (choose_team s0)
                        (get_filtered_state s1 (choose_team s0)))
          :: sent (broadcast_player_update ud now player "add" s1)) as Hsent
    by reflexivity.
  rewrite Hsent in Hr.
  exists s1, (get_filtered_state s1 (choose_team s0)).
  split; [exact Hplayers|]. rewrite Hr. cbn [result state sent sessions player_connections].
  split; [done|]. split; [by rewrite Hseq|]. split; [done|]. split; [done|].
  split; [exact Hseq|].
  split. { cbn. rewrite lookup_fmap, Hplayers, lookup_insert_eq. by eexists. }
  exists (mk_send ws (STATE_DELTA
            (StateDelta.to_dict ud now
               [StateDelta.mk_change "add" "player" up (DPlayer (player_data player))
                  now None]
               (Session.session_id s1) (Session.sequence_number s1 + 1)%Z))).
  split; [|split; [done|by rewrite <- Hseq]].
  unfold broadcast_player_update. apply broadcast_delta_sent.
  exists player. split; [|done]. apply recipients_all. exists up.
  rewrite Hplayers, lookup_insert_eq. split; [done|]. split; [done|by eexists].
Qed.

(** X2.  An accepted authentication registers the connection, stores the new
    player as connected, sends the requester first the snapshot, which
    already lists the new player and carries the session's current sequence
    number, and then broadcasts the join with the next number to every
    connected player of the session, the requester included. *)
Theorem auth_accepted ws us ua ub up ud now data sv s0 :
  strip (auth_callsign data) ≠ "" →
  (if auth_is_host data then s0 = create_session us ua ub now
   else sessions sv !! strip (auth_session_id data) = Some s0) →
  let sid := if auth_is_host data then us else strip (auth_session_id data) in
  let player :=
    Player.mk up (strip (auth_callsign data)) (choose_team s0) CONNECTED now None
      (auth_device_info data) (Some ws) in
  let r := handle_auth ws us ua ub up ud now data sv in
  ∃ s1 snapshot,
    Session.players s1 = <[up := player]> (Session.players s0)
    ∧ result r = inr (Some up, Some sid)
    ∧ sessions (state r) =
      <[sid := Session.set_sequence_number (Session.sequence_number s0 + 1)%Z s1]>
        (sessions sv)
    ∧ player_connections (state r) = <[up := ws]> (player_connections sv)
    ∧ sent r =
      mk_send ws (AUTH_RESPONSE true up (choose_team s0) snapshot)
      :: sent (broadcast_player_update ud now player "add" s1)
    ∧ st_sequence_number snapshot = Session.sequence_number s0
    ∧ is_Some (st_players snapshot !! up)
    ∧ ∃ m, m ∈ sent (broadcast_player_update ud now player "add" s1)
           ∧ to m = ws
           ∧ carried m = Some (Session.sequence_number s0 + 1)%Z.
Proof. apply handle_auth_accepted. Qed.

(** ** The receive loop *)

Lemma try_except_returns {S A} (m : M S A) handler s a :
  result (m s) = inr a → try_except m handler s = m s.
Proof. intros Hm. unfold try_except. by rewrite Hm. Qed.

Lemma try_except_raises {S A} (m : M S A) handler s e :
  result (m s) = inl e →
  try_except m handler s =
  mk_outcome (state (handler e (state (m s))))
    (sent (m s) ++ sent (handler e (state (m s))))%list
    (result (handler e (state (m s)))).
Proof. intros Hm. unfold try_except. by rewrite Hm. Qed.

(** X3.  A ping is answered with a pong whether or not the connection is
    authenticated, text that is not JSON with the error "Invalid JSON", and
    any other message on a connection without player or session with the
    error "Not authenticated"; in each case that one reply is all that is
    sent and neither the server state nor the connection's player and
    session change. *)
Theorem frame_answered_without_handler ws uuid now frame conn sv :
  match frame with
  | FrameAuth _ => False
  | FrameRequest _ =>
      truthy (conn_player_id conn) = None ∨ truthy (conn_session_id conn) = None
  | _ => True
  end →
  handle_frame ws uuid now frame conn sv =
  mk_outcome sv
    [mk_send ws
       match frame with
       | FramePing => PONG
       | FrameInvalid => ERROR "Invalid JSON"
       | _ => ERROR "Not authenticated"
       end]
    (inr conn).
Proof.
  intros Hframe. destruct frame as [data| |data|]; [done|done| |done].
  unfold handle_frame, dispatch.
  destruct Hframe as [->| ->]; [done|]. by destruct (truthy (conn_player_id conn)).
Qed.

Lemma handle_frame_returns ws uuid now frame conn sv :
  ∃ conn', result (handle_frame ws uuid now frame conn sv) = inr conn'.
Proof.
  assert (∀ m : M TacticalServer Connection,
            ∃ conn', result (try_except m
                       (λ e, send_error ws (Exn_str e) ;; mret conn) sv) = inr conn')
    as Htry.
  { intros m. unfold try_except. destruct (result (m sv)) as [e|a] eqn:Hm.
    - by exists conn.
    - exists a. exact Hm. }
  destruct frame; try apply Htry. by exists conn.
Qed.

Lemma receive_returns ws frames conn sv :
  ∃ conn', result (receive ws frames conn sv) = inr conn'.
Proof.
  revert conn sv. induction frames as [|[[frame uuid] now] frames IH]; intros conn sv.
  - by exists conn.
  - cbn [receive]. destruct (handle_frame_returns ws uuid now frame conn sv) as [c Hc].
    unfold mbind, M_bind. rewrite Hc. cbn [result]. apply IH.
Qed.

(** X4.  No exception of a handler leaves the receive loop: the loop returns
    for every sequence of messages, and when the dispatch of a message
    raises, what the handler had changed and sent stays, one error message
    carrying the text of the exception follows on the sender's connection,
    and the connection keeps its player and session. *)
Theorem handler_exception_reported ws uuid now frame conn sv e :
  frame ≠ FrameInvalid →
  result (dispatch ws uuid now frame conn sv) = inl e →
  handle_frame ws uuid now frame conn sv =
    mk_outcome (state (dispatch ws uuid now frame conn sv))
      (sent (dispatch ws uuid now frame conn sv) ++ [mk_send ws (ERROR (Exn_str e))])%list
      (inr conn)
  ∧ ∀ frames conn0 sv0, ∃ conn', result (receive ws frames conn0 sv0) = inr conn'.
Proof.
  intros Hframe Hraise. split; [|intros; apply receive_returns].
  unfold handle_frame. destruct frame; try done;
    by rewrite (try_except_raises _ _ _ _ Hraise).
Qed.

Lemma dispatch_auth_accepted ws uuid now data conn sv s0 :
  strip (auth_callsign data) ≠ "" →
  (if auth_is_host data then s0 = create_session (uuid 0%nat) (uuid 1%nat) (uuid 2%nat) now
   else sessions sv !! strip (auth_session_id data) = Some s0) →
  let sid := if auth_is_host data then uuid 0%nat else strip (auth_session_id data) in
  let r := handle_auth ws (uuid 0%nat) (uuid 1%nat) (uuid 2%nat) (uuid 3%nat)
             (uuid 4%nat) now data sv in
  handle_frame ws uuid now (FrameAuth data) conn sv =
  mk_outcome (state r) (sent r)
    (inr (mk_connection (Some (uuid 3%nat)) (Some sid))).
Proof.
  intros Hcall Hs0. cbv zeta.
  destruct (handle_auth_accepted ws (uuid 0%nat) (uuid 1%nat) (uuid 2%nat) (uuid 3%nat)
              (uuid 4%nat) now data sv s0 Hcall Hs0) as (s1 & snap & _ & Hres & _).
  destruct (handle_auth ws (uuid 0%nat) (uuid 1%nat) (uuid 2%nat) (uuid 3%nat)
              (uuid 4%nat) now data sv) as [st out res] eqn:Er.
  cbn in Hres. subst res. cbn [state sent].
  assert (dispatch ws uuid now (FrameAuth data) conn sv =
          mk_outcome st out
            (inr (mk_connection (Some (uuid 3%nat))
                    (Some (if auth_is_host data then uuid 0%nat
                           else strip (auth_session_id data)))))) as Hd.
  { unfold dispatch. rewrite (run_bind _ _ _ _ _ _ Er). cbn. by rewrite app_nil_r. }
  unfold handle_frame. rewrite (try_except_returns _ _ _ _ (f_equal result Hd)). exact Hd.
Qed.

(** X5.  A connection that authenticates and is then closed leaves its player
    disconnected; but if a rejected authentication (blank callsign, or a
    session id that is not registered) follows the accepted one on the same
    connection, the connection forgets its player: closing it runs no
    disconnect, and the player stays stored as connected, with its
    connection handle and its entry in the connection table. *)
Theorem rejected_auth_forgets_player ws uuid now data uuid' now' data' uc nowc sv s0 :
  strip (auth_callsign data) ≠ "" →
  (if auth_is_host data then s0 = create_session (uuid 0%nat) (uuid 1%nat) (uuid 2%nat) now
   else sessions sv !! strip (auth_session_id data) = Some s0) →
  let sid := if auth_is_host data then uuid 0%nat else strip (auth_session_id data) in
  let up := uuid 3%nat in
  let joined :=
    handle_auth ws (uuid 0%nat) (uuid 1%nat) (uuid 2%nat) up (uuid 4%nat) now data sv in
  strip (auth_callsign data') = ""
  ∨ (auth_is_host data' = false
     ∧ sessions (state joined) !! strip (auth_session_id data') = None) →
  up ≠ "" → sid ≠ "" →
  let closed := handle_connection ws [(FrameAuth data, uuid, now)] uc nowc sv in
  let forgot :=
    handle_connection ws
      [(FrameAuth data, uuid, now); (FrameAuth data', uuid', now')] uc nowc sv in
  (∃ s p, sessions (state closed) !! sid = Some s
          ∧ Session.players s !! up = Some p
          ∧ Player.connection_status p = DISCONNECTED
          ∧ Player.websocket p = None
          ∧ player_connections (state closed) !! up = None)
  ∧ (∃ s p, sessions (state forgot) !! sid = Some s
            ∧ Session.players s !! up = Some p
            ∧ Player.connection_status p = CONNECTED
            ∧ Player.websocket p = Some ws
            ∧ player_connections (state forgot) !! up = Some ws)
  ∧ state forgot = state joined.
Proof.
  intros Hcall Hs0 sid up joined Hbad Hup Hsid closed forgot. subst joined.
  pose proof (dispatch_auth_accepted ws uuid now data unauthenticated sv s0 Hcall Hs0)
    as Hframe. cbv zeta in Hframe. fold sid up in Hframe.
  destruct (handle_auth_accepted ws (uuid 0%nat) (uuid 1%nat) (uuid 2%nat) up (uuid 4%nat)
              now data sv s0 Hcall Hs0)
    as (s1 & snap & Hplayers & _ & Hsessions & Hconns & _).
  fold sid in Hsessions.
  set (r := handle_auth ws (uuid 0%nat) (uuid 1%nat) (uuid 2%nat) up (uuid 4%nat)
              now data sv) in *.
  set (s2 := Session.set_sequence_number (Session.sequence_number s0 + 1)%Z s1) in *.
  set (player := Player.mk up (strip (auth_callsign data)) (choose_team s0) CONNECTED
                   now None (auth_device_info data) (Some ws)) in *.
  assert (sessions (state r) !! sid = Some s2) as Hs2
    by (rewrite Hsessions; apply lookup_insert_eq).
  assert (Session.players s2 !! up = Some player) as Hp
    by (cbn; rewrite Hplayers; apply lookup_insert_eq).
  assert (truthy (Some up) = Some up ∧ truthy (Some sid) = Some sid) as [Htup Htsid]
    by (split; by apply truthy_Some).
  split; [|split].
  - subst closed. unfold handle_connection. cbn [receive].
    erewrite run_bind; last first.
    { erewrite run_bind; [|exact Hframe]. reflexivity. }
    unfold handle_close. cbn [conn_player_id conn_session_id]. rewrite Htup, Htsid.
    unfold mret, M_ret. cbn [state].
    rewrite (handle_disconnect_run uc nowc up sid (state r) s2 player Hs2 Hp)
      by (rewrite Hconns, lookup_insert_eq; by eexists).
    cbn [state sessions player_connections].
    eexists _, _. rewrite lookup_insert_eq. split; [done|].
    rewrite lookup_delete_eq. unfold broadcast_player_update. rewrite broadcast_delta_run.
    cbn. rewrite lookup_insert_eq. done.
  - subst forgot. unfold handle_connection. cbn [receive].
    erewrite run_bind; last first.
    { erewrite run_bind; [|exact Hframe].
      erewrite run_bind; last first.
      { unfold handle_frame. erewrite try_except_returns.
        - unfold dispatch. erewrite run_bind; [|by apply handle_auth_rejected].
          reflexivity.
        - unfold dispatch. erewrite run_bind; [|by apply handle_auth_rejected].
          reflexivity. }
      reflexivity. }
    cbn. exists s2, player. rewrite Hconns, lookup_insert_eq. done.
  - subst forgot. unfold handle_connection. cbn [receive].
    erewrite run_bind; last first.
    { erewrite run_bind; [|exact Hframe].
      erewrite run_bind; last first.
      { unfold handle_frame. erewrite try_except_returns.
        - unfold dispatch. erewrite run_bind; [|by apply handle_auth_rejected].
          reflexivity.
        - unfold dispatch. erewrite run_bind; [|by apply handle_auth_rejected].
          reflexivity. }
      reflexivity. }
    done.
Qed.


(** ** Closing a connection *)






(** ** Messages that are silently ignored *)

(** X6.  A message of an authenticated connection is dropped without any
    effect (no state change, nothing sent, no exception) when its session is
    no longer registered, when its player is not in the session, when its
    type is not one the server handles, when it is a team update sent by a
    player other than the host, and when the host's team update names an
    unknown player, an unknown team or another action. *)
Theorem message_ignored u1 u2 now pid sid data sv :
  sessions sv !! sid = None
  ∨ (∃ s, sessions sv !! sid = Some s
          ∧ (Session.players s !! pid = None
             ∨ data = OTHER
             ∨ ∃ d, data = TEAM_UPDATE d
                    ∧ (Some pid ≠ Session.host_id s
                       ∨ match d with
                         | AssignPlayer player_id team_id =>
                             Session.players s !! player_id = None
                             ∨ odict.get team_id (Session.teams s) = None
                         | TeamUpdateOther => True
                         end))) →
  handle_message u1 u2 now pid sid data sv = mk_outcome sv [] (inr ()).
Proof.
  intros Hcase. unfold handle_message. rewrite run_get.
  destruct Hcase as [->|(s & Hs & Hcase)]; [done|]. rewrite Hs.
  destruct (Session.players s !! pid) as [player|] eqn:Hp; [|reflexivity].
  destruct Hcase as [?|[->|(d & -> & Hd)]]; [congruence|reflexivity|].
  case_decide as Hhost; [|done].
  destruct Hd as [?|Hd]; [done|].
  apply (on_session_unchanged _ _ _ s); [done|].
  unfold handle_team_update. destruct d as [player_id team_id|]; [|done].
  rewrite run_get. destruct Hd as [->|Hteam]; [done|].
  rewrite Hteam. by destruct (Session.players s !! player_id).
Qed.

(** ** Scope resolution of a broadcast *)

(** X7.  A broadcast always consumes one sequence number.  Addressed to a
    team id that is not a team of the session it sends nothing; with the team
    id [None] or empty it is not restricted at all and reaches every
    connected player of the session. *)
Theorem broadcast_scope_edges uuid now delta team_id session :
  let r := broadcast_delta uuid now delta team_id session in
  Session.sequence_number (state r) = (Session.sequence_number session + 1)%Z
  ∧ (∀ tid, team_id = Some tid → tid ≠ "" →
       odict.get tid (Session.teams session) = None → sent r = [])
  ∧ (team_id = None ∨ team_id = Some "" →
     sent r = sent (broadcast_delta uuid now delta None session)
     ∧ ∀ pid p ws,
         Session.players session !! pid = Some p →
         Player.connection_status p = CONNECTED →
         Player.websocket p = Some ws →
         ∃ m, m ∈ sent r ∧ to m = ws
              ∧ carried m = Some (Session.sequence_number session + 1)%Z).
Proof.
  cbv zeta. split; [done|]. split.
  - intros tid -> Hne Hteam. rewrite broadcast_delta_run. cbn [sent].
    destruct (recipients_unknown_team session tid Hteam) as [->|?]; done.
  - intros Hnone.
    assert (sent (broadcast_delta uuid now delta team_id session) =
            sent (broadcast_delta uuid now delta None session)) as Heq
      by (by destruct Hnone as [->| ->]).
    split; [exact Heq|]. intros pid p ws Hp Hstatus Hws. rewrite Heq.
    exists (mk_send ws (STATE_DELTA
              (StateDelta.to_dict uuid now delta (Session.session_id session)
                 (Session.sequence_number session + 1)%Z))).
    split; [|done]. apply broadcast_delta_sent. exists p. split; [|done].
    apply recipients_all. exists pid. split; [done|]. split; [done|by eexists].
Qed.

(** ** Disconnecting *)

(** X8.  A disconnect for a session that is not registered or a player that
    is not in the session does nothing.  For a stored player without an entry
    in the connection table the player is still marked disconnected and loses
    its handle, but the handler then raises [KeyError] for the player id:
    nothing is broadcast and the sequence number stays. *)
Theorem disconnect_edges uuid now pid sid sv :
  (sessions sv !! sid = None
   ∨ (∃ s, sessions sv !! sid = Some s ∧ Session.players s !! pid = None) →
   handle_disconnect uuid now pid sid sv = mk_outcome sv [] (inr ()))
  ∧ (∀ s p,
       sessions sv !! sid = Some s →
       Session.players s !! pid = Some p →
       player_connections sv !! pid = None →
       handle_disconnect uuid now pid sid sv =
       mk_outcome
         (set_sessions
            (<[sid := Session.set_players
                        (<[pid := Player.set_websocket None
                                    (Player.set_connection_status DISCONNECTED p)]>
                           (Session.players s)) s]> (sessions sv)) sv)
         [] (inl (KeyError (Some pid)))).
Proof.
  split.
  - intros Hcase. unfold handle_disconnect. rewrite run_get.
    destruct Hcase as [->|(s & -> & ->)]; done.
  - intros s p Hs Hp Hconn. unfold handle_disconnect. rewrite run_get, Hs, Hp.
    erewrite run_bind; last first.
    { rewrite (on_session_run _ _ _ _ Hs). unfold update_player. cbn.
      rewrite (alter_lookup_insert _ _ _ _ Hp). reflexivity. }
    rewrite bool_decide_eq_false_2 by (rewrite Hconn; by intros [? ?]).
    done.
Qed.


(** ** Markers *)

Lemma broadcast_by_visibility_run uuid now delta visibility player s :
  broadcast_by_visibility uuid now delta visibility player s =
  broadcast_delta uuid now delta
    (if decide (visibility = TEAM) then Player.team_id player else None) s.
Proof. unfold broadcast_by_visibility. by case_decide. Qed.

Lemma run_bind_raise {S A B} (m : M S A) (f : A → M S B) s s1 out e :
  m s = mk_outcome s1 out (inl e) →
  (m ≫= f) s = mk_outcome s1 out (inl e).
Proof. intros Hm. unfold mbind, M_bind. by rewrite Hm. Qed.

Lemma update_team_raises tid f s :
  tid = None ∨ (∃ t, tid = Some t ∧ odict.get t (Session.teams s) = None) →
  update_team tid f s = mk_outcome s [] (inl (KeyError tid)).
Proof.
  intros [->|(t & -> & Hget)]; unfold update_team; rewrite run_get; [done|].
  by rewrite Hget.
Qed.

Lemma handle_marker_create_raises u1 u2 now player md s :
  Player.team_id player = None
  ∨ (∃ t, Player.team_id player = Some t ∧ odict.get t (Session.teams s) = None) →
  handle_marker u1 u2 now player (MarkerCreate md) s =
  mk_outcome
    (Session.set_markers
       (<[u1 := Marker.mk u1 (md_type md) (Player.player_id player)
                  (Player.team_id player) (default TEAM (md_visibility md))
                  (Position.of_kwargs now (md_position md))
                  (default ∅ (md_properties md)) now None]> (Session.markers s)) s)
    [] (inl (KeyError (Player.team_id player))).
Proof.
  intros Hteam. unfold handle_marker. rewrite run_modify. cbn [Marker.marker_id].
  erewrite run_bind_raise; [done|]. by apply update_team_raises.
Qed.

Lemma handle_marker_create_run u1 u2 now player md s t team :
  Player.team_id player = Some t →
  odict.get t (Session.teams s) = Some team →
  let marker :=
    Marker.mk u1 (md_type md) (Player.player_id player) (Some t)
      (default TEAM (md_visibility md)) (Position.of_kwargs now (md_position md))
      (default ∅ (md_properties md)) now None in
  let s' :=
    Session.set_teams
      (odict.alter (λ x, Team.set_markers (Team.markers x ∪ {[u1]}) x) t
         (Session.teams s))
      (Session.set_markers (<[u1 := marker]> (Session.markers s)) s) in
  handle_marker u1 u2 now player (MarkerCreate md) s =
  broadcast_delta u2 now
    [StateDelta.mk_change "add" "marker" u1 (DMarker marker) now None]
    (if decide (Marker.visibility marker = TEAM) then Some t else None) s'.
Proof.
  intros Hteam Hget. cbv zeta. unfold handle_marker. rewrite Hteam.
  rewrite run_modify. cbn [Marker.marker_id].
  erewrite run_bind; [|by apply (update_team_run t _ _ team)].
  rewrite broadcast_by_visibility_run, Hteam. done.
Qed.

Lemma handle_marker_update_run u1 u2 now player mid new s marker :
  Session.markers s !! mid = Some marker →
  Marker.created_by marker = Player.player_id player →
  let marker' :=
    match new with
    | Some props => Marker.set_properties (props ∪ Marker.properties marker) marker
    | None => marker
    end in
  handle_marker u1 u2 now player (MarkerUpdate mid (Some new)) s =
  broadcast_delta u2 now
    [StateDelta.mk_change "update" "marker" mid
       (DProperties (Marker.properties marker')) now None]
    (if decide (Marker.visibility marker = TEAM) then Player.team_id player else None)
    (Session.set_markers (<[mid := marker']> (Session.markers s)) s).
Proof.
  intros Hm Hown. cbv zeta. unfold handle_marker. rewrite run_get, Hm.
  rewrite decide_True by done. rewrite run_modify.
  by rewrite broadcast_by_visibility_run.
Qed.

Lemma handle_marker_delete_run u1 u2 now player mid s marker t team :
  Session.markers s !! mid = Some marker →
  Marker.created_by marker = Player.player_id player →
  Marker.team_id marker = Some t →
  odict.get t (Session.teams s) = Some team →
  handle_marker u1 u2 now player (MarkerDelete mid) s =
  broadcast_delta u2 now
    [StateDelta.mk_change "remove" "marker" mid DEmpty now None]
    (if decide (Marker.visibility marker = TEAM) then Player.team_id player else None)
    (Session.set_teams
       (odict.alter (λ x, Team.set_markers (Team.markers x ∖ {[mid]}) x) t
          (Session.teams s))
       (Session.set_markers (delete mid (Session.markers s)) s)).
Proof.
  intros Hm Hown Hteam Hget. unfold handle_marker. rewrite run_get, Hm.
  rewrite decide_True by done. rewrite run_modify, Hteam.
  erewrite run_bind; [|by apply (update_team_run t _ _ team)].
  by rewrite broadcast_by_visibility_run.
Qed.

(** X9.  Creating a marker stores it under the new id with the sender as
    creator, the sender's team as owner and visibility "team" unless the
    request says otherwise, adds the id to the owning team's marker set and
    broadcasts it once.  If the sender's team is not a team of the session,
    the marker is stored all the same, but the handler then raises
    [KeyError]: no team lists the marker and nothing is broadcast. *)
Theorem marker_created u1 u2 now player md s :
  let marker :=
    Marker.mk u1 (md_type md) (Player.player_id player) (Player.team_id player)
      (default TEAM (md_visibility md)) (Position.of_kwargs now (md_position md))
      (default ∅ (md_properties md)) now None in
  let r := handle_marker u1 u2 now player (MarkerCreate md) s in
  Session.markers (state r) = <[u1 := marker]> (Session.markers s)
  ∧ (∀ t team,
       Player.team_id player = Some t →
       odict.get t (Session.teams s) = Some team →
       returned r
       ∧ odict.get t (Session.teams (state r)) =
         Some (Team.set_markers (Team.markers team ∪ {[u1]}) team)
       ∧ Session.sequence_number (state r) = (Session.sequence_number s + 1)%Z)
  ∧ (Player.team_id player = None
     ∨ (∃ t, Player.team_id player = Some t
             ∧ odict.get t (Session.teams s) = None) →
     result r = inl (KeyError (Player.team_id player))
     ∧ sent r = []
     ∧ Session.teams (state r) = Session.teams s
     ∧ Session.sequence_number (state r) = Session.sequence_number s).
Proof.
  cbv zeta. split; [|split].
  - destruct (Player.team_id player) as [t|] eqn:Hteam.
    + destruct (odict.get t (Session.teams s)) as [team|] eqn:Hget.
      * rewrite (handle_marker_create_run _ _ _ _ _ _ _ _ Hteam Hget).
        done.
      * rewrite handle_marker_create_raises by eauto. by rewrite ?Hteam.
    + rewrite handle_marker_create_raises by eauto. by rewrite ?Hteam.
  - intros t team Hteam Hget.
    rewrite (handle_marker_create_run _ _ _ _ _ _ _ _ Hteam Hget). cbv zeta.
    split; [by exists ()|]. split; [|done].
    rewrite broadcast_delta_run. cbn. by rewrite odict_get_alter, decide_True, Hget.
  - intros Hbad. by rewrite handle_marker_create_raises.
Qed.

(** X10.  An update request from the marker's creator merges the request's
    properties over the stored ones (the request wins on a shared key, every
    other stored key is kept), leaves every other field of the marker, the
    other markers and the teams alone, and is announced by one broadcast,
    also when the request carries no "properties" at all. *)
Theorem owner_updates_marker u1 u2 now player mid new s marker :
  Session.markers s !! mid = Some marker →
  Marker.created_by marker = Player.player_id player →
  let r := handle_marker u1 u2 now player (MarkerUpdate mid (Some new)) s in
  returned r
  ∧ (∃ marker',
       Session.markers (state r) = <[mid := marker']> (Session.markers s)
       ∧ Marker.set_properties (Marker.properties marker) marker' = marker
       ∧ ∀ k, Marker.properties marker' !! k =
              match new ≫= (.!! k) with
              | Some v => Some v
              | None => Marker.properties marker !! k
              end)
  ∧ Session.teams (state r) = Session.teams s
  ∧ Session.sequence_number (state r) = (Session.sequence_number s + 1)%Z.
Proof.
  intros Hm Hown. cbv zeta.
  rewrite (handle_marker_update_run _ _ _ _ _ _ _ _ Hm Hown). cbv zeta.
  rewrite broadcast_delta_run. cbn.
  split; [by exists ()|]. split; [|done].
  eexists. split; [done|]. destruct new as [props|]; cbn.
  - split; [by destruct marker|]. intros k. rewrite lookup_union.
    destruct (props !! k), (Marker.properties marker !! k); done.
  - split; [by destruct marker|done].
Qed.

(** X11.  A delete request from the marker's creator removes the marker from
    the session and from the marker set of the team that owns it, is
    announced by one broadcast, and from then on no snapshot shows the
    marker, whichever team asks. *)
Theorem owner_deletes_marker u1 u2 now player mid s marker t team :
  Session.markers s !! mid = Some marker →
  Marker.created_by marker = Player.player_id player →
  Marker.team_id marker = Some t →
  odict.get t (Session.teams s) = Some team →
  let r := handle_marker u1 u2 now player (MarkerDelete mid) s in
  returned r
  ∧ Session.markers (state r) = delete mid (Session.markers s)
  ∧ odict.get t (Session.teams (state r)) =
    Some (Team.set_markers (Team.markers team ∖ {[mid]}) team)
  ∧ Session.sequence_number (state r) = (Session.sequence_number s + 1)%Z
  ∧ ∀ viewer, st_markers (get_filtered_state (state r) viewer) !! mid = None.
Proof.
  intros Hm Hown Hteam Hget. cbv zeta.
  rewrite (handle_marker_delete_run _ _ _ _ _ _ _ _ _ Hm Hown Hteam Hget).
  rewrite broadcast_delta_run. cbn.
  split; [by exists ()|]. split; [done|]. split.
  { by rewrite odict_get_alter, decide_True, Hget. }
  split; [done|]. intros viewer.
  apply map_lookup_filter_None. left. apply lookup_delete_eq.
Qed.

Lemma odict_alter_alter {V} (f g : V → V) k (d : list (string * V)) :
  odict.alter f k (odict.alter g k d) = odict.alter (f ∘ g) k d.
Proof.
  induction d as [|[k0 v] d IH]; cbn; [done|].
  case_decide; cbn; [by rewrite decide_True|].
  rewrite decide_False by done. by f_equal.
Qed.

Lemma odict_alter_id {V} (f : V → V) k (d : list (string * V)) :
  (∀ v, odict.get k d = Some v → f v = v) → odict.alter f k d = d.
Proof.
  induction d as [|[k0 v] d IH]; cbn; [done|]. intros Hf.
  case_decide; simplify_eq; [by rewrite Hf|].
  f_equal. by apply IH.
Qed.

(** X12.  Create then delete is a round trip: when a player creates a marker
    under an id that is not in use and later deletes it, the session is back
    where it was, markers and team marker sets included; only the sequence
    number has moved on, by the two broadcasts. *)
Theorem marker_create_delete_round_trip u1 u2 u3 u4 now now' player md s t team :
  Player.team_id player = Some t →
  odict.get t (Session.teams s) = Some team →
  Session.markers s !! u1 = None →
  u1 ∉ Team.markers team →
  let s1 := state (handle_marker u1 u2 now player (MarkerCreate md) s) in
  let r := handle_marker u3 u4 now' player (MarkerDelete u1) s1 in
  returned r
  ∧ state r = Session.set_sequence_number (Session.sequence_number s + 2)%Z s.
Proof.
  intros Hteam Hget Hfree Hnew. cbv zeta.
  rewrite (handle_marker_create_run _ _ _ _ _ _ _ _ Hteam Hget). cbv zeta.
  rewrite broadcast_delta_run. cbn [state].
  erewrite handle_marker_delete_run; cycle 1.
  - cbn. apply lookup_insert_eq.
  - done.
  - done.
  - cbn. rewrite odict_get_alter, decide_True, Hget by done. done.
  - rewrite broadcast_delta_run. cbn. split; [by exists ()|].
    rewrite delete_insert_id by done. rewrite odict_alter_alter.
    rewrite odict_alter_id.
    + destruct s.
      unfold Session.set_teams, Session.set_markers, Session.set_sequence_number.
      cbn. f_equal. lia.
    + intros v Hv. rewrite Hget in Hv. injection Hv as <-. cbn.
      destruct team as [a b c d ms]. unfold compose, Team.set_markers. cbn in *.
      f_equal. set_solver.
Qed.


(** ** Sessions and players over a run *)

#[local] Instance player_kept_preorder : PreOrder player_kept.
Proof.
  split; unfold player_kept.
  - by intros p.
  - intros a b c (? & ? & ? & ? & ?) (? & ? & ? & ? & ?).
    repeat split; [congruence..|auto|auto].
Qed.

#[local] Instance session_kept_preorder : PreOrder session_kept.
Proof.
  split; unfold session_kept.
  - intros s. repeat split; [done..|]. intros pid p Hp. by exists p.
  - intros a b c (? & ? & ? & Hab) (? & ? & ? & Hbc).
    repeat split; [congruence..|]. intros pid p Hp.
    destruct (Hab pid p Hp) as (p' & Hp' & ?).
    destruct (Hbc pid p' Hp') as (p'' & Hp'' & ?).
    exists p''. split; [done|]. by etrans.
Qed.

Lemma session_kept_populated s s' :
  session_kept s s' → Session.players s ≠ ∅ → Session.players s' ≠ ∅.
Proof.
  intros (_ & _ & _ & Hkept) Hne Hempty.
  destruct (map_choose _ Hne) as (pid & p & Hp).
  destruct (Hkept pid p Hp) as (p' & Hp' & _).
  by rewrite Hempty, lookup_empty in Hp'.
Qed.

#[local] Instance sessions_kept_preorder : PreOrder sessions_kept.
Proof.
  split; unfold sessions_kept.
  - intros sv sid s Hs _. by exists s.
  - intros a b c Hab Hbc sid s Hs Hne.
    destruct (Hab sid s Hs Hne) as (s' & Hs' & Hk).
    destruct (Hbc sid s' Hs') as (s'' & Hs'' & Hk');
      [by eapply session_kept_populated|].
    exists s''. split; [done|]. by etrans.
Qed.

#[local] Instance keeps_hosted_preorder : PreOrder keeps_hosted.
Proof.
  split; unfold keeps_hosted.
  - by intros sv Hsv.
  - intros a b c H1 H2 Ha. apply H2, H1, Ha.
Qed.

Lemma session_kept_same s s' :
  Session.session_id s' = Session.session_id s →
  Session.host_id s' = Session.host_id s →
  odict.keys (Session.teams s') = odict.keys (Session.teams s) →
  Session.players s' = Session.players s →
  session_kept s s'.
Proof.
  intros ? ? ? Hp. repeat split; [done..|]. intros pid p ?. exists p.
  by rewrite Hp.
Qed.

Lemma session_kept_hosted sid s s' : session_kept s s' → hosted sid s → hosted sid s'.
Proof.
  intros (Hid & Hhost & _ & Hkept) (<- & h & Hh & [p Hp]). split; [done|].
  exists h. split; [congruence|]. destruct (Hkept h p Hp) as (p' & -> & _). done.
Qed.

Lemma broadcast_delta_kept uuid now delta tid :
  preserves session_kept (broadcast_delta uuid now delta tid).
Proof. intros s. by apply session_kept_same. Qed.

Lemma update_player_kept pid f :
  (∀ p, player_kept p (f p)) → preserves session_kept (update_player pid f).
Proof.
  intros Hf s. repeat split; [done..|]. intros pid' p Hp. cbn.
  destruct (decide (pid = pid')) as [<-|Hne].
  - exists (f p). by rewrite lookup_alter_eq, Hp.
  - exists p. by rewrite lookup_alter_ne.
Qed.

Lemma update_team_kept tid f : preserves session_kept (update_team tid f).
Proof.
  intros s. unfold update_team. rewrite run_get.
  destruct tid as [t|]; [|done].
  destruct (odict.get t (Session.teams s)); [|done].
  apply session_kept_same; [done..| |done]. cbn. apply odict_keys_alter.
Qed.

Ltac kept_step :=
  lazymatch goal with
  | |- preserves session_kept (broadcast_delta _ _ _ _) => apply broadcast_delta_kept
  | |- preserves session_kept (broadcast_player_update _ _ _ _) =>
      apply broadcast_delta_kept
  | |- preserves session_kept (broadcast_by_visibility _ _ _ _ _) =>
      unfold broadcast_by_visibility; case_decide
  | |- preserves session_kept (update_player _ _) =>
      apply update_player_kept; intros []; unfold player_kept; cbn; naive_solver
  | |- preserves session_kept (update_team _ _) => apply update_team_kept
  | |- preserves session_kept (modify _) =>
      apply preserves_modify; intros ?; try case_match; by apply session_kept_same
  | |- preserves session_kept (let _ := _ in _) => cbv zeta
  | |- _ => preserves_step
  end.

Lemma handle_position_update_kept u now pid p d :
  preserves session_kept (handle_position_update u now pid p d).
Proof. unfold handle_position_update. repeat kept_step. Qed.

Lemma handle_chat_kept u1 u2 now p d : preserves session_kept (handle_chat u1 u2 now p d).
Proof. unfold handle_chat. repeat kept_step. Qed.

Lemma handle_alert_kept u1 u2 now p d : preserves session_kept (handle_alert u1 u2 now p d).
Proof. unfold handle_alert. repeat kept_step. Qed.

Lemma handle_marker_kept u1 u2 now p d :
  preserves session_kept (handle_marker u1 u2 now p d).
Proof. unfold handle_marker. repeat kept_step. Qed.

Lemma handle_team_update_kept u now d : preserves session_kept (handle_team_update u now d).
Proof. unfold handle_team_update. repeat kept_step. Qed.

Lemma sweep_session_kept uuid_of now : preserves session_kept (sweep_session uuid_of now).
Proof.
  unfold sweep_session. kept_step; [kept_step|].
  kept_step. destruct x as [pid player]. repeat kept_step.
Qed.

Lemma on_session_kept {A} sid (m : M Session.t A) :
  preserves session_kept m → preserves sessions_kept (on_session sid m).
Proof.
  intros Hm sv sid' s' Hs' _. unfold on_session.
  destruct (sessions sv !! sid) as [s|] eqn:Hs; [|by exists s']. cbn.
  destruct (decide (sid = sid')) as [<-|Hne].
  - rewrite lookup_insert_eq. eexists. split; [done|].
    rewrite Hs in Hs'. injection Hs' as <-. apply Hm.
  - rewrite lookup_insert_ne by done. by exists s'.
Qed.

Lemma on_session_hosted {A} sid (m : M Session.t A) :
  preserves session_kept m → preserves keeps_hosted (on_session sid m).
Proof.
  intros Hm sv Hsv. unfold on_session.
  destruct (sessions sv !! sid) as [s|] eqn:Hs; [|done]. cbn.
  apply map_Forall_insert_2; [|done].
  eapply session_kept_hosted; [apply Hm|]. by eapply Hsv.
Qed.

Lemma remove_empty_sessions_kept : preserves sessions_kept remove_empty_sessions.
Proof.
  apply preserves_modify. intros sv sid s Hs Hne. exists s. split; [|reflexivity].
  cbn. by apply map_lookup_filter_Some.
Qed.

Lemma remove_empty_sessions_hosted : preserves keeps_hosted remove_empty_sessions.
Proof.
  apply preserves_modify. intros sv Hsv sid s Hs. cbn in Hs.
  apply map_lookup_filter_Some in Hs as [Hs _]. by eapply Hsv.
Qed.

Ltac server_kept_step :=
  lazymatch goal with
  | |- preserves sessions_kept (on_session _ _) => apply on_session_kept
  | |- preserves keeps_hosted (on_session _ _) => apply on_session_hosted
  | |- preserves sessions_kept (modify (λ sv, set_player_connections _ sv)) =>
      apply preserves_modify; intros ? ? s ? ?; by exists s
  | |- preserves keeps_hosted (modify (λ sv, set_player_connections _ sv)) =>
      apply preserves_modify; by intros ? ?
  | |- preserves sessions_kept remove_empty_sessions => apply remove_empty_sessions_kept
  | |- preserves keeps_hosted remove_empty_sessions => apply remove_empty_sessions_hosted
  | |- preserves _ (if _ then _ else _) => case_match
  | |- preserves session_kept (handle_position_update _ _ _ _ _) =>
      apply handle_position_update_kept
  | |- preserves session_kept (handle_chat _ _ _ _ _) => apply handle_chat_kept
  | |- preserves session_kept (handle_alert _ _ _ _ _) => apply handle_alert_kept
  | |- preserves session_kept (handle_marker _ _ _ _ _) => apply handle_marker_kept
  | |- preserves session_kept (handle_team_update _ _ _) => apply handle_team_update_kept
  | |- preserves session_kept (sweep_session _ _) => apply sweep_session_kept
  | |- preserves session_kept _ => kept_step
  | |- _ => preserves_step
  end.

Lemma handle_message_kept u1 u2 now pid sid d :
  preserves sessions_kept (handle_message u1 u2 now pid sid d)
  ∧ preserves keeps_hosted (handle_message u1 u2 now pid sid d).
Proof. split; unfold handle_message; repeat server_kept_step. Qed.

Lemma handle_disconnect_kept u now pid sid :
  preserves sessions_kept (handle_disconnect u now pid sid)
  ∧ preserves keeps_hosted (handle_disconnect u now pid sid).
Proof. split; unfold handle_disconnect; repeat server_kept_step. Qed.

Lemma update_tick_kept uuid_of now :
  preserves sessions_kept (update_tick uuid_of now)
  ∧ preserves keeps_hosted (update_tick uuid_of now).
Proof.
  split; unfold update_tick.
  all: server_kept_step; [server_kept_step|].
  all: server_kept_step; [|server_kept_step].
  all: server_kept_step; destruct x as [sid ?]; repeat server_kept_step.
Qed.

(** A join of a player id that is new to the session. *)
Lemma join_session_kept ws up now callsign device_info s0 :
  Session.players s0 !! up = None →
  session_kept s0 (state (join_session ws up now callsign false device_info s0)).
Proof.
  intros Hnew.
  assert (∀ s1 player,
            Session.session_id s1 = Session.session_id s0 →
            Session.host_id s1 = Session.host_id s0 →
            odict.keys (Session.teams s1) = odict.keys (Session.teams s0) →
            Session.players s1 = <[up := player]> (Session.players s0) →
            session_kept s0 s1) as Hkept.
  { intros s1 player ? ? ? Hp. repeat split; [done..|]. intros pid p Hpid.
    exists p. split; [|reflexivity]. rewrite Hp, lookup_insert_ne; [done|].
    intros <-. congruence. }
  destruct (choose_team s0) as [tid|] eqn:Hchoose.
  - rewrite (join_session_run _ _ _ _ _ _ _ _ Hchoose). cbv zeta. cbn [state].
    eapply Hkept; [done..| |done]. cbn. apply odict_keys_alter.
  - unfold join_session. rewrite run_get. cbn [Player.team_id]. rewrite Hchoose.
    by eapply Hkept.
Qed.

Lemma handle_auth_kept ws us ua ub up ud now data sv :
  fresh_ids sv (EvAuth ws us ua ub up ud now data) →
  sessions_kept sv (state (handle_auth ws us ua ub up ud now data sv))
  ∧ keeps_hosted sv (state (handle_auth ws us ua ub up ud now data sv)).
Proof.
  intros [Hup Hhost].
  destruct (decide (strip (auth_callsign data) = "")) as [Hcall|Hcall].
  { rewrite handle_auth_rejected by (by left). split; reflexivity. }
  destruct (auth_is_host data) eqn:Hh.
  - destruct (Hhost eq_refl) as (Hnone & _).
    destruct (join_session_outcome ws up now (strip (auth_callsign data)) true
                (auth_device_info data) (create_session us ua ub now))
      as (s1 & Hjoin & Hplayers & _ & Hsid & Hhid).
    unfold handle_auth. rewrite decide_False by done. rewrite run_get, Hh.
    cbn [negb andb]. rewrite run_modify.
    erewrite authenticate_run; [|cbn; apply lookup_insert_eq|exact Hjoin].
    cbn [state sessions set_sessions]. rewrite insert_insert_eq.
    rewrite send_then_broadcast_state. split.
    + intros sid s Hs _. exists s. split; [|reflexivity]. cbn [sessions].
      rewrite lookup_insert_ne; [done|]. intros <-. congruence.
    + intros Hsv. apply map_Forall_insert_2; [|done]. split; [done|].
      exists up. split; [done|]. cbn. rewrite Hplayers, lookup_insert_eq. done.
  - destruct (sessions sv !! strip (auth_session_id data)) as [s0|] eqn:Hs0;
      [|rewrite handle_auth_rejected by (by right); split; reflexivity].
    destruct (join_session_outcome ws up now (strip (auth_callsign data)) false
                (auth_device_info data) s0) as (s1 & Hjoin & _).
    pose proof (join_session_kept ws up now (strip (auth_callsign data))
                  (auth_device_info data) s0 (Hup _ _ Hs0)) as Hkept.
    rewrite Hjoin in Hkept. cbn [state] in Hkept.
    unfold handle_auth. rewrite decide_False by done. rewrite run_get, Hh.
    cbn [negb andb]. rewrite bool_decide_eq_false_2 by (by rewrite Hs0).
    rewrite (run_bind (mret ()) _ sv sv [] ()) by done.
    erewrite authenticate_run; [|exact Hs0|exact Hjoin].
    cbn [state sessions]. rewrite send_then_broadcast_state.
    assert (session_kept s0
              (Session.set_sequence_number (Session.sequence_number s1 + 1)%Z s1))
      as Hkept'.
    { etrans; [exact Hkept|]. by apply session_kept_same. }
    split.
    + intros sid s Hs _. cbn [sessions].
      destruct (decide (strip (auth_session_id data) = sid)) as [<-|Hne].
      * rewrite lookup_insert_eq. eexists. split; [done|]. congruence.
      * rewrite lookup_insert_ne by done. by exists s.
    + intros Hsv. apply map_Forall_insert_2; [|done].
      eapply session_kept_hosted; [exact Hkept'|]. by eapply Hsv.
Qed.

Lemma step_kept e sv :
  fresh_ids sv e →
  sessions_kept sv (state (step e sv)) ∧ keeps_hosted sv (state (step e sv)).
Proof.
  intros Hfresh. destruct e; cbn [step].
  - rewrite state_bind_ret. by apply handle_auth_kept.
  - split; apply handle_message_kept.
  - split; apply handle_disconnect_kept.
  - split; apply update_tick_kept.
Qed.

Lemma reachable_hosted sv : reachable sv → well_hosted sv.
Proof.
  induction 1 as [|sv e _ IH Hfresh]; [apply map_Forall_empty|].
  by apply (step_kept e sv Hfresh).
Qed.

Lemma hosted_populated sid s : hosted sid s → Session.players s ≠ ∅.
Proof. intros (_ & h & _ & [p Hp]) Hempty. by rewrite Hempty, lookup_empty in Hp. Qed.

Lemma reaches_reachable sv sv' : reachable sv → reaches sv sv' → reachable sv'.
Proof. intros Hsv. induction 1; [done|]. by apply reachable_step. Qed.

(** X13.  Nothing a run of the server does is undone for sessions and
    players.  From a server an actual run has produced, along any further
    run (authentications, messages, disconnects and maintenance ticks, in any
    order), every registered session stays registered under its id with the
    same host and the same team ids, and every player of it stays in its
    player map with the same id, callsign and device; a player whose status
    is no longer "connected" is never connected again and a connection handle
    that was dropped is never set again. *)
Theorem sessions_and_players_persist sv sv' sid s :
  reachable sv → reaches sv sv' →
  sessions sv !! sid = Some s →
  ∃ s', sessions sv' !! sid = Some s' ∧ session_kept s s'.
Proof.
  intros Hsv Hrun Hs. induction Hrun as [|sv' e Hrun IH Hfresh]; [by exists s|].
  destruct IH as (s' & Hs' & Hkept).
  pose proof (reachable_hosted sv' (reaches_reachable sv sv' Hsv Hrun)) as Hhosted.
  destruct (proj1 (step_kept e sv' Hfresh) sid s' Hs') as (s'' & Hs'' & Hkept').
  { eapply hosted_populated. by eapply Hhosted. }
  exists s''. split; [done|]. by etrans.
Qed.

(** X14.  Every session of a server that a run has produced is registered
    under its own session id and has a host, who is one of its players.  So
    no session is ever without players, and the clean-up of the maintenance
    loop, which removes the sessions without players, never removes any. *)
Theorem session_never_reaped sv :
  reachable sv →
  (∀ sid s, sessions sv !! sid = Some s →
     Session.session_id s = sid
     ∧ ∃ h, Session.host_id s = Some h ∧ is_Some (Session.players s !! h))
  ∧ ∀ uuid_of now,
      dom (sessions (state (update_tick uuid_of now sv))) = dom (sessions sv).
Proof.
  intros Hsv. pose proof (reachable_hosted sv Hsv) as Hhosted. split.
  - intros sid s Hs. by apply (Hhosted sid s).
  - intros uuid_of now. apply set_eq. intros sid. rewrite !elem_of_dom.
    rewrite <- !not_eq_None_Some.
    rewrite (proj2 (update_tick_removes_empty uuid_of now sv sid)).
    split.
    + intros Hn Hnone. apply Hn. by left.
    + intros Hn [Hnone|(s & Hs & Hempty)]; [done|].
      by apply (hosted_populated sid s (Hhosted sid s Hs)).
Qed.


(** ** The inactivity sweep *)

(** What the sweep does to one player record. *)
Lemma sweep_body_run uuid_of now pid player s :
  ∃ s1 out,
    (if is_inactive now player then
       update_player pid (Player.set_connection_status INACTIVE) ;;
       broadcast_player_update (uuid_of pid) now
         (Player.set_connection_status INACTIVE player) "update"
     else mret ()) s = mk_outcome s1 out (inr ())
    ∧ Session.set_players (Session.players s)
        (Session.set_sequence_number (Session.sequence_number s) s1) = s
    ∧ Session.sequence_number s1 =
      (Session.sequence_number s + (if is_inactive now player then 1 else 0))%Z
    ∧ Session.players s1 =
      (if is_inactive now player
       then alter (Player.set_connection_status INACTIVE) pid (Session.players s)
       else Session.players s)
    ∧ (is_inactive now player = false → out = []).
Proof.
  destruct (is_inactive now player).
  - unfold update_player. rewrite run_modify. eexists _, _.
    split; [reflexivity|]. cbn. split; [by destruct s|]. done.
  - exists s, []. split; [reflexivity|]. split; [by destruct s|].
    split; [lia|done].
Qed.

Lemma sweep_loop_run uuid_of now (l : list (string * Player.t)) s :
  NoDup l.*1 →
  let r :=
    for_each
      (λ '(pid, player),
         if is_inactive now player then
           update_player pid (Player.set_connection_status INACTIVE) ;;
           broadcast_player_update (uuid_of pid) now
             (Player.set_connection_status INACTIVE player) "update"
         else mret ()) l s in
  result r = inr ()
  ∧ Session.set_players (Session.players s)
      (Session.set_sequence_number (Session.sequence_number s) (state r)) = s
  ∧ Session.sequence_number (state r) =
    (Session.sequence_number s
     + Z.of_nat (length (filter (λ kv, is_inactive now kv.2 = true) l)))%Z
  ∧ ∀ pid,
      ((∃ p, (pid, p) ∈ l ∧ is_inactive now p = true) →
       Session.players (state r) !! pid =
       Player.set_connection_status INACTIVE <$> Session.players s !! pid)
      ∧ (¬ (∃ p, (pid, p) ∈ l ∧ is_inactive now p = true) →
         Session.players (state r) !! pid = Session.players s !! pid).
Proof.
  cbv zeta. revert s. induction l as [|[k p] l IH]; intros s Hnd.
  - cbn. split; [done|]. split; [by destruct s|]. split; [lia|].
    intros pid. split; [|done]. intros (? & ?%elem_of_nil & _). done.
  - rewrite fmap_cons in Hnd. apply NoDup_cons in Hnd as [Hk Hnd]. cbn [for_each].
    destruct (sweep_body_run uuid_of now k p s)
      as (s1 & out & Hrun & Hrest & Hseq & Hplayers & _).
    rewrite (run_bind _ _ s s1 out () Hrun). cbn [state result].
    destruct (IH s1 Hnd) as (Hres & Hrest' & Hseq' & Hplayers').
    split; [done|]. split; [|split].
    + clear -Hrest Hrest'. destruct (state (for_each _ l s1)), s, s1.
      unfold Session.set_players, Session.set_sequence_number in *. cbn in *.
      congruence.
    + rewrite Hseq', Hseq, filter_cons. cbn [snd].
      destruct (is_inactive now p); [rewrite decide_True by done|
                                     rewrite decide_False by done]; cbn [length]; lia.
    + intros pid. destruct (Hplayers' pid) as [Hyes Hno]. rewrite Hplayers in Hyes, Hno.
      assert (¬ ∃ p0, (k, p0) ∈ l) as Hfresh.
      { intros (p0 & Hin). apply Hk. apply list_elem_of_fmap. by exists (k, p0). }
      destruct (decide (pid = k)) as [->|Hne].
      * rewrite Hno by (intros (p0 & Hin & _); apply Hfresh; by exists p0).
        split.
        -- intros (p0 & [Heq|Hin]%elem_of_cons & Hp0).
           ++ injection Heq as ->. by rewrite Hp0, lookup_alter_eq.
           ++ exfalso. apply Hfresh. by exists p0.
        -- intros Hnot. destruct (is_inactive now p) eqn:Hp; [|done].
           exfalso. apply Hnot. exists p. split; [by left|done].
      * assert ((if is_inactive now p
                 then alter (Player.set_connection_status INACTIVE) k (Session.players s)
                 else Session.players s) !! pid = Session.players s !! pid) as Hsame.
        { destruct (is_inactive now p); [by rewrite lookup_alter_ne|done]. }
        rewrite Hsame in Hyes, Hno. split.
        -- intros (p0 & [Heq|Hin]%elem_of_cons & Hp0); [congruence|].
           apply Hyes. by exists p0.
        -- intros Hnot. apply Hno. intros (p0 & Hin & Hp0). apply Hnot.
           exists p0. split; [by right|done].
Qed.

Lemma size_filter_map_to_list {A} (P : string * A → Prop) `{!∀ x, Decision (P x)}
    (m : gmap string A) :
  size (filter P m) = length (filter P (map_to_list m)).
Proof.
  rewrite <- length_map_to_list, map_filter_alt.
  apply Permutation_length, map_to_list_to_map.
  eapply (sublist_NoDup _ (map_to_list m).*1);
    [apply NoDup_fst_map_to_list|].
  apply fmap_sublist, sublist_filter.
Qed.

Lemma sweep_loop_idle uuid_of now (l : list (string * Player.t)) s :
  (∀ x, x ∈ l → is_inactive now x.2 = false) →
  for_each
    (λ '(pid, player),
       if is_inactive now player then
         update_player pid (Player.set_connection_status INACTIVE) ;;
         broadcast_player_update (uuid_of pid) now
           (Player.set_connection_status INACTIVE player) "update"
       else mret ()) l s = mk_outcome s [] (inr ()).
Proof.
  induction l as [|[k p] l IH]; intros Hl; [done|]. cbn [for_each].
  pose proof (Hl (k, p) ltac:(by left)) as Hp. cbn in Hp. rewrite Hp.
  rewrite (run_bind (mret ()) _ s s [] ()) by done.
  rewrite IH; [done|]. intros x Hx. apply Hl. by right.
Qed.

Lemma is_inactive_spec now p :
  is_inactive now p = true ↔
  Player.connection_status p = CONNECTED
  ∧ (now - Player.last_active p > 300)%R.
Proof.
  unfold is_inactive, INACTIVE_TIMEOUT. rewrite andb_true_iff, bool_decide_eq_true.
  by destruct (Rgt_dec _ _); split; intros [? ?].
Qed.

Lemma sweep_session_players uuid_of now s :
  Session.players (state (sweep_session uuid_of now s)) =
  (λ p, if is_inactive now p then Player.set_connection_status INACTIVE p else p)
    <$> Session.players s.
Proof.
  destruct (sweep_loop_run uuid_of now (map_to_list (Session.players s)) s
              (NoDup_fst_map_to_list _)) as (_ & _ & _ & Hplayers).
  unfold sweep_session. rewrite run_get. apply map_eq. intros pid.
  rewrite lookup_fmap. destruct (Hplayers pid) as [Hyes Hno].
  destruct (Session.players s !! pid) as [p|] eqn:Hp; cbn.
  - destruct (is_inactive now p) eqn:Hin.
    + rewrite Hyes; [done|]. exists p. split; [|done].
      by apply elem_of_map_to_list.
    + rewrite Hno; [done|]. intros (p0 & Hp0%elem_of_map_to_list & Hin0).
      congruence.
  - rewrite Hno; [done|]. intros (p0 & Hp0%elem_of_map_to_list & _). congruence.
Qed.

(** X15.  One pass of the maintenance loop over a session flags exactly the
    players that are connected and whose last activity is strictly more than
    300 seconds old: their status becomes "inactive" and nothing else of them
    changes.  Every flagged player costs one broadcast, so the sequence
    number grows by the number of flagged players; teams, markers and
    messages are untouched.  A second pass at the same time finds nothing to
    do. *)
Theorem sweep_flags_inactive uuid_of now s :
  let flag p :=
    if is_inactive now p then Player.set_connection_status INACTIVE p else p in
  let flagged := filter (λ kv, is_inactive now kv.2 = true) (Session.players s) in
  let r := sweep_session uuid_of now s in
  returned r
  ∧ state r =
    Session.set_sequence_number (Session.sequence_number s + Z.of_nat (size flagged))%Z
      (Session.set_players (flag <$> Session.players s) s)
  ∧ (∀ p, is_inactive now p = true ↔
          Player.connection_status p = CONNECTED
          ∧ (now - Player.last_active p > 300)%R)
  ∧ ∀ uuid_of',
      sweep_session uuid_of' now (state r) = mk_outcome (state r) [] (inr ()).
Proof.
  cbv zeta.
  destruct (sweep_loop_run uuid_of now (map_to_list (Session.players s)) s
              (NoDup_fst_map_to_list _)) as (Hres & Hrest & Hseq & _).
  pose proof (sweep_session_players uuid_of now s) as Hmap.
  split; [|split; [|split]].
  - unfold sweep_session. rewrite run_get. by exists ().
  - rewrite size_filter_map_to_list. revert Hmap. unfold sweep_session.
    rewrite run_get. revert Hrest Hseq.
    generalize (state (for_each
      (λ '(pid, player),
         if is_inactive now player then
           update_player pid (Player.set_connection_status INACTIVE) ;;
           broadcast_player_update (uuid_of pid) now
             (Player.set_connection_status INACTIVE player) "update"
         else mret ()) (map_to_list (Session.players s)) s)).
    intros s2 Hrest Hseq Hmap. destruct s2, s.
    unfold Session.set_players, Session.set_sequence_number in *. cbn in *.
    congruence.
  - apply is_inactive_spec.
  - intros uuid_of'. unfold sweep_session at 1. rewrite run_get.
    apply sweep_loop_idle. intros [pid p'] Hin%elem_of_map_to_list. cbn.
    rewrite Hmap, lookup_fmap in Hin.
    destruct (Session.players s !! pid) as [p|]; [|done]. injection Hin as <-.
    destruct (is_inactive now p) eqn:Hp; [|done].
    unfold is_inactive. by destruct p.
Qed.

(** ** Activity *)

#[local] Instance same_players_preorder : PreOrder same_players.
Proof. split; unfold same_players; [done|]. intros a b c H1 H2. congruence. Qed.

Lemma update_team_same_players tid f : preserves same_players (update_team tid f).
Proof.
  intros s. unfold update_team. rewrite run_get.
  destruct tid as [t|]; [|done]. by destruct (odict.get t (Session.teams s)).
Qed.

Ltac same_players_step :=
  lazymatch goal with
  | |- preserves _ (broadcast_delta _ _ _ _) => by intros ?
  | |- preserves _ (broadcast_by_visibility _ _ _ _ _) =>
      unfold broadcast_by_visibility; case_decide
  | |- preserves _ (update_team _ _) => apply update_team_same_players
  | |- preserves _ (modify _) => apply preserves_modify; intros ?; try case_match; done
  | |- preserves _ (let _ := _ in _) => cbv zeta
  | |- _ => preserves_step
  end.

Lemma session_request_same_players u1 u2 now p :
  (∀ d, preserves same_players (handle_chat u1 u2 now p d))
  ∧ (∀ d, preserves same_players (handle_alert u1 u2 now p d))
  ∧ (∀ d, preserves same_players (handle_marker u1 u2 now p d)).
Proof.
  split; [|split]; intros d;
    [unfold handle_chat|unfold handle_alert|unfold handle_marker];
    repeat same_players_step.
Qed.

(** X16.  Only movement counts as activity.  A chat message, an alert, a
    marker request, a message of an unhandled type and a position update that
    is not accepted (the distance computed from the stored position is not
    above 2.0, or its computation raises) all leave
    the player map of the session as it is, the sender's activity time
    included.  So a connected player whose last accepted position is more
    than 300 seconds old is flagged inactive by the next pass of the
    maintenance loop, however recently it sent such a message. *)
Theorem stationary_player_goes_inactive u1 u2 u3 now now' pid sid data sv s p :
  sessions sv !! sid = Some s →
  Session.players s !! pid = Some p →
  Player.connection_status p = CONNECTED →
  (now' - Player.last_active p > 300)%R →
  match data with
  | POSITION_UPDATE d =>
      accepts_position p
        (Position.mk (Position.kw_latitude d) (Position.kw_longitude d)
           (default 0%float (Position.kw_heading d))
           (default 0%float (Position.kw_accuracy d))
           (default 0%float (Position.kw_elevation d)) now) ≠ inr true
  | TEAM_UPDATE _ => False
  | _ => True
  end →
  ∃ s1,
    sessions (state (handle_message u1 u2 now pid sid data sv)) !! sid = Some s1
    ∧ Session.players s1 = Session.players s
    ∧ Session.players (state (sweep_session u3 now' s1)) !! pid =
      Some (Player.set_connection_status INACTIVE p).
Proof.
  intros Hs Hp Hstatus Hold Hdata.
  assert (∃ s1,
            sessions (state (handle_message u1 u2 now pid sid data sv)) !! sid = Some s1
            ∧ Session.players s1 = Session.players s) as (s1 & Hs1 & Hplayers).
  { destruct (session_request_same_players u1 u2 now p) as (Hchat & Halert & Hmarker).
    unfold handle_message. rewrite run_get, Hs, Hp.
    destruct data as [d|d|d|d|d|]; try done.
    - rewrite (on_session_run _ _ _ _ Hs). cbn [state sessions set_sessions].
      rewrite lookup_insert_eq. eexists. split; [done|].
      unfold handle_position_update.
      by destruct (accepts_position p _) as [e|[]].
    - rewrite (on_session_run _ _ _ _ Hs). cbn [state sessions set_sessions].
      rewrite lookup_insert_eq. eexists. split; [done|]. apply Hchat.
    - rewrite (on_session_run _ _ _ _ Hs). cbn [state sessions set_sessions].
      rewrite lookup_insert_eq. eexists. split; [done|]. apply Halert.
    - rewrite (on_session_run _ _ _ _ Hs). cbn [state sessions set_sessions].
      rewrite lookup_insert_eq. eexists. split; [done|]. apply Hmarker.
    - by exists s. }
  exists s1. split; [done|]. split; [done|].
  rewrite sweep_session_players, lookup_fmap, Hplayers, Hp. cbn.
  by rewrite (proj2 (is_inactive_spec now' p)).
Qed.


(** ** What a sender sees of its own events *)

Lemma str_prefix_spec n s :
  (∃ rest, s = str_prefix n s +:+ rest)
  ∧ String.length (str_prefix n s) = (n `min` String.length s)%nat.
Proof.
  unfold str_prefix. revert s. induction n as [|n IH]; intros s.
  - destruct s; (split; [by eexists|done]).
  - destruct s as [|c s]; [split; [by exists ""|done]|]. cbn.
    destruct (IH s) as [[rest Hrest] Hlen]. split; [|by rewrite Hlen].
    exists rest. change (String c s = String c (String.substring 0 n s +:+ rest)).
    by rewrite <- Hrest.
Qed.

Lemma last_n_snoc {A} n (l : list A) x :
  last_n (S n) (l ++ [x])%list = (last_n n l ++ [x])%list.
Proof.
  unfold last_n. rewrite length_app. cbn [length].
  replace (length l + 1 - S n)%nat with (length l - n)%nat by lia.
  rewrite drop_app_le by lia. done.
Qed.

Lemma last_filter_snoc {A} (P : A → Prop) `{!∀ x, Decision (P x)} (l : list A) x :
  P x → last (filter P (l ++ [x])%list) = Some x.
Proof.
  intros Hx. rewrite filter_app, filter_cons, decide_True by done.
  rewrite filter_nil. apply last_snoc.
Qed.

Lemma snapshot_last_message s team_id m l :
  Session.messages s = (l ++ [m])%list →
  Message.visibility m = ALL ∨ Message.team_id m = team_id →
  last (st_messages (get_filtered_state s team_id)) = Some m.
Proof.
  intros Hl Hvis. cbn [get_filtered_state st_messages]. rewrite Hl.
  rewrite (last_n_snoc 49). apply last_filter_snoc. by apply visible_to_spec.
Qed.

Lemma marker_create_stored u1 u2 now player md s :
  Session.markers (state (handle_marker u1 u2 now player (MarkerCreate md) s)) =
  <[u1 := Marker.mk u1 (md_type md) (Player.player_id player) (Player.team_id player)
            (default TEAM (md_visibility md)) (Position.of_kwargs now (md_position md))
            (default ∅ (md_properties md)) now None]> (Session.markers s).
Proof.
  destruct (Player.team_id player) as [t|] eqn:Hteam.
  - destruct (odict.get t (Session.teams s)) as [team|] eqn:Hget.
    + by rewrite (handle_marker_create_run _ _ _ _ _ _ _ _ Hteam Hget).
    + rewrite handle_marker_create_raises by eauto. by rewrite ?Hteam.
  - rewrite handle_marker_create_raises by eauto. by rewrite ?Hteam.
Qed.

(** X18.  A sender sees its own events.  After a chat message, whatever its
    visibility, the snapshot for the sender's team ends with that message: it
    carries the new id, the sender's id and team and the first 500 characters
    of the text.  After an alert the snapshot for the sender's team ends with
    the alert.  After a marker is created, the snapshot for the creator's team
    shows it. *)
Theorem sender_sees_own_event u1 u2 now player s :
  (∀ d, ∃ m,
     last (st_messages
             (get_filtered_state (state (handle_chat u1 u2 now player d s))
                (Player.team_id player))) = Some m
     ∧ Message.message_id m = u1
     ∧ Message.sender_id m = Player.player_id player
     ∧ Message.team_id m = Player.team_id player
     ∧ Message.type m = "chat"
     ∧ (∃ rest, chat_content d = Message.content m +:+ rest)
     ∧ String.length (Message.content m) =
       (500 `min` String.length (chat_content d))%nat)
  ∧ (∀ d, ∃ m,
       last (st_messages
               (get_filtered_state (state (handle_alert u1 u2 now player d s))
                  (Player.team_id player))) = Some m
       ∧ Message.message_id m = u1
       ∧ Message.sender_id m = Player.player_id player
       ∧ Message.type m = "alert")
  ∧ (∀ md, ∃ marker,
       st_markers
         (get_filtered_state
            (state (handle_marker u1 u2 now player (MarkerCreate md) s))
            (Player.team_id player)) !! u1 = Some marker
       ∧ Marker.created_by marker = Player.player_id player
       ∧ Marker.type marker = md_type md).
Proof.
  split; [|split].
  - intros d.
    set (m := Message.mk u1 (Player.player_id player) (Player.team_id player)
                (default TEAM (chat_visibility d)) "chat"
                (str_prefix 500 (chat_content d)) now
                (Position.of_kwargs now <$> chat_location d)).
    exists m. split.
    + assert (∃ l, Session.messages (state (handle_chat u1 u2 now player d s)) =
                   (l ++ [m])%list) as [l Hl];
        [|by eapply snapshot_last_message; [exact Hl|right]].
      unfold handle_chat, broadcast_by_visibility. rewrite !run_modify.
      cbn [Session.messages Session.set_messages]. fold m.
      destruct (100 <? _)%nat eqn:Hlen.
      * eexists. rewrite (last_n_snoc 99). by case_decide.
      * eexists. by case_decide.
    + cbn. repeat split; apply str_prefix_spec.
  - intros d.
    set (m := Message.mk u1 (Player.player_id player) (Player.team_id player)
                TEAM "alert"
                (upper (AlertType_value (alert_type d)) +:+ " - "
                 +:+ Player.callsign player) now
                (match alert_location d with
                 | Some location_data => Some (Position.of_kwargs now location_data)
                 | None => Player.position player
                 end)).
    exists m. split; [|done].
    apply (snapshot_last_message _ _ m (Session.messages s)); [|by right].
    unfold handle_alert. by rewrite run_modify.
  - intros md. eexists. split; [|split].
    + cbn [get_filtered_state st_markers]. apply map_lookup_filter_Some. split.
      * rewrite marker_create_stored. apply lookup_insert_eq.
      * cbn. apply visible_to_spec. by right.
    + done.
    + done.
Qed.

(** ** Team assignment *)

Lemma gset_remove_add (X : gset string) x : X ∖ {[x]} ∪ {[x]} = X ∪ {[x]}.
Proof.
  apply set_eq. intros y. rewrite !elem_of_union, elem_of_difference, elem_of_singleton.
  destruct (decide (y = x)); tauto.
Qed.

Lemma gset_remove_absent (X : gset string) x : x ∉ X → X ∖ {[x]} = X.
Proof. set_solver. Qed.

Lemma gset_add_present (X : gset string) x : x ∈ X → X ∪ {[x]} = X.
Proof. set_solver. Qed.

(** X19.  The host's reassignment of a player, in a session whose membership
    records agree: the player's team becomes the new team and nothing else of
    any player changes; afterwards the player is a member of the new team and
    of no other, and no other member of any team is touched; one delta is
    broadcast to everybody.  Reassigning a player to the team it is already
    on changes nothing but the sequence number. *)
Theorem host_reassigns_player u now pid new_team_id s p :
  membership_consistent s →
  Session.players s !! pid = Some p →
  is_Some (odict.get new_team_id (Session.teams s)) →
  let r := handle_team_update u now (AssignPlayer pid new_team_id) s in
  returned r
  ∧ Session.players (state r) =
    <[pid := Player.set_team_id (Some new_team_id) p]> (Session.players s)
  ∧ (∀ t, Team.players <$> odict.get t (Session.teams (state r)) =
          (λ team, if decide (t = new_team_id)
                   then Team.players team ∪ {[pid]}
                   else Team.players team ∖ {[pid]})
            <$> odict.get t (Session.teams s))
  ∧ Session.sequence_number (state r) = (Session.sequence_number s + 1)%Z
  ∧ (∀ m, m ∈ sent r ↔
          ∃ pid' p', Session.players (state r) !! pid' = Some p'
                     ∧ Player.connection_status p' = CONNECTED
                     ∧ Player.websocket p' = Some (to m)
                     ∧ payload m =
                       STATE_DELTA
                         (StateDelta.to_dict u now
                            [StateDelta.mk_change "update" "player" pid
                               (DTeamId new_team_id) now None]
                            (Session.session_id s) (Session.sequence_number s + 1)%Z))
  ∧ (Player.team_id p = Some new_team_id →
     state r = Session.set_sequence_number (Session.sequence_number s + 1)%Z s).
Proof.
  intros Hc Hp Hnew. cbv zeta.
  rewrite (handle_team_update_run u now pid new_team_id s p Hc Hp Hnew). cbv zeta.
  destruct Hc as (Hempty & Ha & Hb). destruct Hnew as [tn Hnew].
  split; [by exists ()|]. split; [done|]. split; [|split; [done|split]].
  2:{ intros m. rewrite broadcast_delta_sent. setoid_rewrite recipients_all.
      cbn [state broadcast_delta_run]. split.
      - intros (p' & (pid' & Hp' & Hst & _) & Hws & Hpay). by exists pid', p'.
      - intros (pid' & p' & Hp' & Hst & Hws & Hpay). exists p'.
        split; [|done]. exists pid'. split; [done|]. split; [done|].
        by rewrite Hws. }
  all: rewrite broadcast_delta_run; cbn [state].
  - intros t. cbn [Session.teams Session.set_teams Session.set_sequence_number].
    rewrite odict_get_alter.
    destruct (odict.get t (Session.teams s)) as [team|] eqn:Ht; last first.
    { destruct (Player.team_id p); [rewrite odict_get_alter|]; rewrite Ht;
        by repeat case_decide. }
    assert (Player.team_id p ≠ Some t → pid ∉ Team.players team) as Hnot.
    { intros Hne Hin. destruct (Hb t team pid Ht Hin) as (p' & Hp' & Hteam').
      congruence. }
    destruct (Player.team_id p) as [old|] eqn:Hold.
    + rewrite odict_get_alter, Ht.
      destruct (decide (new_team_id = t)) as [->|Hn], (decide (old = t)) as [->|Ho];
        cbn; f_equal.
      * rewrite decide_True by done. apply gset_remove_add.
      * rewrite decide_True by done. done.
      * rewrite decide_False by done. done.
      * rewrite decide_False by done. rewrite gset_remove_absent; [done|].
        apply Hnot. congruence.
    + rewrite Ht.
      destruct (decide (new_team_id = t)) as [->|Hn]; cbn; f_equal.
      * rewrite decide_True by done. done.
      * rewrite decide_False by done. rewrite gset_remove_absent; [done|].
        by apply Hnot.
  - intros Hsame. rewrite Hsame. rewrite odict_alter_alter.
    destruct (Ha pid p new_team_id Hp Hsame) as (team & Hteam & Hin).
    rewrite odict_alter_id; last first.
    { intros v Hv. rewrite Hteam in Hv. injection Hv as <-.
      destruct team as [a b c ps ms]. unfold compose, Team.set_players. cbn in *.
      f_equal. by rewrite gset_remove_add, gset_add_present. }
    assert (Player.set_team_id (Some new_team_id) p = p) as ->
      by (destruct p; cbn in *; by subst).
    rewrite insert_id by done. by destruct s.
Qed.

Lemma join_session_teams ws up now callsign is_host device_info s :
  Session.teams (state (join_session ws up now callsign is_host device_info s)) =
  match choose_team s with
  | Some tid =>
      odict.alter (λ t, Team.set_players (Team.players t ∪ {[up]}) t) tid
        (Session.teams s)
  | None => Session.teams s
  end.
Proof.
  destruct (choose_team s) as [tid|] eqn:Hchoose.
  - rewrite (join_session_run _ _ _ _ _ _ _ _ Hchoose). by destruct is_host.
  - unfold join_session. rewrite run_get. cbn [Player.team_id]. rewrite Hchoose.
    by destruct is_host.
Qed.

Lemma team_count_alter s s' f t t' :
  Session.teams s' = odict.alter f t (Session.teams s) →
  team_count s' t' =
  from_option (λ team, size (Team.players (if decide (t = t') then f team else team)))
    0%nat (odict.get t' (Session.teams s)).
Proof.
  intros Hteams. unfold team_count. rewrite Hteams, odict_get_alter.
  case_decide; by destruct (odict.get t' (Session.teams s)).
Qed.

Lemma join_session_balanced ws up now callsign is_host device_info s :
  membership_consistent s →
  Session.players s !! up = None →
  balanced s →
  balanced (state (join_session ws up now callsign is_host device_info s)).
Proof.
  intros (_ & _ & Hb) Hup Hbal.
  pose proof (join_session_teams ws up now callsign is_host device_info s) as Hteams.
  intros t t'. unfold balanced in Hbal.
  destruct (choose_team s) as [tid|] eqn:Hchoose; last first.
  { unfold team_count. rewrite Hteams. apply Hbal. }
  rewrite Hteams, odict_keys_alter. intros Ht Ht'.
  assert (odict.keys (Session.teams s) ≠ []) as Hkeys.
  { unfold choose_team in Hchoose. by destruct (odict.keys (Session.teams s)). }
  destruct (py_min_spec (team_count s) _ Hkeys)
    as (x & l1 & l2 & Hx & Hsplit & Hl1 & Hl2).
  unfold choose_team in Hchoose. rewrite Hchoose in Hx. injection Hx as <-.
  assert (∀ t, t ∈ odict.keys (Session.teams s) →
               (team_count s tid ≤ team_count s t)%nat) as Hmin.
  { intros t0. rewrite Hsplit. intros [Hin|Hin]%elem_of_app.
    - specialize (Hl1 t0 Hin). lia.
    - apply elem_of_cons in Hin as [->|Hin]; [done|]. by apply Hl2. }
  assert (∀ t, t ∈ odict.keys (Session.teams s) →
               team_count
                 (state (join_session ws up now callsign is_host device_info s)) t =
               if decide (tid = t) then S (team_count s t) else team_count s t)
    as Hnew.
  { intros t0 Ht0. rewrite (team_count_alter s _ _ tid t0 Hteams). unfold team_count.
    apply odict_get_is_Some in Ht0 as [team Hteam]. rewrite Hteam. cbn.
    case_decide; [|done]. cbn. rewrite size_union, size_singleton; [lia|].
    assert (up ∉ Team.players team); [|set_solver].
    intros Hin. destruct (Hb t0 team up Hteam Hin) as (p' & Hp' & _). congruence. }
  rewrite !Hnew by done.
  specialize (Hbal t t' Ht Ht'). pose proof (Hmin t' Ht').
  repeat case_decide; simplify_eq; lia.
Qed.

Lemma create_session_balanced us ua ub now : ua ≠ ub → balanced (create_session us ua ub now).
Proof.
  intros Hne t t' _ _.
  assert (∀ x, team_count (create_session us ua ub now) x = 0%nat) as Hzero.
  { intros x. unfold team_count. rewrite create_session_teams by done. cbn.
    repeat case_decide; done. }
  rewrite !Hzero. lia.
Qed.

Lemma same_membership_balanced s s' : same_membership s s' → balanced s → balanced s'.
Proof.
  intros [Hteams _] Hbal.
  assert (∀ t, team_count s' t = team_count s t) as Hcount.
  { intros t. unfold team_count. specialize (Hteams t).
    destruct (odict.get t (Session.teams s')), (odict.get t (Session.teams s));
      cbn in *; congruence. }
  assert (∀ t, t ∈ odict.keys (Session.teams s') → t ∈ odict.keys (Session.teams s))
    as Hkeys.
  { intros t. rewrite !odict_get_is_Some, <- !not_eq_None_Some.
    specialize (Hteams t).
    destruct (odict.get t (Session.teams s')), (odict.get t (Session.teams s));
      cbn in *; congruence. }
  intros t t' Ht Ht'. rewrite !Hcount. apply Hbal; by apply Hkeys.
Qed.

#[local] Instance keeps_balanced_preorder : PreOrder keeps_balanced.
Proof.
  split; unfold keeps_balanced.
  - by intros sv Hsv.
  - intros a b c H1 H2 Ha. apply H2, H1, Ha.
Qed.

Lemma on_session_balanced {A} sid (m : M Session.t A) :
  preserves same_membership m → preserves keeps_balanced (on_session sid m).
Proof.
  intros Hm sv Hsv. unfold on_session.
  destruct (sessions sv !! sid) as [s|] eqn:Hs; [|done]. cbn.
  apply map_Forall_insert_2; [|done].
  eapply same_membership_balanced; [apply Hm|]. by eapply Hsv.
Qed.

Ltac balanced_step :=
  lazymatch goal with
  | |- preserves keeps_balanced (on_session _ _) => apply on_session_balanced
  | |- preserves keeps_balanced (modify (λ sv, set_player_connections _ sv)) =>
      apply preserves_modify; by intros ? ?
  | |- preserves keeps_balanced remove_empty_sessions =>
      apply preserves_modify; intros ? Hsv ? ? [? _]%map_lookup_filter_Some;
      by eapply Hsv
  | |- preserves keeps_balanced (if _ then _ else _) => case_match
  | |- _ => consistent_step
  end.

Lemma step_balanced e sv :
  server_consistent sv → fresh_ids sv e → no_reassignment e →
  keeps_balanced sv (state (step e sv)).
Proof.
  intros Hcons Hfresh Hquiet. destruct e as [ws us ua ub up ud now data| | |]; cbn [step].
  - rewrite state_bind_ret. destruct Hfresh as [Hup Hhost].
    destruct (decide (strip (auth_callsign data) = "")) as [Hcall|Hcall].
    { rewrite handle_auth_rejected by (by left). reflexivity. }
    assert (∀ s0,
              (if auth_is_host data then s0 = create_session us ua ub now
               else sessions sv !! strip (auth_session_id data) = Some s0) →
              membership_consistent s0 → Session.players s0 !! up = None →
              balanced s0 →
              keeps_balanced sv (state (handle_auth ws us ua ub up ud now data sv)))
      as Hjoin.
    { intros s0 Hs0 Hc0 Hnew Hb0 Hsv.
      destruct (join_session_returns ws up now (strip (auth_callsign data))
                  (auth_is_host data) (auth_device_info data) s0) as (s1 & player & Hr1).
      pose proof (join_session_balanced ws up now (strip (auth_callsign data))
                    (auth_is_host data) (auth_device_info data) s0 Hc0 Hnew Hb0) as Hb1.
      rewrite Hr1 in Hb1. cbn [state] in Hb1.
      unfold handle_auth. rewrite decide_False by done. rewrite run_get.
      destruct (auth_is_host data) eqn:Hh; cbn [negb andb].
      - subst s0. rewrite run_modify.
        erewrite authenticate_run; [|cbn; apply lookup_insert_eq|exact Hr1].
        cbn [state sessions set_sessions]. rewrite insert_insert_eq.
        rewrite send_then_broadcast_state. by apply map_Forall_insert_2.
      - rewrite bool_decide_eq_false_2 by (by rewrite Hs0).
        rewrite (run_bind (mret ()) _ sv sv [] ()) by done.
        erewrite authenticate_run; [|exact Hs0|exact Hr1].
        cbn [state sessions]. rewrite send_then_broadcast_state.
        by apply map_Forall_insert_2. }
    destruct (auth_is_host data) eqn:Hh.
    + destruct (Hhost eq_refl) as (_ & Hne & Ha & Hb).
      apply (Hjoin (create_session us ua ub now)); [done| |done|].
      * by apply create_session_consistent.
      * by apply create_session_balanced.
    + destruct (sessions sv !! strip (auth_session_id data)) as [s0|] eqn:Hs0;
        [|rewrite handle_auth_rejected by (by right); reflexivity].
      intros Hsv. apply (Hjoin s0); [done|by eapply Hcons|by eapply Hup| |done].
      by eapply Hsv.
  - apply (preserves_apply keeps_balanced).
    destruct data; [..|done|]; unfold handle_message; repeat balanced_step.
  - apply (preserves_apply keeps_balanced). unfold handle_disconnect. repeat balanced_step.
  - apply (preserves_apply keeps_balanced). unfold update_tick. balanced_step; [balanced_step|].
    balanced_step; [|balanced_step]. balanced_step. destruct x as [sid ?].
    repeat balanced_step.
Qed.

Lemma reachable_by_reachable P sv : reachable_by P sv → reachable sv.
Proof. induction 1; [apply reachable_init|by apply reachable_step]. Qed.

(** X20.  Automatic assignment keeps the teams balanced: in every session of
    a server produced by a run in which the host reassigns nobody, no team
    has two members more than another. *)
Theorem teams_stay_balanced sv sid s :
  reachable_by no_reassignment sv →
  sessions sv !! sid = Some s →
  ∀ t t' team team',
    odict.get t (Session.teams s) = Some team →
    odict.get t' (Session.teams s) = Some team' →
    (size (Team.players team) ≤ size (Team.players team') + 1)%nat.
Proof.
  intros Hrun.
  assert (map_Forall (λ _ s, balanced s) (sessions sv)) as Hall.
  { induction Hrun as [|sv e Hrun IH Hfresh Hquiet]; [apply map_Forall_empty|].
    apply (step_balanced e sv); [|done|done|exact IH].
    by apply reachable_consistent, (reachable_by_reachable no_reassignment). }
  intros Hs t t' team team' Ht Ht'. pose proof (Hall sid s Hs t t') as Hbal.
  unfold team_count in Hbal. rewrite Ht, Ht' in Hbal. cbn in Hbal.
  apply Hbal; apply odict_get_is_Some; by eexists.
Qed.


(** ** Sequence numbers *)

Lemma delta_calls_app s out1 s1 n1 out2 s2 n2 :
  delta_calls s out1 s1 n1 →
  delta_calls s1 out2 s2 n2 →
  delta_calls s (out1 ++ out2) s2 (n1 + n2).
Proof.
  intros H1 H2. induction H1 as [s|s s1 out s' n Hseq _ IH|s m out s' n Hm _ IH
                                 |s uuid now delta tid out s' n _ IH]; cbn.
  - done.
  - by apply (delta_calls_update _ s1); [|apply IH].
  - by apply delta_calls_send; [|apply IH].
  - rewrite <- app_assoc. by apply delta_calls_broadcast, IH.
Qed.

Lemma delta_calls_silent s s' :
  Session.sequence_number s' = Session.sequence_number s → delta_calls s [] s' 0.
Proof. intros Hseq. by apply (delta_calls_update _ s'); [|apply delta_calls_done]. Qed.

Lemma delta_calls_one uuid now delta team_id s s1 :
  Session.sequence_number s1 = Session.sequence_number s →
  delta_calls s (sent (broadcast_delta uuid now delta team_id s1))
    (state (broadcast_delta uuid now delta team_id s1)) 1.
Proof.
  intros Hseq. apply (delta_calls_update _ s1); [done|].
  rewrite <- (app_nil_r (sent _)). apply delta_calls_broadcast, delta_calls_done.
Qed.

Lemma delta_calls_bind (m : M Session.t ()) (f : () → M Session.t ()) s n1 n2 :
  result (m s) = inr () →
  delta_calls s (sent (m s)) (state (m s)) n1 →
  delta_calls (state (m s)) (sent (f () (state (m s)))) (state (f () (state (m s)))) n2 →
  delta_calls s (sent ((m ≫= f) s)) (state ((m ≫= f) s)) (n1 + n2).
Proof.
  intros Hres H1 H2. destruct (m s) as [s1 out res] eqn:Hm. cbn in Hres, H1, H2. subst res.
  rewrite (run_bind _ _ _ _ _ _ Hm). cbn [state sent]. by apply (delta_calls_app _ _ s1).
Qed.

Lemma broadcast_delta_numbers uuid now delta team_id s :
  omap carried (sent (broadcast_delta uuid now delta team_id s)) =
  replicate (length (sent (broadcast_delta uuid now delta team_id s)))
    (Session.sequence_number s + 1)%Z.
Proof.
  generalize (broadcast_delta_carried uuid now delta team_id s).
  generalize (sent (broadcast_delta uuid now delta team_id s)).
  intros l. induction l as [|m l IH]; intros Hl; cbn; [done|].
  rewrite (Hl m) by left. cbn. f_equal. apply IH. intros m' Hm'. apply Hl. by right.
Qed.

Lemma delta_calls_numbers s out s' n :
  delta_calls s out s' n →
  Session.sequence_number s' = (Session.sequence_number s + Z.of_nat n)%Z
  ∧ ∃ lens, length lens = n
            ∧ omap carried out = numbered_blocks (Session.sequence_number s) lens.
Proof.
  induction 1 as [s|s s1 out s' n Hseq _ (IH1 & lens & Hlen & IH)
                  |s m out s' n Hm _ (IH1 & lens & Hlen & IH)
                  |s uuid now delta tid out s' n _ (IH1 & lens & Hlen & IH)].
  - split; [lia|]. by exists [].
  - rewrite Hseq in IH1, IH. eauto.
  - split; [done|]. exists lens. split; [done|]. cbn. by rewrite Hm.
  - rewrite broadcast_delta_run in IH1, IH. cbn in IH1, IH.
    split; [lia|].
    exists (length (sent (broadcast_delta uuid now delta tid s)) :: lens).
    split; [cbn; lia|].
    by rewrite omap_app, broadcast_delta_numbers, IH.
Qed.

(** *** The handlers of one session *)

Lemma handle_position_update_calls u now pid p d s :
  delta_calls s (sent (handle_position_update u now pid p d s))
    (state (handle_position_update u now pid p d s))
    (request_calls now pid p s (POSITION_UPDATE d)).
Proof.
  unfold handle_position_update, request_calls.
  destruct (accepts_position p _) as [e|[]].
  - apply delta_calls_done.
  - unfold update_player. rewrite run_modify. by apply delta_calls_one.
  - apply delta_calls_done.
Qed.

Lemma handle_chat_calls u1 u2 now p d s :
  delta_calls s (sent (handle_chat u1 u2 now p d s)) (state (handle_chat u1 u2 now p d s)) 1.
Proof.
  unfold handle_chat. rewrite !run_modify. unfold broadcast_by_visibility.
  case_decide; apply delta_calls_one; cbv beta; by destruct (100 <? _)%nat.
Qed.

Lemma handle_alert_calls u1 u2 now p d s :
  delta_calls s (sent (handle_alert u1 u2 now p d s)) (state (handle_alert u1 u2 now p d s)) 1.
Proof. unfold handle_alert. rewrite run_modify. by apply delta_calls_one. Qed.

Lemma team_known_Some s t team :
  odict.get t (Session.teams s) = Some team → team_known s (Some t) = true.
Proof. intros Ht. unfold team_known. apply bool_decide_eq_true_2. by exists team. Qed.

Lemma team_known_None s tid :
  tid = None ∨ (∃ t, tid = Some t ∧ odict.get t (Session.teams s) = None) →
  team_known s tid = false.
Proof.
  intros [->|(t & -> & Ht)]; [done|]. unfold team_known.
  apply bool_decide_eq_false_2. rewrite Ht. by intros [? ?].
Qed.

Lemma team_cases s tid :
  (∃ t team, tid = Some t ∧ odict.get t (Session.teams s) = Some team)
  ∨ (tid = None ∨ ∃ t, tid = Some t ∧ odict.get t (Session.teams s) = None).
Proof.
  destruct tid as [t|]; [|by right; left].
  destruct (odict.get t (Session.teams s)) as [team|] eqn:Ht; [left|right; right]; eauto.
Qed.

Lemma handle_marker_calls u1 u2 now pid p d s :
  delta_calls s (sent (handle_marker u1 u2 now p d s)) (state (handle_marker u1 u2 now p d s))
    (request_calls now pid p s (MARKER d)).
Proof.
  destruct d as [md|mid mdata|mid|]; cbn [request_calls].
  - destruct (team_cases s (Player.team_id p)) as [(t & team & Ht & Hteam)|Hnone].
    + rewrite Ht, (team_known_Some _ _ _ Hteam).
      rewrite (handle_marker_create_run _ _ _ _ _ _ _ _ Ht Hteam). by apply delta_calls_one.
    + rewrite (team_known_None _ _ Hnone).
      rewrite (handle_marker_create_raises _ _ _ _ _ _ Hnone). by apply delta_calls_silent.
  - unfold handle_marker. rewrite run_get.
    destruct (Session.markers s !! mid) as [marker|] eqn:Hm; [|apply delta_calls_done].
    destruct mdata as [new|].
    + case_decide as Hown; [|apply delta_calls_done].
      rewrite run_modify. unfold broadcast_by_visibility.
      case_decide; by apply delta_calls_one.
    + case_decide; apply delta_calls_done.
  - unfold handle_marker. rewrite run_get.
    destruct (Session.markers s !! mid) as [marker|] eqn:Hm; [|apply delta_calls_done].
    case_decide as Hown; [|apply delta_calls_done].
    rewrite run_modify.
    destruct (team_cases s (Marker.team_id marker)) as [(t & team & Ht & Hteam)|Hnone].
    + rewrite Ht, (team_known_Some _ _ _ Hteam).
      erewrite run_bind; [|by apply (update_team_run t _ _ team)].
      unfold broadcast_by_visibility. case_decide; by apply delta_calls_one.
    + rewrite (team_known_None _ _ Hnone).
      erewrite run_bind_raise; [|by apply update_team_raises]. by apply delta_calls_silent.
  - apply delta_calls_done.
Qed.

Lemma handle_team_update_calls u now d pid p s :
  Some pid = Session.host_id s →
  delta_calls s (sent (handle_team_update u now d s)) (state (handle_team_update u now d s))
    (request_calls now pid p s (TEAM_UPDATE d)).
Proof.
  intros Hhost. destruct d as [target t|]; cbn [request_calls]; [|apply delta_calls_done].
  rewrite decide_True by done. unfold handle_team_update. rewrite run_get.
  destruct (Session.players s !! target) as [moved|] eqn:Hmoved; [|apply delta_calls_done].
  destruct (odict.get t (Session.teams s)) as [tn|] eqn:Hnew; last first.
  { rewrite team_known_None by (right; eauto). apply delta_calls_done. }
  rewrite (team_known_Some _ _ _ Hnew).
  destruct (truthy (Player.team_id moved)) as [old|] eqn:Hold.
  - destruct (odict.get old (Session.teams s)) as [to|] eqn:Hto.
    + rewrite (team_known_Some _ _ _ Hto).
      erewrite run_bind; [|by apply (update_team_run old _ s to)].
      unfold update_player. rewrite run_modify.
      assert (is_Some (odict.get t
                (odict.alter (λ x, Team.set_players (Team.players x ∖ {[target]}) x)
                   old (Session.teams s)))) as [tn' Htn'].
      { rewrite odict_get_alter, Hnew. case_decide; by eexists. }
      erewrite run_bind; [|by apply (update_team_run t _ _ tn')].
      by apply delta_calls_one.
    + rewrite team_known_None by (right; eauto).
      erewrite run_bind_raise; [|apply update_team_raises; right; eauto].
      apply delta_calls_done.
  - rewrite (run_bind (mret ()) _ s s [] ()) by done.
    unfold update_player. rewrite run_modify.
    erewrite run_bind; [|by apply (update_team_run t _ _ tn)].
    by apply delta_calls_one.
Qed.

Lemma sweep_loop_calls uuid_of now (l : list (string * Player.t)) s :
  let r :=
    for_each
      (λ '(pid, player),
         if is_inactive now player then
           update_player pid (Player.set_connection_status INACTIVE) ;;
           broadcast_player_update (uuid_of pid) now
             (Player.set_connection_status INACTIVE player) "update"
         else mret ()) l s in
  delta_calls s (sent r) (state r)
    (length (filter (λ kv, is_inactive now kv.2 = true) l)).
Proof.
  cbv zeta. revert s. induction l as [|[pid player] l IH]; intros s.
  - apply delta_calls_done.
  - cbn [for_each]. destruct (is_inactive now player) eqn:Hin.
    + rewrite filter_cons_True by done.
      apply (delta_calls_bind _ _ _ 1); [done| |apply IH].
      unfold update_player. rewrite run_modify. by apply delta_calls_one.
    + rewrite filter_cons_False by (cbn; congruence).
      apply (delta_calls_bind _ _ _ 0); [done|apply delta_calls_done|apply IH].
Qed.

Lemma sweep_session_calls uuid_of now s :
  delta_calls s (sent (sweep_session uuid_of now s)) (state (sweep_session uuid_of now s))
    (length (flagged now s)).
Proof. unfold sweep_session. rewrite run_get. apply sweep_loop_calls. Qed.

(** *** The server *)

Lemma handle_message_calls u1 u2 now pid sid data sv s p :
  sessions sv !! sid = Some s →
  Session.players s !! pid = Some p →
  let r := handle_message u1 u2 now pid sid data sv in
  (∃ s', sessions (state r) !! sid = Some s'
         ∧ delta_calls s (sent r) s' (request_calls now pid p s data))
  ∧ ∀ sid', sid' ≠ sid → sessions (state r) !! sid' = sessions sv !! sid'.
Proof.
  intros Hs Hp. cbv zeta. unfold handle_message. rewrite run_get, Hs, Hp.
  assert (∀ (m : M Session.t ()) n,
            delta_calls s (sent (m s)) (state (m s)) n →
            (∃ s', sessions (state (on_session sid m sv)) !! sid = Some s'
                   ∧ delta_calls s (sent (on_session sid m sv)) s' n)
            ∧ ∀ sid', sid' ≠ sid →
                sessions (state (on_session sid m sv)) !! sid' = sessions sv !! sid')
    as Hon.
  { intros m n Hm. rewrite (on_session_run _ _ _ _ Hs). cbn. split.
    - exists (state (m s)). by rewrite lookup_insert_eq.
    - intros sid' Hne. by rewrite lookup_insert_ne. }
  assert ((∃ s', sessions sv !! sid = Some s' ∧ delta_calls s [] s' 0)
          ∧ ∀ sid', sid' ≠ sid → sessions sv !! sid' = sessions sv !! sid') as Hidle.
  { split; [|done]. exists s. split; [done|apply delta_calls_done]. }
  destruct data as [d|d|d|d|d|].
  - apply Hon, handle_position_update_calls.
  - apply Hon, handle_chat_calls.
  - apply Hon, handle_alert_calls.
  - apply Hon, handle_marker_calls.
  - case_decide as Hhost.
    + by apply Hon, handle_team_update_calls.
    + assert (request_calls now pid p s (TEAM_UPDATE d) = 0%nat) as ->; [|exact Hidle].
      destruct d; cbn [request_calls]; [|done]. by rewrite decide_False.
  - exact Hidle.
Qed.

Lemma handle_auth_calls ws us ua ub up ud now data sv s0 :
  strip (auth_callsign data) ≠ "" →
  (if auth_is_host data then s0 = create_session us ua ub now
   else sessions sv !! strip (auth_session_id data) = Some s0) →
  let sid := if auth_is_host data then us else strip (auth_session_id data) in
  let r := handle_auth ws us ua ub up ud now data sv in
  (∃ s', sessions (state r) !! sid = Some s' ∧ delta_calls s0 (sent r) s' 1)
  ∧ ∀ sid', sid' ≠ sid → sessions (state r) !! sid' = sessions sv !! sid'.
Proof.
  intros Hcall Hs0 sid r.
  destruct (join_session_outcome ws up now (strip (auth_callsign data))
              (auth_is_host data) (auth_device_info data) s0)
    as (s1 & Hjoin & _ & Hseq & _).
  set (player := Player.mk up (strip (auth_callsign data)) (choose_team s0) CONNECTED now
                   None (auth_device_info data) (Some ws)) in *.
  assert (r = mk_outcome
            (mk_server
               (<[sid := state ((send_auth_response player ;;
                                 broadcast_player_update ud now player "add") s1)]>
                  (sessions sv))
               (<[up := ws]> (player_connections sv)))
            (sent ((send_auth_response player ;;
                    broadcast_player_update ud now player "add") s1))
            (inr (Some up, Some sid))) as ->.
  { subst r sid. unfold handle_auth. rewrite decide_False by done. rewrite run_get.
    destruct (auth_is_host data) eqn:Hhost; cbn [negb andb].
    - subst s0. rewrite run_modify.
      erewrite authenticate_run; [|cbn; apply lookup_insert_eq|exact Hjoin].
      cbn. by rewrite insert_insert_eq.
    - rewrite bool_decide_eq_false_2 by (rewrite Hs0; done).
      rewrite (run_bind (mret ()) _ sv sv [] ()) by done.
      by erewrite authenticate_run; [|exact Hs0|exact Hjoin]. }
  cbn [state sent sessions]. split; [|intros sid' Hne; by rewrite lookup_insert_ne].
  eexists. split; [apply lookup_insert_eq|].
  apply (delta_calls_update _ s1); [done|].
  apply (delta_calls_bind _ _ _ 0 1).
  - done.
  - apply delta_calls_send; [done|apply delta_calls_done].
  - by apply delta_calls_one.
Qed.

Lemma handle_disconnect_calls uuid now pid sid sv s p :
  sessions sv !! sid = Some s →
  Session.players s !! pid = Some p →
  let r := handle_disconnect uuid now pid sid sv in
  (∃ s', sessions (state r) !! sid = Some s'
         ∧ delta_calls s (sent r) s'
             (if bool_decide (is_Some (player_connections sv !! pid)) then 1 else 0))
  ∧ ∀ sid', sid' ≠ sid → sessions (state r) !! sid' = sessions sv !! sid'.
Proof.
  intros Hs Hp. cbv zeta. case_bool_decide as Hconn.
  - rewrite (handle_disconnect_run _ _ _ _ _ _ _ Hs Hp Hconn). cbn [state sent sessions].
    split; [|intros sid' Hne; by rewrite lookup_insert_ne].
    eexists. split; [apply lookup_insert_eq|].
    by apply delta_calls_one.
  - unfold handle_disconnect. rewrite run_get, Hs, Hp.
    erewrite run_bind; last first.
    { rewrite (on_session_run _ _ _ _ Hs). unfold update_player. cbn. reflexivity. }
    rewrite bool_decide_eq_false_2 by done.
    erewrite run_bind_raise; [|reflexivity].
    cbn [state sent sessions set_sessions app].
    split; [|intros sid' Hne; by rewrite lookup_insert_ne].
    eexists. split; [apply lookup_insert_eq|]. by apply delta_calls_silent.
Qed.

Lemma sweep_sessions_lookup (m : string → M Session.t ()) l sv :
  NoDup l.*1 →
  (∀ sid s, returned (m sid s)) →
  (∀ x, x ∈ l → is_Some (sessions sv !! x.1)) →
  let r := for_each (λ '(sid, _), on_session sid (m sid)) (l : list (string * Session.t)) sv in
  ∀ sid, sessions (state r) !! sid =
         if decide (sid ∈ l.*1) then (λ s, state (m sid s)) <$> sessions sv !! sid
         else sessions sv !! sid.
Proof.
  intros Hnd Hret. revert sv. induction l as [|[sid0 s0] l IH]; intros sv Hl; cbn zeta.
  - intros sid. rewrite decide_False; [done|]. cbn. apply not_elem_of_nil.
  - cbn [for_each]. destruct (Hl (sid0, s0)) as [s Hs]; [by left|]. cbn in Hs.
    destruct (Hret sid0 s) as [[] Hres].
    rewrite (run_bind _ _ sv _ _ () (eq_trans (on_session_run sid0 (m sid0) sv s Hs)
               (f_equal (mk_outcome _ _) Hres))).
    cbn [state]. cbn [fmap list_fmap fst] in Hnd. apply NoDup_cons in Hnd as [Hnotin Hnd].
    intros sid. rewrite IH; [|done|]; last first.
    { intros x Hx. cbn [sessions set_sessions].
      destruct (decide (x.1 = sid0)) as [->|Hne];
        [rewrite lookup_insert_eq; by eexists|].
      rewrite lookup_insert_ne by done. apply Hl. by right. }
    cbn [sessions set_sessions fmap list_fmap fst].
    destruct (decide (sid = sid0)) as [->|Hne].
    + rewrite decide_False by done. rewrite decide_True by left.
      by rewrite lookup_insert_eq, Hs.
    + rewrite lookup_insert_ne by done.
      destruct (decide (sid ∈ l.*1)) as [Hin|Hout].
      * rewrite decide_True; [done|by right].
      * rewrite decide_False; [done|]. by intros [?|?]%elem_of_cons.
Qed.

Lemma update_tick_session uuid_of now sv sid s :
  sessions sv !! sid = Some s →
  Session.players s ≠ ∅ →
  sessions (state (update_tick uuid_of now sv)) !! sid =
  Some (state (sweep_session (uuid_of sid) now s)).
Proof.
  intros Hs Hne. unfold update_tick. rewrite run_get.
  pose proof (sweep_sessions_lookup (λ sid, sweep_session (uuid_of sid) now)
                (map_to_list (sessions sv)) sv) as Hlook.
  cbv zeta in Hlook.
  pose proof (sweep_sessions_run (λ sid, sweep_session (uuid_of sid) now)
                (map_to_list (sessions sv)) sv) as Hsweep.
  cbv zeta in Hsweep.
  remember (for_each (λ '(sid, _), on_session sid (sweep_session (uuid_of sid) now))
              (map_to_list (sessions sv)) sv) as swept eqn:Eswept.
  destruct Hsweep as [[[] Hret] _].
  { intros. apply sweep_session_same_roster. }
  { intros. apply sweep_session_returns. }
  { intros [sid' s'] Hx%elem_of_map_to_list. by exists s'. }
  rewrite (run_bind _ _ sv (state swept) (sent swept) ());
    [|rewrite <- Eswept; destruct swept; cbn in Hret; by subst].
  cbn [state remove_empty_sessions modify sessions set_sessions].
  apply map_lookup_filter_Some. rewrite Hlook.
  - rewrite decide_True by (apply list_elem_of_fmap; exists (sid, s); split;
                              [done|by apply elem_of_map_to_list]).
    rewrite Hs. split; [done|]. cbn.
    pose proof (sweep_session_same_roster (uuid_of sid) now s) as Hdom.
    intros Hempty. apply Hne. apply dom_empty_iff_L.
    unfold same_roster in Hdom. rewrite <- Hdom. by apply dom_empty_iff_L.
  - apply NoDup_fst_map_to_list.
  - intros. apply sweep_session_returns.
  - intros [sid' s'] Hx%elem_of_map_to_list. by exists s'.
Qed.

(** C1, amended.  A call of [broadcast_delta] returns, changes nothing of
    the session but its counter, which it raises by exactly one, and sends
    one message to every live recipient in scope and to no one else, each
    carrying the new counter value.  A handler that makes [n] such calls from
    a session whose counter is [k] ends with the counter at [k + n], and the
    deltas it sends carry, in order, the numbers [k+1 .. k+n], each once per
    recipient of its call and hence not at all for a call that has no live
    recipient: the numbers sent are increasing and at most [k + n], but not
    gap-free.  The counts are exact and nothing else touches a counter: a
    request counts as [request_calls] says (a chat or an alert once, the
    others once when they take effect), an accepted authentication once on
    the joined session, which starts at 0 when it is created, a disconnect
    once when the player has an entry in the connection table, and a sweep
    once for every player it flags; the session of every other id is left as
    it is, and no step lowers the counter of a session that stays
    registered. *)
Theorem sequence_numbers_count_broadcasts :
  (∀ uuid now delta team_id s,
     let r := broadcast_delta uuid now delta team_id s in
     state r = Session.set_sequence_number (Session.sequence_number s + 1)%Z s
     ∧ result r = inr ()
     ∧ ∀ m, m ∈ sent r ↔
            ∃ p, p ∈ recipients s team_id
                 ∧ Player.websocket p = Some (to m)
                 ∧ payload m =
                   STATE_DELTA (StateDelta.to_dict uuid now delta (Session.session_id s)
                                  (Session.sequence_number s + 1)%Z))
  ∧ (∀ s out s' n,
       delta_calls s out s' n →
       Session.sequence_number s' = (Session.sequence_number s + Z.of_nat n)%Z
       ∧ ∃ lens, length lens = n
                 ∧ omap carried out = numbered_blocks (Session.sequence_number s) lens)
  ∧ (∀ u1 u2 now pid sid data sv s p,
       sessions sv !! sid = Some s →
       Session.players s !! pid = Some p →
       let r := handle_message u1 u2 now pid sid data sv in
       (∃ s', sessions (state r) !! sid = Some s'
              ∧ delta_calls s (sent r) s' (request_calls now pid p s data))
       ∧ ∀ sid', sid' ≠ sid → sessions (state r) !! sid' = sessions sv !! sid')
  ∧ (∀ ws us ua ub up ud now data sv s0,
       strip (auth_callsign data) ≠ "" →
       (if auth_is_host data then s0 = create_session us ua ub now
        else sessions sv !! strip (auth_session_id data) = Some s0) →
       let sid := if auth_is_host data then us else strip (auth_session_id data) in
       let r := handle_auth ws us ua ub up ud now data sv in
       (∃ s', sessions (state r) !! sid = Some s' ∧ delta_calls s0 (sent r) s' 1)
       ∧ ∀ sid', sid' ≠ sid → sessions (state r) !! sid' = sessions sv !! sid')
  ∧ (∀ us ua ub now, Session.sequence_number (create_session us ua ub now) = 0%Z)
  ∧ (∀ uuid now pid sid sv s p,
       sessions sv !! sid = Some s →
       Session.players s !! pid = Some p →
       let r := handle_disconnect uuid now pid sid sv in
       (∃ s', sessions (state r) !! sid = Some s'
              ∧ delta_calls s (sent r) s'
                  (if bool_decide (is_Some (player_connections sv !! pid)) then 1 else 0))
       ∧ ∀ sid', sid' ≠ sid → sessions (state r) !! sid' = sessions sv !! sid')
  ∧ (∀ uuid_of now s,
       let r := sweep_session uuid_of now s in
       delta_calls s (sent r) (state r) (length (flagged now s)))
  ∧ (∀ uuid_of now sv sid s,
       sessions sv !! sid = Some s →
       Session.players s ≠ ∅ →
       sessions (state (update_tick uuid_of now sv)) !! sid =
       Some (state (sweep_session (uuid_of sid) now s)))
  ∧ (∀ e sv sid s s',
       fresh_ids sv e →
       sessions sv !! sid = Some s →
       sessions (state (step e sv)) !! sid = Some s' →
       (Session.sequence_number s ≤ Session.sequence_number s')%Z).
Proof.
  split; [|split; [|split; [|split; [|split; [|split; [|split; [|split]]]]]]].
  - intros uuid now delta team_id s r. split; [done|]. split; [done|].
    intros m. apply broadcast_delta_sent.
  - apply delta_calls_numbers.
  - apply handle_message_calls.
  - apply handle_auth_calls.
  - done.
  - apply handle_disconnect_calls.
  - apply sweep_session_calls.
  - apply update_tick_session.
  - apply step_seq_le.
Qed.
End server.

(* ================================================================= *)
(** * Instances

    The theorems above hold for every [Math].  Below they are applied to
    concrete servers, on the platform [recorded_math]. *)

(** C1, the claim refuted on its numbering.  A host opens a session, closes
    its connection, and a second player joins: [broadcast_delta] has run
    three times and the counter is 3, but the deltas sent carry 1 and 3.
    The second broadcast, about the host's disconnect, found no connected
    player, so no delta numbered 2 was ever emitted. *)
Lemma emitted_sequence_numbers_skip_two :
  reachable recorded_math (run recorded_math ex_gap_run empty_server)
  ∧ Session.sequence_number <$>
      sessions (run recorded_math ex_gap_run empty_server) !! "s1" = Some 3%Z
  ∧ omap carried (run_sent recorded_math ex_gap_run empty_server) = [1; 3]%Z.
Proof.
  split; [|split; vm_compute; reflexivity].
  apply (reachable_step recorded_math _ ex_late_join);
    [apply (reachable_step recorded_math _ ex_host_leaves);
       [apply (ex_sv1_reachable recorded_math)|exact I]|].
  split; [by apply unknown_player_by_computation|].
  intros Hhost. discriminate Hhost.
Defined.

Lemma sequence_numbers_count_broadcasts_witness :
  ∃ s',
    sessions
      (state (handle_message recorded_math "m9" "d9" 0%R "p1" "s1"
                (CHAT (mk_chat "hi" (Some ALL) None)) (ex_sv2 recorded_math)))
      !! "s1" = Some s'
    ∧ Session.sequence_number s' = 3%Z
    ∧ omap carried
        (sent (handle_message recorded_math "m9" "d9" 0%R "p1" "s1"
                 (CHAT (mk_chat "hi" (Some ALL) None)) (ex_sv2 recorded_math))) =
      [3; 3]%Z
    ∧ ∃ lens,
        length lens = 1%nat
        ∧ omap carried
            (sent (handle_message recorded_math "m9" "d9" 0%R "p1" "s1"
                     (CHAT (mk_chat "hi" (Some ALL) None)) (ex_sv2 recorded_math))) =
          numbered_blocks 2 lens.
Proof.
  destruct (sequence_numbers_count_broadcasts recorded_math)
    as (_ & Hnumbers & Hrequest & _).
  destruct (Hrequest "m9" "d9" 0%R "p1" "s1" (CHAT (mk_chat "hi" (Some ALL) None))
              (ex_sv2 recorded_math) (ex_session2 recorded_math)
              (default (ex_host recorded_math)
                 (Session.players (ex_session2 recorded_math) !! "p1")))
    as [(s' & Hs' & Hcalls) _]; [vm_compute; reflexivity|vm_compute; reflexivity|].
  exists s'. split; [exact Hs'|].
  apply Hnumbers in Hcalls as [Hseq Hblocks].
  split; [rewrite Hseq; vm_compute; reflexivity|].
  split; [vm_compute; reflexivity|exact Hblocks].
Defined.

(** C3, the claim refuted at its boundary.  The host's first fix (0, 0) is
    stored and broadcast; for its next fix, (0, 1.798643211837461e-05),
    [distance_to] returns exactly 2.0, and the handler neither broadcasts
    nor replaces the stored position. *)
Lemma position_update_at_two_metres_is_dropped :
  let new_position := Position.mk 0 boundary_longitude 0 0 0 1 in
  let r :=
    handle_position_update recorded_math "d4" 1%R "p1" (ex_walker recorded_math)
      ex_second_fix (ex_walk_session recorded_math) in
  reachable recorded_math (ex_sv_walk recorded_math)
  ∧ sessions (ex_sv_walk recorded_math) !! "s1" = Some (ex_walk_session recorded_math)
  ∧ Session.players (ex_walk_session recorded_math) !! "p1"
    = Some (ex_walker recorded_math)
  ∧ (∃ old, Player.position (ex_walker recorded_math) = Some old
            ∧ Position.distance_to recorded_math old new_position = inr 2%float)
  ∧ state r = ex_walk_session recorded_math
  ∧ sent r = []
  ∧ Session.sequence_number (state r)
    ≠ (Session.sequence_number (ex_walk_session recorded_math) + 1)%Z.
Proof.
  intros new_position r.
  destruct (ex_walker_stored recorded_math) as (Hs & Hp & Hpos).
  assert (Position.distance_to recorded_math (Position.mk 0 0 0 0 0 0) new_position
          = inr 2%float) as Hdist by (vm_compute; reflexivity).
  assert (r = mk_outcome (ex_walk_session recorded_math) [] (inr ())) as ->.
  { subst r. unfold handle_position_update, accepts_position. rewrite Hpos.
    cbn [Position.kw_latitude Position.kw_longitude Position.kw_heading
         Position.kw_accuracy Position.kw_elevation ex_second_fix default].
    fold new_position. rewrite Hdist. reflexivity. }
  split; [apply ex_sv_walk_reachable|].
  do 2 (split; [done|]).
  split. { eexists. split; [exact Hpos|exact Hdist]. }
  cbn [state sent]. repeat split. lia.
Qed.

Lemma position_update_threshold_witness :
  Session.players (ex_session1 recorded_math) !! "p1" = Some (ex_host recorded_math)
  ∧ returned (handle_position_update recorded_math "d3" 0%R "p1" (ex_host recorded_math)
                (Position.mk_kwargs 0%float 0%float None None None None)
                    (ex_session1 recorded_math)).
Proof.
  assert (Session.players (ex_session1 recorded_math) !! "p1" = Some (ex_host recorded_math)) as H
    by (vm_compute; reflexivity).
  split; [exact H|].
  refine (proj1 (proj2 (proj1 (position_update_threshold recorded_math "d3" 0%R "p1"
    (ex_host recorded_math) (Position.mk_kwargs 0%float 0%float None None None None)
    (ex_session1 recorded_math) H) _))).
  left. vm_compute. reflexivity.
Defined.

(** C4, the claim refuted on its message rule.  The viewer is on team Alpha;
    the one event visible to it is older than the fifty most recent events,
    so the snapshot carries no message although a visible event is stored. *)
Lemma snapshot_misses_visible_message :
  (reachable recorded_math) (ex_sv_chat recorded_math)
  ∧ sessions (ex_sv_chat recorded_math) !! "s1" = Some (ex_chat_session recorded_math)
  ∧ length (Session.messages (ex_chat_session recorded_math)) = 51%nat
  ∧ Message.message_id <$> most_recent_visible 50 (ex_chat_session recorded_math) (Some "alpha")
      = ["c0"]
  ∧ st_messages (get_filtered_state (ex_chat_session recorded_math) (Some "alpha")) = []
  ∧ st_messages (get_filtered_state (ex_chat_session recorded_math) (Some "alpha"))
    ≠ most_recent_visible 50 (ex_chat_session recorded_math) (Some "alpha").
Proof.
  split; [apply (ex_sv_chat_reachable recorded_math)|].
  assert (Message.message_id
            <$> most_recent_visible 50 (ex_chat_session recorded_math) (Some "alpha")
                = ["c0"]) as Hspec
    by (vm_compute; reflexivity).
  assert (st_messages (get_filtered_state (ex_chat_session recorded_math) (Some "alpha"))
      = []) as Hcode
    by (vm_compute; reflexivity).
  split; [vm_compute; reflexivity|]. split; [vm_compute; reflexivity|].
  split; [exact Hspec|]. split; [exact Hcode|].
  rewrite Hcode. intros Heq. rewrite <- Heq in Hspec. discriminate Hspec.
Qed.

Lemma snapshot_contents_witness :
  Session.players (ex_session3 recorded_math) !! "p2" = Some (ex_joiner recorded_math)
  ∧ ∃ d, st_players (get_filtered_state (ex_session3 recorded_math) (Some "alpha")) !! "p2"
      = Some d
         ∧ pd_callsign d = Player.callsign (ex_joiner recorded_math)
         ∧ pd_team_id d = Player.team_id (ex_joiner recorded_math).
Proof.
  assert (Session.players (ex_session3 recorded_math) !! "p2" = Some (ex_joiner recorded_math))
      as Hp
    by (vm_compute; reflexivity).
  split; [exact Hp|].
  destruct (snapshot_contents (ex_session3 recorded_math) (Some "alpha")) as
      (_ & _ & _ & Hplayers & _).
  destruct (Hplayers "p2" (ex_joiner recorded_math) Hp) as (d & Hd & _ & Hcall & Hteam & _).
  exists d. split; [exact Hd|]. split; [exact Hcall|exact Hteam].
Defined.

Lemma foreign_marker_request_ignored_witness :
  (∃ marker, Session.markers (ex_session3 recorded_math) !! "m1" = Some marker
             ∧ Marker.created_by marker ≠ Player.player_id (ex_joiner recorded_math))
  ∧ handle_marker "" "d" 0%R (ex_joiner recorded_math) (MarkerDelete "m1")
      (ex_session3 recorded_math) =
    mk_outcome (ex_session3 recorded_math) [] (inr ()).
Proof.
  assert (∃ marker, Session.markers (ex_session3 recorded_math) !! "m1" = Some marker
                    ∧ Marker.created_by marker ≠ Player.player_id (ex_joiner recorded_math)) as H.
  { eexists. split; [vm_compute; reflexivity|]. vm_compute. discriminate. }
  split; [exact H|].
  exact (proj1 (proj2 (foreign_marker_request_ignored recorded_math "" "d" 0%R
      (ex_joiner recorded_math) "m1"
                         (ex_session3 recorded_math) (or_intror H)))).
Defined.




Lemma team_membership_invariant_witness :
  (reachable recorded_math) (ex_sv2 recorded_math) ∧ team_membership_ok
      (ex_session2 recorded_math).
Proof.
  split; [apply (ex_sv2_reachable recorded_math)|].
  apply (proj1 (team_membership_invariant recorded_math (ex_sv2 recorded_math)
      (ex_sv2_reachable recorded_math)) "s1").
  vm_compute. reflexivity.
Defined.

Lemma alert_is_team_event_witness :
  alert_location (mk_alert HELP None (Some ALL)) = None
  ∧ Message.location
      (Message.mk "a" (Player.player_id (ex_walker recorded_math)) (Player.team_id
          (ex_walker recorded_math)) TEAM
         "alert" ("HELP" +:+ " - " +:+ Player.callsign (ex_walker recorded_math)) 1%R
         (Player.position (ex_walker recorded_math))) = Player.position (ex_walker recorded_math).
Proof.
  split; [reflexivity|].
  exact (proj1 (proj2 (proj2
    (alert_is_team_event "a" "e" 1%R (ex_walker recorded_math) (mk_alert HELP None (Some ALL))
       (ex_walk_session recorded_math)))) eq_refl).
Defined.

Lemma auth_rejected_witness :
  handle_auth 3 "s2" "a" "b" "p3" "d" 0%R (mk_auth "   " "s1" false ∅) (ex_sv1 recorded_math) =
  mk_outcome (ex_sv1 recorded_math) [mk_send 3 (ERROR "Callsign required")] (inr (None, None)).
Proof.
  apply (auth_rejected 3 "s2" "a" "b" "p3" "d" 0%R (mk_auth "   " "s1" false ∅)
      (ex_sv1 recorded_math)).
  left. reflexivity.
Defined.

Lemma auth_accepted_witness :
  strip (auth_callsign (mk_auth " Joiner " "s1" false ∅)) ≠ ""
  ∧ result (handle_auth 2 "" "" "" "p2" "d2" 0%R (mk_auth " Joiner " "s1" false ∅)
      (ex_sv1 recorded_math))
    = inr (Some "p2", Some "s1").
Proof.
  assert (strip (auth_callsign (mk_auth " Joiner " "s1" false ∅)) ≠ "") as Hcall
    by (vm_compute; discriminate).
  split; [exact Hcall|].
  destruct (auth_accepted 2 "" "" "" "p2" "d2" 0%R (mk_auth " Joiner " "s1" false ∅)
              (ex_sv1 recorded_math) (ex_session1 recorded_math) Hcall) as
                  (s1 & snapshot & _ & Hres & _).
  - vm_compute. reflexivity.
  - exact Hres.
Defined.

Lemma frame_answered_without_handler_witness :
  (handle_frame recorded_math) 7 (λ _, "u") 0%R (FrameRequest (CHAT (mk_chat "hi" None None)))
    unauthenticated (ex_sv1 recorded_math) =
  mk_outcome (ex_sv1 recorded_math) [mk_send 7 (ERROR "Not authenticated")] (inr unauthenticated).
Proof.
  apply (frame_answered_without_handler recorded_math 7 (λ _, "u") 0%R
           (FrameRequest (CHAT (mk_chat "hi" None None))) unauthenticated (ex_sv1 recorded_math)).
  left. reflexivity.
Defined.

Lemma handler_exception_reported_witness :
  (handle_frame recorded_math) 1 (λ _, "u") 0%R (FrameRequest (MARKER (MarkerUpdate "m1" None)))
    (mk_connection (Some "p1") (Some "s1")) (ex_sv3 recorded_math) =
  mk_outcome (ex_sv3 recorded_math) [mk_send 1 (ERROR "'marker_data'")]
    (inr (mk_connection (Some "p1") (Some "s1"))).
Proof.
  assert (dispatch recorded_math 1 (λ _, "u") 0%R (FrameRequest (MARKER (MarkerUpdate "m1" None)))
            (mk_connection (Some "p1") (Some "s1")) (ex_sv3 recorded_math) =
          mk_outcome (ex_sv3 recorded_math) [] (inl (KeyError (Some "marker_data")))) as Hd.
  { vm_compute. reflexivity. }
  destruct (handler_exception_reported recorded_math 1 (λ _, "u") 0%R
              (FrameRequest (MARKER (MarkerUpdate "m1" None)))
              (mk_connection (Some "p1") (Some "s1")) (ex_sv3 recorded_math)
              (KeyError (Some "marker_data"))) as [H _].
  - discriminate.
  - by rewrite Hd.
  - rewrite H, Hd. reflexivity.
Defined.

Lemma rejected_auth_forgets_player_witness :
  ∃ s p,
    sessions (state (handle_connection recorded_math 2
                       [(FrameAuth ex_join_data, ex_join_uuid, 0%R);
                        (FrameAuth ex_blank_data, ex_join_uuid, 1%R)]
                       "d9" 2%R (ex_sv1 recorded_math))) !! "s1" = Some s
    ∧ Session.players s !! "p2" = Some p
    ∧ Player.connection_status p = CONNECTED.
Proof.
  destruct (rejected_auth_forgets_player recorded_math 2 ex_join_uuid 0%R ex_join_data
              ex_join_uuid 1%R ex_blank_data "d9" 2%R (ex_sv1 recorded_math)
                  (ex_session1 recorded_math))
    as (_ & (s & p & Hs & Hp & Hstatus & _) & _).
  - vm_compute. discriminate.
  - vm_compute. reflexivity.
  - left. vm_compute. reflexivity.
  - vm_compute. discriminate.
  - vm_compute. discriminate.
  - exists s, p. split; [exact Hs|]. split; [exact Hp|exact Hstatus].
Defined.

Lemma message_ignored_witness :
  (handle_message recorded_math) "u" "v" 0%R "p2" "s1" (TEAM_UPDATE (AssignPlayer "p1" "bravo"))
      (ex_sv2 recorded_math)
  = mk_outcome (ex_sv2 recorded_math) [] (inr ()).
Proof.
  apply (message_ignored recorded_math). right. exists (ex_session2 recorded_math).
  split; [vm_compute; reflexivity|]. right. right.
  exists (AssignPlayer "p1" "bravo"). split; [reflexivity|]. left.
  vm_compute. discriminate.
Defined.

Lemma broadcast_scope_edges_witness :
  sent (broadcast_delta "d" 0%R [] (Some "charlie") (ex_session2 recorded_math)) = [].
Proof.
  apply (proj1 (proj2 (broadcast_scope_edges "d" 0%R [] (Some "charlie")
      (ex_session2 recorded_math)))
           "charlie").
  - reflexivity.
  - discriminate.
  - vm_compute. reflexivity.
Defined.

Lemma disconnect_edges_witness :
  handle_disconnect "d" 0%R "p2" "nowhere" (ex_sv2 recorded_math) = mk_outcome
      (ex_sv2 recorded_math) [] (inr ()).
Proof.
  apply (proj1 (disconnect_edges "d" 0%R "p2" "nowhere" (ex_sv2 recorded_math))).
  left. vm_compute. reflexivity.
Defined.

Lemma marker_created_witness :
  Player.team_id (ex_joiner recorded_math) = Some "bravo"
  ∧ Session.sequence_number
      (state (handle_marker "m2" "d" 0%R (ex_joiner recorded_math)
                (MarkerCreate (mk_marker_data PIN None
                   (Position.mk_kwargs 0%float 0%float None None None None) None))
                       (ex_session3 recorded_math)))
    = (Session.sequence_number (ex_session3 recorded_math) + 1)%Z.
Proof.
  assert (Player.team_id (ex_joiner recorded_math) = Some "bravo") as Hteam by
      (vm_compute; reflexivity).
  split; [exact Hteam|].
  destruct (odict.get "bravo" (Session.teams (ex_session3 recorded_math))) as [team|] eqn:Hget;
    [|vm_compute in Hget; discriminate Hget].
  exact (proj2 (proj2 (proj1 (proj2 (marker_created "m2" "d" 0%R (ex_joiner recorded_math)
    (mk_marker_data PIN None (Position.mk_kwargs 0%float 0%float None None None None) None)
    (ex_session3 recorded_math))) "bravo" team Hteam Hget))).
Defined.

Lemma owner_updates_marker_witness :
  Session.sequence_number
    (state (handle_marker "u" "d5" 0%R (ex_host recorded_math) (MarkerUpdate "m1" (Some None))
              (ex_session3 recorded_math)))
  = (Session.sequence_number (ex_session3 recorded_math) + 1)%Z.
Proof.
  destruct (Session.markers (ex_session3 recorded_math) !! "m1") as [marker|] eqn:Hm;
    [|vm_compute in Hm; discriminate Hm].
  refine (proj2 (proj2 (proj2 (owner_updates_marker "u" "d5" 0%R (ex_host recorded_math) "m1" None
    (ex_session3 recorded_math) marker Hm _)))).
  vm_compute in Hm. injection Hm as <-. reflexivity.
Defined.

Lemma owner_deletes_marker_witness :
  Session.markers
    (state (handle_marker "u" "d5" 0%R (ex_host recorded_math) (MarkerDelete "m1")
        (ex_session3 recorded_math)))
  = delete "m1" (Session.markers (ex_session3 recorded_math)).
Proof.
  destruct (Session.markers (ex_session3 recorded_math) !! "m1") as [marker|] eqn:Hm;
    [|vm_compute in Hm; discriminate Hm].
  destruct (odict.get "alpha" (Session.teams (ex_session3 recorded_math))) as [team|] eqn:Hget;
    [|vm_compute in Hget; discriminate Hget].
  refine (proj1 (proj2 (owner_deletes_marker "u" "d5" 0%R (ex_host recorded_math) "m1"
    (ex_session3 recorded_math) marker "alpha" team Hm _ _ Hget)));
    vm_compute in Hm; injection Hm as <-; reflexivity.
Defined.

Lemma marker_create_delete_round_trip_witness :
  Session.markers
    (state (handle_marker "u" "d6" 1%R (ex_joiner recorded_math) (MarkerDelete "m2")
       (state (handle_marker "m2" "d5" 0%R (ex_joiner recorded_math)
          (MarkerCreate (mk_marker_data PIN None
             (Position.mk_kwargs 0%float 0%float None None None None) None))
                 (ex_session3 recorded_math)))))
  = Session.markers (ex_session3 recorded_math).
Proof.
  destruct (odict.get "bravo" (Session.teams (ex_session3 recorded_math))) as [team|] eqn:Hget;
    [|vm_compute in Hget; discriminate Hget].
  assert (Player.team_id (ex_joiner recorded_math) = Some "bravo") as Hteam by
      (vm_compute; reflexivity).
  assert (Session.markers (ex_session3 recorded_math) !! "m2" = None) as Hfree by
      (vm_compute; reflexivity).
  assert ("m2" ∉ Team.markers team) as Hnew.
  { vm_compute in Hget. injection Hget as <-. vm_compute. intros H. discriminate H. }
  exact (f_equal Session.markers (proj2 (marker_create_delete_round_trip
    "m2" "d5" "u" "d6" 0%R 1%R (ex_joiner recorded_math)
    (mk_marker_data PIN None (Position.mk_kwargs 0%float 0%float None None None None) None)
    (ex_session3 recorded_math) "bravo" team Hteam Hget Hfree Hnew))).
Defined.

Lemma sessions_and_players_persist_witness :
  ∃ s', sessions (ex_sv2 recorded_math) !! "s1" = Some s' ∧ session_kept
      (ex_session1 recorded_math) s'.
Proof.
  apply (sessions_and_players_persist recorded_math (ex_sv1 recorded_math)
      (ex_sv2 recorded_math) "s1" (ex_session1 recorded_math)).
  - apply (ex_sv1_reachable recorded_math).
  - apply (reaches_step recorded_math (ex_sv1 recorded_math) (ex_sv1 recorded_math) ex_join_auth
      (reaches_refl recorded_math (ex_sv1 recorded_math))).
    split; [by apply unknown_player_by_computation|].
    intros Hhost. discriminate Hhost.
  - vm_compute. reflexivity.
Defined.

Lemma session_never_reaped_witness :
  dom (sessions (state (update_tick (λ _ _, "d") 1000%R (ex_sv2 recorded_math)))) = dom
      (sessions (ex_sv2 recorded_math)).
Proof.
  exact (proj2 (session_never_reaped recorded_math (ex_sv2 recorded_math)
      (ex_sv2_reachable recorded_math)) (λ _ _, "d") 1000%R).
Defined.

Lemma stationary_player_goes_inactive_witness :
  ∃ s1,
    sessions (state (handle_message recorded_math "m" "d" 400%R "p1" "s1"
                       (CHAT (mk_chat "still here" None None)) (ex_sv1 recorded_math))) !! "s1"
                           = Some s1
    ∧ Session.players s1 = Session.players (ex_session1 recorded_math)
    ∧ Session.players (state (sweep_session (λ _, "d") 400%R s1)) !! "p1" =
      Some (Player.set_connection_status INACTIVE (ex_host recorded_math)).
Proof.
  apply (stationary_player_goes_inactive recorded_math "m" "d" (λ _, "d") 400%R 400%R "p1" "s1"
           (CHAT (mk_chat "still here" None None)) (ex_sv1 recorded_math)
               (ex_session1 recorded_math) (ex_host recorded_math)).
  - vm_compute. reflexivity.
  - vm_compute. reflexivity.
  - vm_compute. reflexivity.
  - replace (Player.last_active (ex_host recorded_math)) with 0%R by (vm_compute; reflexivity).
      lra.
  - exact I.
Defined.

Lemma host_reassigns_player_witness :
  Session.sequence_number
    (state (handle_team_update "d" 0%R (AssignPlayer "p2" "alpha") (ex_session2 recorded_math)))
  = (Session.sequence_number (ex_session2 recorded_math) + 1)%Z.
Proof.
  assert (sessions (ex_sv2 recorded_math) !! "s1" = Some (ex_session2 recorded_math)) as Hs by
      (vm_compute; reflexivity).
  assert (Session.players (ex_session2 recorded_math) !! "p2" = Some (ex_joiner recorded_math))
      as Hp
    by (vm_compute; reflexivity).
  assert (is_Some (odict.get "alpha" (Session.teams (ex_session2 recorded_math)))) as Hteam
    by (eexists; vm_compute; reflexivity).
  exact (proj1 (proj2 (proj2 (proj2 (host_reassigns_player "d" 0%R "p2" "alpha"
    (ex_session2 recorded_math) (ex_joiner recorded_math) (reachable_consistent recorded_math
        (ex_sv2 recorded_math) (ex_sv2_reachable recorded_math) "s1" (ex_session2 recorded_math)
            Hs)
    Hp Hteam))))).
Defined.

Lemma teams_stay_balanced_witness :
  ∃ team team',
    odict.get "bravo" (Session.teams (ex_session2 recorded_math)) = Some team
    ∧ odict.get "alpha" (Session.teams (ex_session2 recorded_math)) = Some team'
    ∧ (size (Team.players team) ≤ size (Team.players team') + 1)%nat.
Proof.
  destruct (odict.get "bravo" (Session.teams (ex_session2 recorded_math))) as [team|] eqn:Hb;
    [|vm_compute in Hb; discriminate Hb].
  destruct (odict.get "alpha" (Session.teams (ex_session2 recorded_math))) as [team'|] eqn:Ha;
    [|vm_compute in Ha; discriminate Ha].
  exists team, team'. split; [done|]. split; [done|].
  refine (teams_stay_balanced recorded_math (ex_sv2 recorded_math) "s1"
      (ex_session2 recorded_math) _ _ "bravo" "alpha"
            team team' Hb Ha).
  - apply (reachable_by_step recorded_math _ (ex_sv1 recorded_math) ex_join_auth); [|apply
      (ex_sv1_fresh_join recorded_math)|exact I].
    apply (reachable_by_step recorded_math _ empty_server ex_host_auth);
      [apply (reachable_by_init recorded_math)| |exact I].
    split; [by apply unknown_player_by_computation|]. intros _.
    split; [reflexivity|]. repeat split; discriminate.
  - vm_compute. reflexivity.
Defined.

